(** * Programming-school landing page: the three client-side scripts

    A shallow embedding of the page's scripts

      - the main script (smooth scroll, form validation, simulated
        submission, scroll animations),
      - [js/interactions.js] (ButtonStateManager, FormSubmissionManager),
      - [js/animations.js] (intersection-observer reveal animations),

    together with the properties the specification states about them.

    JavaScript strings are sequences of UTF-16 code units; the DOM is
    represented by the attributes, classes and properties the scripts read
    and write; the browser's timer queue is an explicit table of pending
    timers with their due times, and every handler is a function from the
    page state before the event to the page state after it.  An [async]
    handler is split at its [await]: the part before it runs with the
    event, the part after it with the timer that settles the promise.
    Each script is modelled on its own, as the page's scripts share no
    JavaScript state.  Console output is kept only where a property speaks
    about it. *)

From Stdlib Require Import NArith ZArith Lia Bool Ascii.
From stdpp Require Import gmap strings list fin_maps pretty.

Open Scope N_scope.

(* ===================================================================== *)
(** ** JavaScript strings, [String.prototype.trim] and regular expressions *)
(* ===================================================================== *)

Module JsString.

(** A JS string value: UTF-16 code units. *)
Definition jsstring := list N.

(** An ASCII literal as a JS string. *)
Definition js (s : string) : jsstring :=
  map N_of_ascii (String.list_ascii_of_string s).

(** ECMAScript WhiteSpace and LineTerminator code points: what both
    [trim] strips and the regular-expression class [\s] matches. *)
Definition is_white_space (c : N) : bool :=
  (c =? 9) || (c =? 10) || (c =? 11) || (c =? 12) || (c =? 13)
  || (c =? 32) || (c =? 160) || (c =? 5760)
  || ((8192 <=? c) && (c <=? 8202))
  || (c =? 8232) || (c =? 8233) || (c =? 8239) || (c =? 8287)
  || (c =? 12288) || (c =? 65279).

Fixpoint trimStart (s : jsstring) : jsstring :=
  match s with
  | c :: s' => if is_white_space c then trimStart s' else s
  | [] => []
  end.

Definition trimEnd (s : jsstring) : jsstring := rev (trimStart (rev s)).

(** [s.trim()] *)
Definition trim (s : jsstring) : jsstring := trimEnd (trimStart s).

(** A string that is empty or starts with a non-blank character. *)
Definition starts_clean (s : jsstring) : bool :=
  match s with
  | [] => true
  | c :: _ => negb (is_white_space c)
  end.

(** Regular expressions over code units.  The patterns of the page are
    all of the form [^ body $] without flags, so [test] is a match of
    the whole string against the body. *)
Inductive regex : Type :=
| Void : regex
| Eps : regex
| Class (p : N -> bool) : regex
| Cat (r1 r2 : regex) : regex
| Alt (r1 r2 : regex) : regex
| Star (r : regex) : regex.

(** [r+] *)
Definition Plus (r : regex) : regex := Cat r (Star r).
(** a single literal character *)
Definition Chr (c : N) : regex := Class (N.eqb c).

(** The strings a regular expression matches entirely. *)
Inductive Matches : regex -> jsstring -> Prop :=
| MEps : Matches Eps []
| MClass p c : p c = true -> Matches (Class p) [c]
| MCat r1 r2 s1 s2 :
    Matches r1 s1 -> Matches r2 s2 -> Matches (Cat r1 r2) (s1 ++ s2)
| MAltL r1 r2 s : Matches r1 s -> Matches (Alt r1 r2) s
| MAltR r1 r2 s : Matches r2 s -> Matches (Alt r1 r2) s
| MStarNil r : Matches (Star r) []
| MStarCons r s1 s2 :
    Matches r s1 -> Matches (Star r) s2 -> Matches (Star r) (s1 ++ s2).

Fixpoint nullable (r : regex) : bool :=
  match r with
  | Void => false
  | Eps => true
  | Class _ => false
  | Cat r1 r2 => nullable r1 && nullable r2
  | Alt r1 r2 => nullable r1 || nullable r2
  | Star _ => true
  end.

Fixpoint deriv (c : N) (r : regex) : regex :=
  match r with
  | Void => Void
  | Eps => Void
  | Class p => if p c then Eps else Void
  | Cat r1 r2 =>
      if nullable r1
      then Alt (Cat (deriv c r1) r2) (deriv c r2)
      else Cat (deriv c r1) r2
  | Alt r1 r2 => Alt (deriv c r1) (deriv c r2)
  | Star r1 => Cat (deriv c r1) (Star r1)
  end.

(** [/^r$/.test(s)] *)
Fixpoint test (r : regex) (s : jsstring) : bool :=
  match s with
  | [] => nullable r
  | c :: s' => test (deriv c r) s'
  end.

(** The character classes of the page's patterns. *)
Definition is_digit (c : N) : bool := (48 <=? c) && (c <=? 57).
Definition is_lower (c : N) : bool := (97 <=? c) && (c <=? 122).
Definition is_upper (c : N) : bool := (65 <=? c) && (c <=? 90).

(** [[a-zA-Z\s'-]] *)
Definition name_class (c : N) : bool :=
  is_lower c || is_upper c || is_white_space c || (c =? 39) || (c =? 45).
(** [[^\s@]] *)
Definition email_class (c : N) : bool :=
  negb (is_white_space c || (c =? 64)).
(** [[\d\s()+-]] *)
Definition phone_class (c : N) : bool :=
  is_digit c || is_white_space c
  || (c =? 40) || (c =? 41) || (c =? 43) || (c =? 45).

(** [/^[a-zA-Z\s'-]+$/] *)
Definition name_pattern : regex := Plus (Class name_class).
(** [/^[^\s@]+@[^\s@]+\.[^\s@]+$/] *)
Definition email_pattern : regex :=
  Cat (Plus (Class email_class))
    (Cat (Chr 64)
       (Cat (Plus (Class email_class))
          (Cat (Chr 46) (Plus (Class email_class))))).
(** [/^[\d\s()+-]+$/] *)
Definition phone_pattern : regex := Plus (Class phone_class).

End JsString.


(* ===================================================================== *)
(** ** The main script: form validation and simulated submission *)
(* ===================================================================== *)

Module MainForm.
Import JsString.

(** [CONFIG.FORM_SUCCESS_DURATION] *)
Definition FORM_SUCCESS_DURATION : N := 3000.
(** the delay of the timer inside [simulateFormSubmission] *)
Definition SIMULATED_LATENCY : N := 2000.

(** One entry of [VALIDATION_RULES].  A property the entry does not
    define reads as [undefined]: [required] is then falsy, [minLength]
    and [pattern] are absent. *)
Record Rules := {
  required : bool;
  minLength : option N;
  pattern : option regex;
  message : string;
}.

Definition name_rules : Rules :=
  {| required := true; minLength := Some 2; pattern := Some name_pattern;
     message := "Please enter a valid name (letters, spaces, hyphens, and apostrophes only)" |}.
Definition email_rules : Rules :=
  {| required := true; minLength := None; pattern := Some email_pattern;
     message := "Please enter a valid email address" |}.
Definition phone_rules : Rules :=
  {| required := false; minLength := None; pattern := Some phone_pattern;
     message := "Please enter a valid phone number" |}.
Definition message_rules : Rules :=
  {| required := true; minLength := Some 10; pattern := None;
     message := "Please enter a message (at least 10 characters)" |}.

(** The frozen table, keyed by field name. *)
Definition VALIDATION_RULES : gmap string Rules :=
  <["name" := name_rules]>
    (<["email" := email_rules]>
       (<["phone" := phone_rules]>
          (<["message" := message_rules]> ∅))).

(** [VALIDATION_RULES] is a plain object, so a property read with a key
    it does not own falls through to [Object.prototype].  Those members
    are truthy and define none of [required], [minLength], [pattern]. *)
Definition object_prototype_keys : list string :=
  ["constructor"; "__proto__"; "hasOwnProperty"; "isPrototypeOf";
   "propertyIsEnumerable"; "toLocaleString"; "toString"; "valueOf";
   "__defineGetter__"; "__defineSetter__"; "__lookupGetter__";
   "__lookupSetter__"].

Definition inherited_member : Rules :=
  {| required := false; minLength := None; pattern := None; message := "" |}.

(** [VALIDATION_RULES[fieldName]]; [None] is [undefined]. *)
Definition lookup_rules (fieldName : string) : option Rules :=
  match VALIDATION_RULES !! fieldName with
  | Some r => Some r
  | None =>
      if bool_decide (fieldName ∈ object_prototype_keys)
      then Some inherited_member else None
  end.

(** *** The form's elements *)

Inductive Tag := TInput | TTextarea | TSelect.

(** A form control, by what the script reads and writes of it.  Form
    groups are taken not to nest.  [f_labels] is the [labels] property:
    the text content of each label of the control, or [None] where the
    property is [null], as it is for a hidden input. *)
Record Field := {
  f_tag : Tag;
  f_name : string;
  f_value : jsstring;
  f_default : jsstring;            (* the value [form.reset()] restores *)
  f_required : bool;               (* the HTML [required] attribute *)
  f_group : option nat;            (* [closest('.form-group')] *)
  f_labels : option (list string); (* [labels] *)
  f_error : bool;                  (* class [error] *)
  f_aria_invalid : option string;  (* attribute [aria-invalid] *)
}.

(** The [.field-error] elements of the form in insertion order, each with
    the form group that contains it and its text. *)
Definition FieldErrors := list (nat * string).

Record Form := {
  fields : list Field;
  field_errors : FieldErrors;
  form_errors : list string;       (* [.form-error] banners, topmost first *)
}.

(** What the button element holds: the content the page came with, known
    by its text, or the markup last assigned to [innerHTML]. *)
Inductive ButtonContent :=
| PageText (text : string)
| Assigned (html : string).

(** The submit control, as the main script sees it. *)
Record Button := {
  b_loading : bool;                (* class [loading] *)
  b_success : bool;                (* class [success] *)
  b_error : bool;                  (* class [error] *)
  b_disabled : bool;
  b_content : ButtonContent;
  b_original_text : option string; (* attribute [data-original-text] *)
}.

(** The browser's HTML parser, as far as the script depends on it: the
    [textContent] of an element after [html] has been assigned to its
    [innerHTML]. *)
Class HtmlText := text_of_html : string -> string.

(** [button.textContent] *)
Definition textContent `{HtmlText} (b : Button) : string :=
  match b_content b with
  | PageText text => text
  | Assigned html => text_of_html html
  end.

(** How a call of [validateField] or [validateForm] ends: it returns its
    verdict, or it throws (the [TypeError] of reading [labels[0]] where
    [labels] is [null]) and leaves the caller. *)
Inductive Completion := Returned (verdict : bool) | Threw.

(** The call returned [true]. *)
Definition accepted (c : Completion) : bool :=
  match c with Returned true => true | _ => false end.

(** *** Field errors *)

(** [formGroup.querySelector('.field-error')?.remove()] *)
Fixpoint remove_first_error (g : nat) (errs : FieldErrors) : FieldErrors :=
  match errs with
  | [] => []
  | (g', m) :: rest =>
      if Nat.eqb g g' then rest else (g', m) :: remove_first_error g rest
  end.

Definition showFieldError (field : Field) (msg : string) (errs : FieldErrors)
  : Field * FieldErrors :=
  match f_group field with
  | None => (field, errs)
  | Some g =>
      ({| f_tag := f_tag field; f_name := f_name field;
          f_value := f_value field; f_default := f_default field;
          f_required := f_required field; f_group := f_group field;
          f_labels := f_labels field;
          f_error := true; f_aria_invalid := Some "true" |},
       remove_first_error g errs ++ [(g, msg)])
  end.

Definition clearFieldError (field : Field) (errs : FieldErrors)
  : Field * FieldErrors :=
  match f_group field with
  | None => (field, errs)
  | Some g =>
      ({| f_tag := f_tag field; f_name := f_name field;
          f_value := f_value field; f_default := f_default field;
          f_required := f_required field; f_group := f_group field;
          f_labels := f_labels field;
          f_error := false; f_aria_invalid := None |},
       remove_first_error g errs)
  end.

(** *** [validateField] *)

Definition is_empty (s : jsstring) : bool :=
  match s with [] => true | _ => false end.

(** [rules.minLength && fieldValue.length < rules.minLength] *)
Definition too_short (rules : Rules) (fieldValue : jsstring) : bool :=
  match minLength rules with
  | Some n => negb (n =? 0) && (N.of_nat (length fieldValue) <? n)
  | None => false
  end.

(** [rules.pattern && !rules.pattern.test(fieldValue)] *)
Definition pattern_fails (rules : Rules) (fieldValue : jsstring) : bool :=
  match pattern rules with
  | Some re => negb (test re fieldValue)
  | None => false
  end.

(** [`${field.labels[0]?.textContent || 'This field'} is required`];
    [None] when [field.labels] is [null] and the index throws. *)
Definition required_message (field : Field) : option string :=
  match f_labels field with
  | None => None
  | Some labels =>
      Some ((match head labels with
             | Some "" | None => "This field"
             | Some l => l
             end) +:+ " is required")
  end.

(** [`Must be at least ${rules.minLength} characters`] *)
Definition min_length_message (n : N) : string :=
  "Must be at least " +:+ pretty n +:+ " characters".

(** [validateField(field)]: how the call ends, and the control and the
    errors on display as it leaves them.  The argument of [showFieldError]
    is evaluated before the call, so nothing has changed when it throws. *)
Definition validateField (field : Field) (errs : FieldErrors)
  : Completion * (Field * FieldErrors) :=
  let fieldValue := trim (f_value field) in
  match lookup_rules (f_name field) with
  | None => (Returned true, (field, errs))
  | Some rules =>
      if required rules && is_empty fieldValue then
        match required_message field with
        | Some msg => (Returned false, showFieldError field msg errs)
        | None => (Threw, (field, errs))
        end
      else if is_empty fieldValue && negb (required rules) then
        (Returned true, (field, errs))
      else if too_short rules fieldValue then
        (Returned false,
         showFieldError field
           (min_length_message (default 0 (minLength rules))) errs)
      else if pattern_fails rules fieldValue then
        (Returned false, showFieldError field (message rules) errs)
      else
        (Returned true, clearFieldError field errs)
  end.

(** The same control with another name and value. *)
Definition with_input (f : Field) (n : string) (v : jsstring) : Field :=
  {| f_tag := f_tag f; f_name := n; f_value := v; f_default := f_default f;
     f_required := f_required f; f_group := f_group f; f_labels := f_labels f;
     f_error := f_error f; f_aria_invalid := f_aria_invalid f |}.

(** The specification's notion of a value violating a rule, read on the
    trimmed value: an empty value violates exactly the required
    constraint; a non-empty one violates the rule when it is shorter than
    the minimum length or does not match the pattern. *)
Definition violates_rule (rules : Rules) (value : jsstring) : bool :=
  let v := trim value in
  if is_empty v then required rules
  else too_short rules v || pattern_fails rules v.

(** *** [validateForm] *)

(** The selector [input[required], textarea[required]]. *)
Definition is_required_input (f : Field) : bool :=
  match f_tag f with
  | TInput | TTextarea => f_required f
  | TSelect => false
  end.

(** The [forEach] over the selected controls, in document order, with
    the [isValid] it leaves.  An exception of [validateField] leaves the
    loop: the controls from the throwing one on stay as they were. *)
Fixpoint validate_inputs (fs : list Field) (errs : FieldErrors)
  : Completion * (list Field * FieldErrors) :=
  match fs with
  | [] => (Returned true, ([], errs))
  | f :: rest =>
      if is_required_input f then
        match validateField f errs with
        | (Threw, _) => (Threw, (f :: rest, errs))
        | (Returned ok, (f', errs1)) =>
            let '(c, (rest', errs2)) := validate_inputs rest errs1 in
            (match c with
             | Returned oks => Returned (ok && oks)
             | Threw => Threw
             end, (f' :: rest', errs2))
        end
      else
        let '(c, (rest', errs2)) := validate_inputs rest errs in
        (c, (f :: rest', errs2))
  end.

Definition validateForm (form : Form) : Completion * Form :=
  let '(c, (fs, errs)) := validate_inputs (fields form) (field_errors form) in
  (c, {| fields := fs; field_errors := errs; form_errors := form_errors form |}).

(** *** [clearAllErrors], [showFormError], [form.reset()] *)

Definition clear_field_marks (f : Field) : Field :=
  if f_error f then
    {| f_tag := f_tag f; f_name := f_name f; f_value := f_value f;
       f_default := f_default f; f_required := f_required f;
       f_group := f_group f; f_labels := f_labels f;
       f_error := false; f_aria_invalid := None |}
  else f.

Definition clearAllErrors (form : Form) : Form :=
  {| fields := clear_field_marks <$> fields form;
     field_errors := [];
     form_errors := tail (form_errors form) |}.

(** The submit control lies inside the form, so the [.error] sweep of
    [clearAllErrors] reaches it too. *)
Definition clear_button_error (b : Button) : Button :=
  {| b_loading := b_loading b; b_success := b_success b; b_error := false;
     b_disabled := b_disabled b; b_content := b_content b;
     b_original_text := b_original_text b |}.

Definition showFormError (form : Form) (msg : string) : Form :=
  {| fields := fields form; field_errors := field_errors form;
     form_errors := msg :: form_errors form |}.

Definition reset_field (f : Field) : Field :=
  {| f_tag := f_tag f; f_name := f_name f; f_value := f_default f;
     f_default := f_default f; f_required := f_required f;
     f_group := f_group f; f_labels := f_labels f;
     f_error := f_error f; f_aria_invalid := f_aria_invalid f |}.

Definition form_reset (form : Form) : Form :=
  {| fields := reset_field <$> fields form;
     field_errors := field_errors form;
     form_errors := form_errors form |}.

(** *** [setButtonState] *)

(** The state argument; every string other than the three named ones
    takes the [default] branch of the switch. *)
Inductive ButtonState := BLoading | BSuccess | BError | BDefault.

Section Browser.

Context `{HtmlText}.

(** [button.getAttribute('data-original-text') || button.textContent] *)
Definition original_text (b : Button) : string :=
  match b_original_text b with
  | Some "" | None => textContent b
  | Some t => t
  end.

Definition setButtonState (button : option Button) (state : ButtonState)
  : option Button :=
  match button with
  | None => None
  | Some b =>
      let originalText := original_text b in
      let attr :=
        match b_original_text b with
        | Some t => Some t
        | None => Some originalText
        end in
      Some
        match state with
        | BLoading =>
            {| b_loading := true; b_success := false; b_error := false;
               b_disabled := true;
               b_content := Assigned "<span>Sending...</span>";
               b_original_text := attr |}
        | BSuccess =>
            {| b_loading := false; b_success := true; b_error := false;
               b_disabled := true;
               b_content := Assigned "<span>Message Sent!</span>";
               b_original_text := attr |}
        | BError =>
            {| b_loading := false; b_success := false; b_error := true;
               b_disabled := false;
               b_content := Assigned "<span>Failed - Try Again</span>";
               b_original_text := attr |}
        | BDefault =>
            {| b_loading := false; b_success := false; b_error := false;
               b_disabled := false;
               b_content :=
                 Assigned ("<span>" +:+ originalText +:+ "</span>");
               b_original_text := attr |}
        end
  end.

(** *** The page state and its events *)

(** What a pending timer will run. *)
Inductive Callback :=
| SimSettle            (* the timer inside [simulateFormSubmission] *)
| AfterSuccess         (* [form.reset(); setButtonState(.., 'default')] *)
| AfterError.          (* [setButtonState(.., 'default')] *)

Record Timer := { due : N; callback : Callback }.

Record State := {
  form : Form;
  button : option Button;          (* [form.querySelector(FORM_SUBMIT_BTN)] *)
  now : N;                         (* the clock, in milliseconds *)
  timers : gmap nat Timer;         (* pending [setTimeout] callbacks *)
  next_timer : nat;                (* the next timer handle *)
  sim_calls : nat;                 (* [simulateFormSubmission] calls so far *)
}.

(** [setTimeout(cb, delay)] *)
Definition setTimeout (cb : Callback) (delay : N) (st : State) : State :=
  {| form := form st; button := button st; now := now st;
     timers := <[next_timer st := {| due := now st + delay; callback := cb |}]>
                 (timers st);
     next_timer := S (next_timer st);
     sim_calls := sim_calls st |}.

Definition with_form (fm : Form) (st : State) : State :=
  {| form := fm; button := button st; now := now st; timers := timers st;
     next_timer := next_timer st; sim_calls := sim_calls st |}.

Definition with_button (b : option Button) (st : State) : State :=
  {| form := form st; button := b; now := now st; timers := timers st;
     next_timer := next_timer st; sim_calls := sim_calls st |}.

(** [simulateFormSubmission(data)]: counts the call and arms its timer;
    the promise settles when that timer fires. *)
Definition simulateFormSubmission (st : State) : State :=
  setTimeout SimSettle SIMULATED_LATENCY
    {| form := form st; button := button st; now := now st;
       timers := timers st; next_timer := next_timer st;
       sim_calls := S (sim_calls st) |}.

(** [handleFormSubmit], up to the [await].  [validateForm] is called
    outside the [try] block: when it throws, the handler ends there. *)
Definition handleFormSubmit (st : State) : State :=
  let cleared := clearAllErrors (form st) in
  let st1 := with_button (clear_button_error <$> button st)
               (with_form cleared st) in
  let '(isValid, validated) := validateForm cleared in
  let st2 := with_form validated st1 in
  match isValid with
  | Threw => st2
  | Returned false => st2
  | Returned true =>
      simulateFormSubmission
        (with_button (setButtonState (button st2) BLoading) st2)
  end.

(** [handleFormSubmit] after the [await]: [resolved] is the outcome of
    [Math.random() > 0.1] in the settling timer. *)
Definition submission_settled (resolved : bool) (st : State) : State :=
  if resolved then
    setTimeout AfterSuccess FORM_SUCCESS_DURATION
      (with_button (setButtonState (button st) BSuccess) st)
  else
    let st1 :=
      setTimeout AfterError FORM_SUCCESS_DURATION
        (with_button (setButtonState (button st) BError) st) in
    with_form
      (showFormError (form st1) "An error occurred. Please try again later.")
      st1.

Definition run_callback (cb : Callback) (rnd : bool) (st : State) : State :=
  match cb with
  | SimSettle => submission_settled rnd st
  | AfterSuccess =>
      let st1 := with_form (form_reset (form st)) st in
      with_button (setButtonState (button st1) BDefault) st1
  | AfterError => with_button (setButtonState (button st) BDefault) st
  end.

Inductive Event :=
| Submit                          (* a submit event reaches the form *)
| Fire (id : nat) (rnd : bool)    (* timer [id] runs; [rnd] is the draw *)
| Elapse (dt : N).                (* time passes *)

(** One turn of the event loop; [None] when the event cannot occur (the
    timer is not pending or not yet due). *)
Definition step (st : State) (e : Event) : option State :=
  match e with
  | Submit => Some (handleFormSubmit st)
  | Fire id rnd =>
      match timers st !! id with
      | Some t =>
          if due t <=? now st then
            Some (run_callback (callback t) rnd
                    {| form := form st; button := button st; now := now st;
                       timers := delete id (timers st);
                       next_timer := next_timer st;
                       sim_calls := sim_calls st |})
          else None
      | None => None
      end
  | Elapse dt =>
      Some {| form := form st; button := button st; now := now st + dt;
              timers := timers st; next_timer := next_timer st;
              sim_calls := sim_calls st |}
  end.

Fixpoint run (st : State) (es : list Event) : option State :=
  match es with
  | [] => Some st
  | e :: rest =>
      match step st e with
      | Some st' => run st' rest
      | None => None
      end
  end.

End Browser.

(** The page as loaded: nothing pending, no submission made.  Timer
    handles are positive integers. *)
Definition page_loaded (fm : Form) (b : option Button) : State :=
  {| form := fm; button := b; now := 0; timers := ∅; next_timer := 1%nat;
     sim_calls := 0%nat |}.

(** *** A concrete contact form

    Four controls, each in a form group of its own; name, email and
    message carry the [required] attribute, the optional phone does not. *)
Definition control (tag : Tag) (n : string) (v : jsstring) (req : bool)
    (g : nat) (l : string) : Field :=
  {| f_tag := tag; f_name := n; f_value := v; f_default := [];
     f_required := req; f_group := Some g; f_labels := Some [l];
     f_error := false; f_aria_invalid := None |}.

(** A required name input that no [.form-group] element encloses. *)
Definition ungrouped_name (v : string) : Field :=
  {| f_tag := TInput; f_name := "name"; f_value := js v; f_default := [];
     f_required := true; f_group := None; f_labels := Some ["Name"];
     f_error := false; f_aria_invalid := None |}.

Definition contact_form (name email phone msg : string) : Form :=
  {| fields := [control TInput "name" (js name) true 0 "Name";
                control TInput "email" (js email) true 1 "Email";
                control TInput "phone" (js phone) false 2 "Phone";
                control TTextarea "message" (js msg) true 3 "Message"];
     field_errors := []; form_errors := [] |}.

Definition send_button : Button :=
  {| b_loading := false; b_success := false; b_error := false;
     b_disabled := false; b_content := PageText "Send Message";
     b_original_text := None |}.

(** The page with the form filled in correctly. *)
Definition filled_page : State :=
  page_loaded
    (contact_form "Jane Doe" "a@b.co" "+1 (555) 010-9999" "Hello, hi there!")
    (Some send_button).

(** A failed submission, a retry while the error is on display, and then
    the moment the timer armed by the error state comes due. *)
Definition retry_trace : list Event :=
  [Submit; Elapse 2000; Fire 1 false; Elapse 1500; Submit; Elapse 1500].

Definition is_settling (t : Timer) : bool :=
  match callback t with SimSettle => true | _ => false end.

(** A submission is in flight while its settling timer is pending. *)
Definition in_flight (st : State) : nat :=
  size (filter (fun kv : nat * Timer => is_settling kv.2 = true) (timers st)).

(** A required hidden input named as the email rule: its [labels] are
    [null]. *)
Definition hidden_email (v : string) : Field :=
  {| f_tag := TInput; f_name := "email"; f_value := js v; f_default := [];
     f_required := true; f_group := Some 1%nat; f_labels := None;
     f_error := false; f_aria_invalid := None |}.

(** Text that the HTML parser takes as it is: free of [<], [&], the null
    character and the carriage return. *)
Fixpoint markup_free (text : string) : bool :=
  match text with
  | EmptyString => true
  | String c rest =>
      negb (bool_decide (c ∈ ["<"; "&"; "000"; "013"]%char))
      && markup_free rest
  end.

(** What a parser must do for the main script's button: text that is
    free of markup comes back as it is from inside a [span]. *)
Definition reads_plain_spans `{HtmlText} : Prop :=
  forall text, markup_free text = true ->
    text_of_html ("<span>" +:+ text +:+ "</span>") = text.

(** A reader of exactly the markup [setButtonState] writes: the text
    between [<span>] and the closing [</span>]. *)
Fixpoint before_suffix (suffix s : string) : string :=
  if String.eqb s suffix then ""
  else match s with
       | String c rest => String c (before_suffix suffix rest)
       | EmptyString => ""
       end.

Definition span_text : HtmlText :=
  fun html =>
    match html with
    | String "<" (String "s" (String "p" (String "a" (String "n"
        (String ">" rest))))) => before_suffix "</span>" rest
    | _ => html
    end.

End MainForm.

(* ===================================================================== *)
(** ** The main script: smooth-scroll navigation *)
(* ===================================================================== *)

Module MainScroll.

(** [CONFIG.SCROLL_OFFSET] *)
Definition SCROLL_OFFSET : Z := 80.

(** An element of the document, by what the click handler reads and writes
    of it.  An element without an [id] attribute, or with an empty one, has
    no ID; [el_top] is [getBoundingClientRect().top + window.pageYOffset]
    in whole pixels. *)
Record Element := {
  el_id : string;
  el_top : Z;
  el_tabindex : option string;
}.

Inductive Level := Info | Warn | Err.

(** A console entry: level, message and the target id of its context. *)
Record LogEntry := { level : Level; msg : string; targetId : string }.

Record Page := {
  elements : list Element;             (* in tree order *)
  scroll_requests : list Z;            (* [window.scrollTo] calls, latest first *)
  pushed : list string;                (* [history.pushState] URLs, latest first *)
  has_pushState : bool;                (* [history.pushState] is defined *)
  focused : option nat;                (* index of the focused element *)
  console : list LogEntry;             (* latest first *)
}.

(** [document.getElementById(id)]: the index and the element. *)
Fixpoint find_id (id : string) (i : nat) (els : list Element)
  : option (nat * Element) :=
  match els with
  | [] => None
  | e :: rest =>
      if String.eqb (el_id e) id then Some (i, e) else find_id id (S i) rest
  end.

Definition getElementById (id : string) (p : Page) : option (nat * Element) :=
  match id with
  | "" => None
  | _ => find_id id 0 (elements p)
  end.

Definition log (l : Level) (m : string) (target : string) (p : Page) : Page :=
  {| elements := elements p; scroll_requests := scroll_requests p;
     pushed := pushed p; has_pushState := has_pushState p;
     focused := focused p;
     console := {| level := l; msg := m; targetId := target |} :: console p |}.

(** [handleSmoothScroll(event)] for a click on a link whose [href]
    attribute is [href] ([None] when absent).  The result is whether
    [event.preventDefault()] was called, and the page afterwards. *)
Definition handleSmoothScroll (href : option string) (p : Page) : bool * Page :=
  match href with
  | Some (String "#" target) =>
      match getElementById target p with
      | None => (true, log Warn "Smooth scroll target not found" target p)
      | Some (i, e) =>
          let offsetPosition := (el_top e - SCROLL_OFFSET)%Z in
          let e' := {| el_id := el_id e; el_top := el_top e;
                       el_tabindex := Some "-1" |} in
          (true,
           log Info "Smooth scroll executed" target
             {| elements := <[i := e']> (elements p);
                scroll_requests := offsetPosition :: scroll_requests p;
                pushed := if has_pushState p
                          then ("#" +:+ target) :: pushed p
                          else pushed p;
                has_pushState := has_pushState p;
                focused := Some i;
                console := console p |})
      end
  | _ => (false, p)
  end.

(** A page with two sections and nothing done yet. *)
Definition two_sections : Page :=
  {| elements := [{| el_id := "courses"; el_top := 600; el_tabindex := None |};
                  {| el_id := "contact"; el_top := 2400; el_tabindex := None |}];
     scroll_requests := []; pushed := []; has_pushState := true;
     focused := None; console := [] |}.

End MainScroll.

(* ===================================================================== *)
(** ** The main script: scroll-triggered animations *)
(* ===================================================================== *)

Module MainAnim.

(** [CONFIG.ANIMATION_STAGGER] *)
Definition ANIMATION_STAGGER : N := 100.

(** An element of the document, by what the script reads and writes of it.
    [el_observer] is the JavaScript property [observer] of the element
    object, which [handleIntersection] reads; the DOM does not define it
    and no script assigns it. *)
Record Element := {
  classes : list string;
  opacity : option string;             (* [style.opacity] *)
  transform : option string;           (* [style.transform] *)
  transition : option string;          (* [style.transition] *)
  delay_attr : option N;               (* [data-animation-delay] *)
  el_observer : option nat;
}.

(** [SELECTORS.ANIMATED_ELEMENTS] *)
Definition ANIMATED_CLASSES : list string :=
  ["course-card"; "testimonial-card"; "stat-item"; "trust-badge"].

Definition is_animated_element (e : Element) : bool :=
  existsb (fun c => bool_decide (c ∈ classes e)) ANIMATED_CLASSES.

Record State := {
  elements : list Element;
  no_animations : bool;              (* [body] has [data-no-animations] *)
  reduced_motion : bool;             (* the media query matches *)
  observer_created : bool;           (* the one IntersectionObserver *)
  observed : gset nat;               (* its targets, by position *)
  now : N;
  timers : gmap nat (N * nat);       (* due time and element to reveal *)
  next_timer : nat;
}.

Definition shouldDisableAnimations (marker reduced : bool) : bool :=
  marker || reduced.

(** The [forEach] of [initScrollAnimations]: every matched element gets the
    hidden initial style and its delay; the result lists the targets. *)
Fixpoint hide_from (i index : nat) (els : list Element)
  : list Element * list nat :=
  match els with
  | [] => ([], [])
  | e :: rest =>
      if is_animated_element e then
        let '(rest', ts) := hide_from (S i) (S index) rest in
        ({| classes := classes e; opacity := Some "0";
            transform := Some "translateY(20px)";
            transition := Some "opacity 0.6s ease, transform 0.6s ease";
            delay_attr := Some (N.of_nat index * ANIMATION_STAGGER);
            el_observer := el_observer e |} :: rest',
         i :: ts)
      else
        let '(rest', ts) := hide_from (S i) index rest in
        (e :: rest', ts)
  end.

(** [initScrollAnimations()] on the loaded document. *)
Definition initScrollAnimations (els : list Element) (marker reduced : bool)
  : State :=
  let idle :=
    {| elements := els; no_animations := marker; reduced_motion := reduced;
       observer_created := false; observed := ∅; now := 0; timers := ∅;
       next_timer := 1%nat |} in
  if shouldDisableAnimations marker reduced then idle
  else
    match hide_from 0 0 els with
    | (_, []) => idle
    | (els', ts) =>
        {| elements := els'; no_animations := marker;
           reduced_motion := reduced; observer_created := true;
           observed := list_to_set ts; now := 0; timers := ∅;
           next_timer := 1%nat |}
    end.

(** [parseInt(element.getAttribute('data-animation-delay') || '0', 10)] *)
Definition delay_of (t : nat) (st : State) : N :=
  match elements st !! t with
  | Some e => default 0 (delay_attr e)
  | None => 0
  end.

(** [entry.target.observer?.unobserve?.(element)]: the optional chain stops
    at an undefined [observer] property. *)
Definition unobserve_via_target (t : nat) (st : State) : gset nat :=
  match elements st !! t with
  | Some e =>
      match el_observer e with
      | Some _ => observed st ∖ {[t]}
      | None => observed st
      end
  | None => observed st
  end.

(** One entry of [handleIntersection(entries)]. *)
Definition handle_entry (entry : nat * bool) (st : State) : State :=
  let '(t, isIntersecting) := entry in
  if isIntersecting then
    {| elements := elements st; no_animations := no_animations st;
       reduced_motion := reduced_motion st;
       observer_created := observer_created st;
       observed := unobserve_via_target t st;
       now := now st;
       timers := <[next_timer st := (now st + delay_of t st, t)]> (timers st);
       next_timer := S (next_timer st) |}
  else st.

Definition handleIntersection (entries : list (nat * bool)) (st : State)
  : State :=
  foldl (fun s entry => handle_entry entry s) st entries.

(** The timer's callback: the element takes its final style. *)
Definition show (e : Element) : Element :=
  {| classes := classes e; opacity := Some "1";
     transform := Some "translateY(0)"; transition := transition e;
     delay_attr := delay_attr e; el_observer := el_observer e |}.

Inductive Event :=
| Intersect (entries : list (nat * bool))   (* the observer reports entries *)
| Fire (id : nat)                           (* timer [id] runs *)
| Elapse (dt : N).                          (* time passes *)

Definition step (st : State) (e : Event) : option State :=
  match e with
  | Intersect entries =>
      if observer_created st
         && forallb (fun entry : nat * bool =>
                       bool_decide (entry.1 ∈ observed st)) entries
         && negb (bool_decide (entries = []))
      then Some (handleIntersection entries st)
      else None
  | Fire id =>
      match timers st !! id with
      | Some (due, t) =>
          if due <=? now st then
            Some {| elements := alter show t (elements st);
                    no_animations := no_animations st;
                    reduced_motion := reduced_motion st;
                    observer_created := observer_created st;
                    observed := observed st; now := now st;
                    timers := delete id (timers st);
                    next_timer := next_timer st |}
          else None
      | None => None
      end
  | Elapse dt =>
      Some {| elements := elements st; no_animations := no_animations st;
              reduced_motion := reduced_motion st;
              observer_created := observer_created st;
              observed := observed st; now := now st + dt;
              timers := timers st; next_timer := next_timer st |}
  end.

Fixpoint run (st : State) (es : list Event) : option State :=
  match es with
  | [] => Some st
  | e :: rest =>
      match step st e with
      | Some st' => run st' rest
      | None => None
      end
  end.

(** A course card as the DOM gives it. *)
Definition card : Element :=
  {| classes := ["course-card"]; opacity := None; transform := None;
     transition := None; delay_attr := None; el_observer := None |}.

(** The second of two cards scrolls into view and is revealed after its
    delay of 100 ms. *)
Definition reveal_trace : list Event :=
  [Intersect [(1%nat, true)]; Elapse 100; Fire 1].

End MainAnim.

(* ===================================================================== *)
(** ** [js/interactions.js]: ButtonStateManager and FormSubmissionManager *)
(* ===================================================================== *)

Module Interactions.

(** [CONFIG] *)
Definition LOADING_MIN_DURATION : N := 1000.
Definition SUCCESS_DISPLAY_DURATION : N := 3000.
Definition ERROR_DISPLAY_DURATION : N := 3000.

(** [BUTTON_STATES] *)
Inductive ButtonState := IDLE | LOADING | SUCCESS | ERROR.

(** What [innerHTML] holds: markup of the page, or one of the three
    templates the manager writes, with the text it carries. *)
Inductive Content :=
| Markup (html : string)
| LoadingContent (text : string)   (* spinner and text *)
| SuccessContent (text : string)   (* check mark and text *)
| ErrorContent (text : string).    (* cross and text *)

(** The empty string is the only falsy content. *)
Definition content_falsy (c : Content) : bool :=
  match c with Markup "" => true | _ => false end.

(** The submit control, by what the manager reads and writes of it. *)
Record Button := {
  cls_morphing : bool;               (* class [btn-morphing] *)
  cls_idle : bool;                   (* class [idle] *)
  cls_loading : bool;                (* class [loading] *)
  cls_success : bool;                (* class [success] *)
  cls_error : bool;                  (* class [error] *)
  disabled : bool;
  aria_busy : option string;
  aria_live : option string;
  innerHTML : Content;
  data_original_content : option Content;  (* attribute, when present *)
}.

(** The [options] argument of [setState]; [None] is an absent property. *)
Record Options := { text : option string; duration : option N }.
Definition no_options : Options := {| text := None; duration := None |}.

(** [options.text || fallback] *)
Definition text_or (o : Options) (fallback : string) : string :=
  match text o with
  | Some "" | None => fallback
  | Some t => t
  end.

(** [options.duration || fallback] *)
Definition duration_or (o : Options) (fallback : N) : N :=
  match duration o with
  | Some 0 | None => fallback
  | Some d => d
  end.

(** What a pending timer will run. *)
Inductive Callback :=
| ToIdle                       (* [() => this.setState(IDLE)] *)
| SimSettle (startTime : N)    (* the timer inside [simulateSubmission] *)
| MinDelayDone                 (* the timer inside [delay] *)
| FormReset                    (* [form.reset(); clearFormErrors()] *)
| RemoveBanner (banner : nat). (* [errorElement.remove()] *)

Record Timer := { due : N; callback : Callback }.

(** Both managers and the part of the page they act on. *)
Record State := {
  (* ButtonStateManager *)
  button : Button;
  currentState : ButtonState;
  originalContent : Content;
  stateTimeout : option nat;
  (* FormSubmissionManager *)
  isSubmitting : bool;
  (* the form: its [.form-error-message] banners, topmost first, each with
     the identity of its element; the number of [form.reset()] calls; the
     custom events dispatched *)
  banners : list (nat * string);
  next_banner : nat;
  resets : nat;
  dispatched : list string;
  (* the browser *)
  now : N;
  timers : gmap nat Timer;
  next_timer : nat;
  (* observations: the states logged as 'Button state changed', latest
     first, and the number of [simulateSubmission] calls *)
  state_log : list ButtonState;
  sim_calls : nat;
}.

Definition set_button (b : Button) (st : State) : State :=
  {| button := b; currentState := currentState st;
     originalContent := originalContent st; stateTimeout := stateTimeout st;
     isSubmitting := isSubmitting st; banners := banners st;
     next_banner := next_banner st; resets := resets st;
     dispatched := dispatched st; now := now st; timers := timers st;
     next_timer := next_timer st; state_log := state_log st;
     sim_calls := sim_calls st |}.

Definition set_stateTimeout (t : option nat) (st : State) : State :=
  {| button := button st; currentState := currentState st;
     originalContent := originalContent st; stateTimeout := t;
     isSubmitting := isSubmitting st; banners := banners st;
     next_banner := next_banner st; resets := resets st;
     dispatched := dispatched st; now := now st; timers := timers st;
     next_timer := next_timer st; state_log := state_log st;
     sim_calls := sim_calls st |}.

Definition set_isSubmitting (v : bool) (st : State) : State :=
  {| button := button st; currentState := currentState st;
     originalContent := originalContent st; stateTimeout := stateTimeout st;
     isSubmitting := v; banners := banners st;
     next_banner := next_banner st; resets := resets st;
     dispatched := dispatched st; now := now st; timers := timers st;
     next_timer := next_timer st; state_log := state_log st;
     sim_calls := sim_calls st |}.

Definition set_timers (ts : gmap nat Timer) (st : State) : State :=
  {| button := button st; currentState := currentState st;
     originalContent := originalContent st; stateTimeout := stateTimeout st;
     isSubmitting := isSubmitting st; banners := banners st;
     next_banner := next_banner st; resets := resets st;
     dispatched := dispatched st; now := now st; timers := ts;
     next_timer := next_timer st; state_log := state_log st;
     sim_calls := sim_calls st |}.

(** [setTimeout(cb, delay)]: the new handle and the state with the timer
    pending. *)
Definition setTimeout (cb : Callback) (delay : N) (st : State) : nat * State :=
  (next_timer st,
   {| button := button st; currentState := currentState st;
      originalContent := originalContent st; stateTimeout := stateTimeout st;
      isSubmitting := isSubmitting st; banners := banners st;
      next_banner := next_banner st; resets := resets st;
      dispatched := dispatched st; now := now st;
      timers := <[next_timer st := {| due := now st + delay; callback := cb |}]>
                  (timers st);
      next_timer := S (next_timer st); state_log := state_log st;
      sim_calls := sim_calls st |}).

(** [clearTimeout(id)] *)
Definition clearTimeout (id : nat) (st : State) : State :=
  set_timers (delete id (timers st)) st.

(** *** ButtonStateManager *)

Definition setIdleState (st : State) : State :=
  let b := button st in
  let content :=
    match data_original_content b with
    | Some c => if content_falsy c then originalContent st else c
    | None => originalContent st
    end in
  set_button
    {| cls_morphing := cls_morphing b; cls_idle := cls_idle b;
       cls_loading := cls_loading b; cls_success := cls_success b;
       cls_error := cls_error b;
       disabled := false; aria_busy := Some "false"; aria_live := Some "off";
       innerHTML := content;
       data_original_content := data_original_content b |} st.

Definition setLoadingState (options : Options) (st : State) : State :=
  let b := button st in
  set_button
    {| cls_morphing := cls_morphing b; cls_idle := cls_idle b;
       cls_loading := cls_loading b; cls_success := cls_success b;
       cls_error := cls_error b;
       disabled := true; aria_busy := Some "true"; aria_live := Some "polite";
       innerHTML := LoadingContent (text_or options "Sending...");
       data_original_content := data_original_content b |} st.

Definition setSuccessState (options : Options) (st : State) : State :=
  let b := button st in
  let st1 :=
    set_button
      {| cls_morphing := cls_morphing b; cls_idle := cls_idle b;
         cls_loading := cls_loading b; cls_success := cls_success b;
         cls_error := cls_error b;
         disabled := true; aria_busy := Some "false";
         aria_live := Some "polite";
         innerHTML := SuccessContent (text_or options "Message Sent!");
         data_original_content := data_original_content b |} st in
  let '(id, st2) :=
    setTimeout ToIdle (duration_or options SUCCESS_DISPLAY_DURATION) st1 in
  set_stateTimeout (Some id) st2.

Definition setErrorState (options : Options) (st : State) : State :=
  let b := button st in
  let st1 :=
    set_button
      {| cls_morphing := cls_morphing b; cls_idle := cls_idle b;
         cls_loading := cls_loading b; cls_success := cls_success b;
         cls_error := cls_error b;
         disabled := false; aria_busy := Some "false";
         aria_live := Some "assertive";
         innerHTML := ErrorContent (text_or options "Failed - Try Again");
         data_original_content := data_original_content b |} st in
  let '(id, st2) :=
    setTimeout ToIdle (duration_or options ERROR_DISPLAY_DURATION) st1 in
  set_stateTimeout (Some id) st2.

(** The class list after removing the four state classes and adding the
    class of [state]. *)
Definition with_state_class (state : ButtonState) (b : Button) : Button :=
  {| cls_morphing := cls_morphing b;
     cls_idle := match state with IDLE => true | _ => false end;
     cls_loading := match state with LOADING => true | _ => false end;
     cls_success := match state with SUCCESS => true | _ => false end;
     cls_error := match state with ERROR => true | _ => false end;
     disabled := disabled b; aria_busy := aria_busy b;
     aria_live := aria_live b; innerHTML := innerHTML b;
     data_original_content := data_original_content b |}.

(** [setState(state, options)].  A timer handle is a positive integer, so
    [if (this.stateTimeout)] holds for every handle but 0. *)
Definition setState (state : ButtonState) (options : Options) (st : State)
  : State :=
  let st1 :=
    match stateTimeout st with
    | Some (S _ as id) => set_stateTimeout None (clearTimeout id st)
    | _ => st
    end in
  let st2 :=
    {| button := with_state_class state (button st1);
       currentState := state;
       originalContent := originalContent st1;
       stateTimeout := stateTimeout st1;
       isSubmitting := isSubmitting st1; banners := banners st1;
       next_banner := next_banner st1; resets := resets st1;
       dispatched := dispatched st1; now := now st1; timers := timers st1;
       next_timer := next_timer st1; state_log := state_log st1;
       sim_calls := sim_calls st1 |} in
  let st3 :=
    match state with
    | IDLE => setIdleState st2
    | LOADING => setLoadingState options st2
    | SUCCESS => setSuccessState options st2
    | ERROR => setErrorState options st2
    end in
  {| button := button st3; currentState := currentState st3;
     originalContent := originalContent st3; stateTimeout := stateTimeout st3;
     isSubmitting := isSubmitting st3; banners := banners st3;
     next_banner := next_banner st3; resets := resets st3;
     dispatched := dispatched st3; now := now st3; timers := timers st3;
     next_timer := next_timer st3; state_log := state :: state_log st3;
     sim_calls := sim_calls st3 |}.

(** [isLoading()] *)
Definition isLoading (st : State) : bool :=
  match currentState st with LOADING => true | _ => false end.

(** [new ButtonStateManager(button)] followed by
    [new FormSubmissionManager(form, buttonManager)] on a freshly loaded
    page. *)
Definition construct (b : Button) : State :=
  let original := innerHTML b in
  let b1 :=
    {| cls_morphing := true;           (* [init]: classList.add('btn-morphing') *)
       cls_idle := cls_idle b; cls_loading := cls_loading b;
       cls_success := cls_success b; cls_error := cls_error b;
       disabled := disabled b; aria_busy := aria_busy b;
       aria_live := aria_live b; innerHTML := innerHTML b;
       data_original_content :=
         match data_original_content b with
         | Some c => Some c
         | None => Some original
         end |} in
  setState IDLE no_options
    {| button := b1; currentState := IDLE; originalContent := original;
       stateTimeout := None; isSubmitting := false; banners := [];
       next_banner := 0%nat; resets := 0%nat; dispatched := []; now := 0;
       timers := ∅; next_timer := 1%nat; state_log := []; sim_calls := 0%nat |}.

(** *** FormSubmissionManager *)

Definition set_form (bs : list (nat * string)) (nb : nat) (rs : nat)
    (ds : list string) (st : State) : State :=
  {| button := button st; currentState := currentState st;
     originalContent := originalContent st; stateTimeout := stateTimeout st;
     isSubmitting := isSubmitting st; banners := bs; next_banner := nb;
     resets := rs; dispatched := ds; now := now st; timers := timers st;
     next_timer := next_timer st; state_log := state_log st;
     sim_calls := sim_calls st |}.

(** [showFormError(message)]: the topmost banner is replaced by a new one
    at the top, which a timer removes again. *)
Definition showFormError (msg : string) (st : State) : State :=
  let k := next_banner st in
  let st1 :=
    set_form ((k, msg) :: tail (banners st)) (S k) (resets st)
      (dispatched st) st in
  (setTimeout (RemoveBanner k) ERROR_DISPLAY_DURATION st1).2.

(** [clearFormErrors()] *)
Definition clearFormErrors (st : State) : State :=
  set_form [] (next_banner st) (resets st) (dispatched st) st.

Definition dispatchEvent (name : string) (st : State) : State :=
  set_form (banners st) (next_banner st) (resets st) (name :: dispatched st) st.

Definition handleSuccess (st : State) : State :=
  let st1 :=
    setState SUCCESS
      {| text := Some "Message Sent!";
         duration := Some SUCCESS_DISPLAY_DURATION |} st in
  let st2 := (setTimeout FormReset SUCCESS_DISPLAY_DURATION st1).2 in
  dispatchEvent "formSubmitSuccess" st2.

(** [handleError(error)]; [msg] is [error?.message || 'Submission failed']. *)
Definition handleError (msg : string) (st : State) : State :=
  let st1 :=
    setState ERROR
      {| text := Some "Failed - Try Again";
         duration := Some ERROR_DISPLAY_DURATION |} st in
  let st2 := showFormError msg st1 in
  dispatchEvent "formSubmitError" st2.

(** [simulateSubmission(data)]: counts the call and arms its timer with the
    delay [1000 + Math.random() * 2000]; [jitter] is the random part. *)
Definition simulateSubmission (startTime jitter : N) (st : State) : State :=
  let st1 :=
    {| button := button st; currentState := currentState st;
       originalContent := originalContent st; stateTimeout := stateTimeout st;
       isSubmitting := isSubmitting st; banners := banners st;
       next_banner := next_banner st; resets := resets st;
       dispatched := dispatched st; now := now st; timers := timers st;
       next_timer := next_timer st; state_log := state_log st;
       sim_calls := S (sim_calls st) |} in
  (setTimeout (SimSettle startTime) (1000 + jitter) st1).2.

(** [handleSubmit(event)], up to the first [await]. *)
Definition handleSubmit (jitter : N) (st : State) : State :=
  if isSubmitting st || isLoading st then st
  else
    let st1 := set_isSubmitting true st in
    let st2 := setState LOADING {| text := Some "Sending..."; duration := None |} st1 in
    simulateSubmission (now st2) jitter st2.

(** [handleSubmit] after [await this.simulateSubmission(data)]: [resolved]
    is the outcome of [Math.random() > 0.15] in the settling timer. *)
Definition submission_settled (startTime : N) (resolved : bool) (st : State)
  : State :=
  if resolved then
    let elapsed := now st - startTime in
    if elapsed <? LOADING_MIN_DURATION then
      (setTimeout MinDelayDone (LOADING_MIN_DURATION - elapsed) st).2
    else
      set_isSubmitting false (handleSuccess st)
  else
    set_isSubmitting false
      (handleError "Network error: Unable to reach server" st).

Definition run_callback (cb : Callback) (rnd : bool) (st : State) : State :=
  match cb with
  | ToIdle => setState IDLE no_options st
  | SimSettle startTime => submission_settled startTime rnd st
  | MinDelayDone => set_isSubmitting false (handleSuccess st)
  | FormReset =>
      clearFormErrors
        (set_form (banners st) (next_banner st) (S (resets st))
           (dispatched st) st)
  | RemoveBanner k =>
      set_form (filter (fun b : nat * string => b.1 <> k) (banners st))
        (next_banner st) (resets st) (dispatched st) st
  end.

Inductive Event :=
| Submit (jitter : N)             (* a submit event reaches the form *)
| Fire (id : nat) (rnd : bool)    (* timer [id] runs; [rnd] is the draw *)
| Elapse (dt : N).                (* time passes *)

(** One turn of the event loop; [None] when the event cannot occur: the
    timer is not pending or not yet due, or the jitter is not below 2000. *)
Definition step (st : State) (e : Event) : option State :=
  match e with
  | Submit jitter =>
      if jitter <? 2000 then Some (handleSubmit jitter st) else None
  | Fire id rnd =>
      match timers st !! id with
      | Some t =>
          if due t <=? now st
          then Some (run_callback (callback t) rnd (clearTimeout id st))
          else None
      | None => None
      end
  | Elapse dt =>
      Some {| button := button st; currentState := currentState st;
              originalContent := originalContent st;
              stateTimeout := stateTimeout st;
              isSubmitting := isSubmitting st; banners := banners st;
              next_banner := next_banner st; resets := resets st;
              dispatched := dispatched st; now := now st + dt;
              timers := timers st; next_timer := next_timer st;
              state_log := state_log st; sim_calls := sim_calls st |}
  end.

Fixpoint run (st : State) (es : list Event) : option State :=
  match es with
  | [] => Some st
  | e :: rest =>
      match step st e with
      | Some st' => run st' rest
      | None => None
      end
  end.

(** *** The button's transition diagrams *)

(** The diagram of the specification. *)
Definition spec_edge (a b : ButtonState) : bool :=
  match a, b with
  | IDLE, LOADING | LOADING, SUCCESS | LOADING, ERROR
  | SUCCESS, IDLE | ERROR, IDLE => true
  | _, _ => false
  end.

(** The diagram of the code: a submit is also accepted while the error or
    the success state is on display. *)
Definition code_edge (a b : ButtonState) : bool :=
  spec_edge a b
  || match a, b with
     | ERROR, LOADING | SUCCESS, LOADING => true
     | _, _ => false
     end.

(** A log, latest state first, whose consecutive entries follow [edge]. *)
Fixpoint follows (edge : ButtonState -> ButtonState -> bool)
    (log : list ButtonState) : bool :=
  match log with
  | b :: (a :: _) as rest => edge a b && follows edge rest
  | _ => true
  end.

(** A timer that carries an in-flight submission. *)
Definition is_flight (cb : Callback) : bool :=
  match cb with SimSettle _ | MinDelayDone => true | _ => false end.

(** The timers left after [setState] has cancelled the pending
    state-display timer. *)
Definition pending_after_clear (st : State) : gmap nat Timer :=
  match stateTimeout st with
  | Some (S _ as id) => delete id (timers st)
  | _ => timers st
  end.

(** What holds of the two managers between any two events. *)
Record Inv (st : State) : Prop := {
  (* timer handles are positive and below the next handle *)
  inv_next : (1 <= next_timer st)%nat;
  inv_ids : forall id t,
    timers st !! id = Some t -> (1 <= id < next_timer st)%nat;
  inv_handle : forall id,
    stateTimeout st = Some id -> (1 <= id < next_timer st)%nat;
  inv_handle_display : forall id t,
    stateTimeout st = Some id -> timers st !! id = Some t ->
    callback t = ToIdle;
  (* a submission is in flight only while loading, and only one *)
  inv_flight : forall id t,
    timers st !! id = Some t -> is_flight (callback t) = true ->
    currentState st = LOADING
    /\ forall id' t', timers st !! id' = Some t' ->
         is_flight (callback t') = true -> id' = id;
  inv_loading : currentState st = LOADING ->
    exists id t, timers st !! id = Some t /\ is_flight (callback t) = true;
  (* the only pending state-display timer is the recorded one, and it
     belongs to the success or error state on display *)
  inv_display : forall id t,
    timers st !! id = Some t -> callback t = ToIdle ->
    stateTimeout st = Some id
    /\ (currentState st = SUCCESS \/ currentState st = ERROR);
  (* the in-progress flag is set exactly while loading *)
  inv_submitting : isSubmitting st = isLoading st;
  (* the logged states follow the diagram and end in the current state *)
  inv_log : follows code_edge (state_log st) = true;
  inv_head : head (state_log st) = Some (currentState st);
}.

(** What the idle state shows on a button: its [data-original-content]
    attribute when present and not empty, else the content [captured] by
    the constructor. *)
Definition idle_content (b : Button) (captured : Content) : Content :=
  match data_original_content b with
  | Some c => if content_falsy c then captured else c
  | None => captured
  end.

(** The parts of the manager no handler changes after construction. *)
Definition static (st : State) : option Content * bool * Content :=
  (data_original_content (button st), cls_morphing (button st),
   originalContent st).

(** A plain submit control of the page. *)
Definition plain_button : Button :=
  {| cls_morphing := false; cls_idle := false; cls_loading := false;
     cls_success := false; cls_error := false; disabled := false;
     aria_busy := None; aria_live := None;
     innerHTML := Markup "Send Message"; data_original_content := None |}.

(** Case analysis on the recorded timer handle and the target state,
    then evaluation: settles the equations on what [setState] changes. *)
Ltac setState_cases st state :=
  destruct st as [? ? ? [[|?]|] ? ? ? ? ? ? ? ? ? ?]; destruct state;
  vm_compute; reflexivity.

(** A submit control whose markup already carries the
    [data-original-content] attribute, with a value other than its inner
    content. *)
Definition preset_button : Button :=
  {| cls_morphing := false; cls_idle := false; cls_loading := false;
     cls_success := false; cls_error := false; disabled := false;
     aria_busy := None; aria_live := None;
     innerHTML := Markup "Submit";
     data_original_content := Some (Markup "Send") |}.

(** A failed submission followed, while the error is on display, by a
    click on the re-enabled button. *)
Definition retry_trace : list Event :=
  [Submit 0; Elapse 1000; Fire 1 false; Elapse 500; Submit 0].

End Interactions.

(* ===================================================================== *)
(** ** [js/animations.js]: reveal animations *)
(* ===================================================================== *)

Module Animations.

(** [CONFIG.STAGGER_DELAY] *)
Definition STAGGER_DELAY : N := 150.

(** An element of the document, by what the script reads and writes of it:
    its class list and its [data-animation-delay] attribute, which only the
    script writes, as the decimal numeral of a delay. *)
Record Element := {
  classes : list string;
  delay_attr : option N;
}.

Definition has_class (c : string) (e : Element) : bool :=
  bool_decide (c ∈ classes e).

(** [element.classList.add(c)] *)
Definition add_class (c : string) (e : Element) : Element :=
  if has_class c e then e
  else {| classes := classes e ++ [c]; delay_attr := delay_attr e |}.

(** A pending reveal: the closure holds the element and the observer. *)
Record Timer := { due : N; target : nat; observer : nat }.

(** Elements are named by their position in the document. *)
Record State := {
  elements : list Element;
  no_animations : bool;              (* [body] has [data-no-animations] *)
  reduced_motion : bool;             (* the media query matches *)
  (* [animationState] *)
  observers : list nat;
  animatedElements : gset nat;
  isInitialized : bool;
  (* the browser: every IntersectionObserver created so far with the
     targets it observes, the clock and the pending timers *)
  observed : gmap nat (gset nat);
  next_observer : nat;
  now : N;
  timers : gmap nat Timer;
  next_timer : nat;
}.

Definition shouldDisableAnimations (st : State) : bool :=
  no_animations st || reduced_motion st.

(** [document.querySelectorAll('.' + c)], as positions from [i] on. *)
Fixpoint query_from (c : string) (i : nat) (els : list Element) : list nat :=
  match els with
  | [] => []
  | e :: rest =>
      if has_class c e then i :: query_from c (S i) rest
      else query_from c (S i) rest
  end.

Definition querySelectorAll (c : string) (els : list Element) : list nat :=
  query_from c 0 els.

(** [document.querySelector('.' + c)] *)
Definition querySelector (c : string) (els : list Element) : option nat :=
  head (querySelectorAll c els).

(** [prepareElement(element, animationClass, index)] *)
Definition prepareElement (i : nat) (animationClass : string) (index : nat)
    (els : list Element) : list Element :=
  alter (fun e =>
           {| classes := classes (add_class animationClass e);
              delay_attr := Some (N.of_nat index * STAGGER_DELAY) |})
        i els.

(** [prepareElements(elements, animationClass)]: the [forEach] with its
    running index. *)
Fixpoint prepare_from (index : nat) (targets : list nat)
    (animationClass : string) (els : list Element) : list Element :=
  match targets with
  | [] => els
  | t :: rest =>
      prepare_from (S index) rest animationClass
        (prepareElement t animationClass index els)
  end.

Definition prepareElements (targets : list nat) (animationClass : string)
    (els : list Element) : list Element :=
  prepare_from 0 targets animationClass els.

(** [createObserver(handleIntersection)] and then [observer.observe] on
    each of [targets], after the elements have been prepared as [els]. *)
Definition watch (els : list Element) (targets : list nat) (st : State)
  : State :=
  {| elements := els;
     no_animations := no_animations st; reduced_motion := reduced_motion st;
     observers := observers st ++ [next_observer st];
     animatedElements := animatedElements st;
     isInitialized := isInitialized st;
     observed := <[next_observer st := list_to_set targets]> (observed st);
     next_observer := S (next_observer st);
     now := now st; timers := timers st; next_timer := next_timer st |}.

(** The body shared by the five group initialisers. *)
Definition init_group (selector animationClass : string) (st : State) : State :=
  match querySelectorAll selector (elements st) with
  | [] => st
  | targets =>
      watch (prepareElements targets animationClass (elements st)) targets st
  end.

(** The body shared by the single-element initialisers. *)
Definition init_single (selector animationClass : string) (index : nat)
    (st : State) : State :=
  match querySelector selector (elements st) with
  | None => st
  | Some t => watch (prepareElement t animationClass index (elements st)) [t] st
  end.

Definition initCourseCardAnimations := init_group "course-card" "reveal".
Definition initTestimonialAnimations := init_group "testimonial-card" "reveal-scale".
Definition initStatAnimations := init_group "stat-item" "reveal".
Definition initTrustBadgeAnimations := init_group "trust-badge" "reveal".
Definition initSectionHeaderAnimations := init_group "section-header" "reveal".
Definition initAboutSectionAnimations (st : State) : State :=
  init_single "about-features" "reveal-right" 1
    (init_single "about-text" "reveal-left" 0 st).
Definition initContactSectionAnimations :=
  init_single "contact-info" "reveal-right" 0.

Definition set_initialized (v : bool) (st : State) : State :=
  {| elements := elements st;
     no_animations := no_animations st; reduced_motion := reduced_motion st;
     observers := observers st; animatedElements := animatedElements st;
     isInitialized := v; observed := observed st;
     next_observer := next_observer st;
     now := now st; timers := timers st; next_timer := next_timer st |}.

(** [init()] *)
Definition init (st : State) : State :=
  if isInitialized st then st
  else if shouldDisableAnimations st then st
  else
    set_initialized true
      (initContactSectionAnimations
         (initAboutSectionAnimations
            (initSectionHeaderAnimations
               (initTrustBadgeAnimations
                  (initStatAnimations
                     (initTestimonialAnimations
                        (initCourseCardAnimations st))))))).

(** [cleanup()]: every observer of [animationState.observers] is
    disconnected and the list is emptied. *)
Definition cleanup (st : State) : State :=
  {| elements := elements st;
     no_animations := no_animations st; reduced_motion := reduced_motion st;
     observers := [];
     animatedElements := animatedElements st;
     isInitialized := false;
     observed := foldr (fun o m => alter (fun _ => ∅) o m) (observed st)
                   (observers st);
     next_observer := next_observer st;
     now := now st; timers := timers st; next_timer := next_timer st |}.

(** [handleMotionPreferenceChange()] *)
Definition handleMotionPreferenceChange (st : State) : State :=
  if shouldDisableAnimations st && isInitialized st then cleanup st
  else if negb (shouldDisableAnimations st) && negb (isInitialized st)
  then init st
  else st.

(** [parseInt(element.getAttribute('data-animation-delay') || '0', 10)] *)
Definition delay_of (t : nat) (st : State) : N :=
  match elements st !! t with
  | Some e => default 0 (delay_attr e)
  | None => 0
  end.

Definition isAnimated (t : nat) (st : State) : bool :=
  bool_decide (t ∈ animatedElements st).

(** One entry of [handleIntersection(entries, observer)]. *)
Definition handle_entry (o : nat) (entry : nat * bool) (st : State) : State :=
  let '(t, isIntersecting) := entry in
  if isIntersecting && negb (isAnimated t st) then
    {| elements := elements st;
       no_animations := no_animations st; reduced_motion := reduced_motion st;
       observers := observers st; animatedElements := animatedElements st;
       isInitialized := isInitialized st; observed := observed st;
       next_observer := next_observer st; now := now st;
       timers := <[next_timer st :=
                     {| due := now st + delay_of t st; target := t;
                        observer := o |}]> (timers st);
       next_timer := S (next_timer st) |}
  else st.

Definition handleIntersection (o : nat) (entries : list (nat * bool))
    (st : State) : State :=
  foldl (fun s entry => handle_entry o entry s) st entries.

(** The timer's callback: [animateElement], [markAsAnimated],
    [observer.unobserve]. *)
Definition reveal (t o : nat) (st : State) : State :=
  {| elements := alter (add_class "active") t (elements st);
     no_animations := no_animations st; reduced_motion := reduced_motion st;
     observers := observers st;
     animatedElements := {[t]} ∪ animatedElements st;
     isInitialized := isInitialized st;
     observed := alter (fun s => s ∖ {[t]}) o (observed st);
     next_observer := next_observer st;
     now := now st; timers := timers st; next_timer := next_timer st |}.

Inductive Event :=
| DomReady                               (* the document is ready: [init] *)
| PreferenceChange (reduce : bool)       (* the media query changes *)
| Intersect (o : nat) (entries : list (nat * bool))
                                         (* observer [o] reports entries *)
| Fire (id : nat)                        (* timer [id] runs *)
| Elapse (dt : N)                        (* time passes *)
| Unload.                                (* [beforeunload]: [cleanup] *)

(** Observer [o] reports only on targets it observes. *)
Definition observes (o : nat) (t : nat) (st : State) : bool :=
  match observed st !! o with
  | Some ts => bool_decide (t ∈ ts)
  | None => false
  end.

Definition set_clock (t : N) (ts : gmap nat Timer) (st : State) : State :=
  {| elements := elements st;
     no_animations := no_animations st; reduced_motion := reduced_motion st;
     observers := observers st; animatedElements := animatedElements st;
     isInitialized := isInitialized st; observed := observed st;
     next_observer := next_observer st;
     now := t; timers := ts; next_timer := next_timer st |}.

Definition set_reduced_motion (r : bool) (st : State) : State :=
  {| elements := elements st;
     no_animations := no_animations st; reduced_motion := r;
     observers := observers st; animatedElements := animatedElements st;
     isInitialized := isInitialized st; observed := observed st;
     next_observer := next_observer st;
     now := now st; timers := timers st; next_timer := next_timer st |}.

(** One turn of the event loop; [None] when the event cannot occur. *)
Definition step (st : State) (e : Event) : option State :=
  match e with
  | DomReady => Some (init st)
  | PreferenceChange r =>
      Some (handleMotionPreferenceChange (set_reduced_motion r st))
  | Intersect o entries =>
      if forallb (fun entry : nat * bool => observes o entry.1 st) entries
         && negb (bool_decide (entries = []))
      then Some (handleIntersection o entries st)
      else None
  | Fire id =>
      match timers st !! id with
      | Some t =>
          if due t <=? now st
          then Some (reveal (target t) (observer t)
                       (set_clock (now st) (delete id (timers st)) st))
          else None
      | None => None
      end
  | Elapse dt => Some (set_clock (now st + dt) (timers st) st)
  | Unload => Some (cleanup st)
  end.

Fixpoint run (st : State) (es : list Event) : option State :=
  match es with
  | [] => Some st
  | e :: rest =>
      match step st e with
      | Some st' => run st' rest
      | None => None
      end
  end.

(** The page once the script has been evaluated, before the document is
    ready. *)
Definition script_loaded (els : list Element) (marker reduced : bool) : State :=
  {| elements := els; no_animations := marker; reduced_motion := reduced;
     observers := []; animatedElements := ∅; isInitialized := false;
     observed := ∅; next_observer := 0%nat; now := 0; timers := ∅;
     next_timer := 1%nat |}.

(** An event that does not switch the preference off. *)
Definition keeps_preference (e : Event) : bool :=
  match e with PreferenceChange r => r | _ => true end.

(** The opt-out signal stays active along a run: the page-level marker is
    present, or the preference is set and no change switches it off. *)
Definition signal_stays_active (marker reduced : bool) (es : list Event) : bool :=
  marker || (reduced && forallb keeps_preference es).

(** The module is idle: not initialised, no observer, no timer. *)
Definition idle (st : State) : Prop :=
  isInitialized st = false /\ observers st = [] /\ observed st = ∅
  /\ timers st = ∅.

(** The cards once [init] has prepared them, and once the first has been
    revealed. *)
Definition two_cards_prepared : list Element :=
  [{| classes := ["course-card"; "reveal"]; delay_attr := Some 0 |};
   {| classes := ["course-card"; "reveal"]; delay_attr := Some 150 |}].

Definition two_cards_first_revealed : list Element :=
  [{| classes := ["course-card"; "reveal"; "active"]; delay_attr := Some 0 |};
   {| classes := ["course-card"; "reveal"]; delay_attr := Some 150 |}].

(** Two course cards. *)
Definition two_cards : list Element :=
  [{| classes := ["course-card"]; delay_attr := None |};
   {| classes := ["course-card"]; delay_attr := None |}].

End Animations.

(* ===================================================================== *)
(** ** The main script: the form's blur and input listeners *)
(* ===================================================================== *)

Module MainFormEvents.
Import JsString MainForm.

Definition with_value (f : Field) (v : jsstring) : Field :=
  with_input f (f_name f) v.

Definition set_fields (fs : list Field) (errs : FieldErrors) (fm : Form) : Form :=
  {| fields := fs; field_errors := errs; form_errors := form_errors fm |}.

(** The blur listener of [initFormValidation] on control [i]:
    [validateField(input)].  Nothing catches an exception of the
    listener, and nothing has changed when it is thrown. *)
Definition on_blur (i : nat) (fm : Form) : Form :=
  match fields fm !! i with
  | Some f =>
      match validateField f (field_errors fm) with
      | (Returned _, (f', errs)) => set_fields (<[i := f']> (fields fm)) errs fm
      | (Threw, _) => fm
      end
  | None => fm
  end.

(** The user changes the value of control [i] to [v]; the input listener
    then runs [clearFieldError(input)]. *)
Definition on_input (i : nat) (v : jsstring) (fm : Form) : Form :=
  match fields fm !! i with
  | Some f =>
      let '(f', errs) := clearFieldError (with_value f v) (field_errors fm) in
      set_fields (<[i := f']> (fields fm)) errs fm
  | None => fm
  end.

(** Everything that can happen to the form: the events of the submission
    and the two listeners every control carries. *)
Inductive FormEvent :=
| Page (e : Event)
| Blur (i : nat)
| Input (i : nat) (v : jsstring).

Section Browser.

Context `{HtmlText}.

Definition form_step (st : State) (e : FormEvent) : option State :=
  match e with
  | Page e' => step st e'
  | Blur i => Some (with_form (on_blur i (form st)) st)
  | Input i v => Some (with_form (on_input i v (form st)) st)
  end.

Fixpoint form_run (st : State) (es : list FormEvent) : option State :=
  match es with
  | [] => Some st
  | e :: rest =>
      match form_step st e with
      | Some st' => form_run st' rest
      | None => None
      end
  end.

(** [setButtonState] applied for each state of a list in turn. *)
Definition set_states (ss : list ButtonState) (b : option Button)
  : option Button :=
  foldl setButtonState b ss.

End Browser.

(** The number of [.field-error] elements inside form group [g]. *)
Definition errors_in (g : nat) (errs : list (nat * string)) : nat :=
  length (filter (fun e : nat * string => e.1 = g) errs).

(** No form group holds more than one error element. *)
Definition tidy (errs : FieldErrors) : Prop :=
  forall g, (errors_in g errs <= 1)%nat.

(** A control passes [validateField]. *)
Definition field_ok (f : Field) : bool := accepted (validateField f []).1.

(** [validateField] throws on the control. *)
Definition field_throws (f : Field) : bool :=
  match (validateField f []).1 with Threw => true | Returned _ => false end.

(** The control as [validateField] leaves it. *)
Definition validated (f : Field) : Field := (validateField f []).2.1.

(** What [validateForm] does to one control: it validates the inputs and
    textareas that carry [required] and passes the others by. *)
Definition validate_one (f : Field) : Field :=
  if is_required_input f then validated f else f.

(** How many controls the [forEach] of [validateForm] gets through: all
    of them, or those before the first required control on which
    [validateField] throws. *)
Fixpoint reached (fs : list Field) : nat :=
  match fs with
  | [] => 0
  | f :: rest =>
      if is_required_input f && field_throws f then 0%nat
      else S (reached rest)
  end.

(** A button whose [data-original-text] attribute differs from its
    text. *)
Definition preset_send_button : Button :=
  {| b_loading := false; b_success := false; b_error := false;
     b_disabled := false; b_content := PageText "Submit";
     b_original_text := Some "Send" |}.

(** A successful submission from start to finish: submit, the simulated
    call resolves after its 2000 ms, the success display ends after
    3000 ms. *)
Definition success_trace : list Event :=
  [Submit; Elapse 2000; Fire 1 true; Elapse 3000; Fire 2 true].

End MainFormEvents.

(* ===================================================================== *)
(** ** The main script: stagger ranks, the mobile menu *)
(* ===================================================================== *)

Module MainPage.

(** The number of animated elements before position [i]: the index the
    [forEach] of [initScrollAnimations] passes for the element at [i]. *)
Definition rank (els : list MainAnim.Element) (i : nat) : nat :=
  length (filter (fun e => MainAnim.is_animated_element e = true) (take i els)).

(** The hidden initial state given to the matched element of index [k]. *)
Definition hidden (e : MainAnim.Element) (k : nat) : MainAnim.Element :=
  {| MainAnim.classes := MainAnim.classes e;
     MainAnim.opacity := Some "0";
     MainAnim.transform := Some "translateY(20px)";
     MainAnim.transition := Some "opacity 0.6s ease, transform 0.6s ease";
     MainAnim.delay_attr := Some (N.of_nat k * MainAnim.ANIMATION_STAGGER);
     MainAnim.el_observer := MainAnim.el_observer e |}.

(** The mobile menu: the [aria-expanded] attribute of the [.menu-toggle]
    element and the class list of the [.nav-menu] element. *)
Record Menu := {
  aria_expanded : option string;
  nav_classes : list string;
}.

(** [classList.toggle(c)] *)
Definition toggle_class (c : string) (cs : list string) : list string :=
  if bool_decide (c ∈ cs) then filter (fun d => d <> c) cs else cs ++ [c].

(** The click listener [initMobileMenu] attaches to the toggle. *)
Definition menu_click (m : Menu) : Menu :=
  let isExpanded := bool_decide (aria_expanded m = Some "true") in
  {| aria_expanded := Some (if negb isExpanded then "true" else "false");
     nav_classes := toggle_class "active" (nav_classes m) |}.

(** [initMobileMenu()]: the listener is attached only when both elements
    exist; the result is the menu that clicks then act on. *)
Definition initMobileMenu (menuToggle : option (option string))
    (navMenu : option (list string)) : option Menu :=
  match menuToggle, navMenu with
  | Some a, Some cs => Some {| aria_expanded := a; nav_classes := cs |}
  | _, _ => None
  end.

(** [n] clicks on the toggle. *)
Fixpoint clicks (n : nat) (m : Menu) : Menu :=
  match n with
  | O => m
  | S k => clicks k (menu_click m)
  end.

Definition expanded (m : Menu) : bool :=
  bool_decide (aria_expanded m = Some "true").
Definition menu_open (m : Menu) : bool :=
  bool_decide ("active" ∈ nav_classes m).

End MainPage.

(* ===================================================================== *)
(** ** [debounce], as both the main script and [js/animations.js] define it *)
(* ===================================================================== *)

Module Debounce.

Section Debounced.

(** The arguments of a call, and the [wait] the wrapper was made with. *)
Context {A : Type}.
Variable wait : N.

(** The closure variable [timeout], the browser's clock and timers (each
    [later] closure holds the arguments of its call), and as observations
    the calls made and the invocations of [func], latest first, each with
    its time. *)
Record State := {
  timeout : option nat;
  now : N;
  timers : gmap nat (N * A);
  next_timer : nat;
  calls : list (N * A);
  invoked : list (N * A);
}.

(** [clearTimeout(timeout)]; an undefined handle clears nothing. *)
Definition cleared (st : State) : gmap nat (N * A) :=
  match timeout st with
  | Some id => delete id (timers st)
  | None => timers st
  end.

(** [executedFunction(...args)] *)
Definition executedFunction (args : A) (st : State) : State :=
  {| timeout := Some (next_timer st);
     now := now st;
     timers := <[next_timer st := (now st + wait, args)]> (cleared st);
     next_timer := S (next_timer st);
     calls := (now st, args) :: calls st;
     invoked := invoked st |}.

(** [later]: [clearTimeout(timeout); func(...args)], run by timer [id]. *)
Definition later (id : nat) (args : A) (st : State) : State :=
  let st1 :=
    {| timeout := timeout st; now := now st;
       timers := delete id (timers st); next_timer := next_timer st;
       calls := calls st; invoked := invoked st |} in
  {| timeout := timeout st1; now := now st1; timers := cleared st1;
     next_timer := next_timer st1; calls := calls st1;
     invoked := (now st1, args) :: invoked st1 |}.

Inductive Event :=
| Call (args : A)     (* the debounced function is called *)
| Fire (id : nat)     (* timer [id] runs *)
| Elapse (dt : N).    (* time passes *)

Definition step (st : State) (e : Event) : option State :=
  match e with
  | Call args => Some (executedFunction args st)
  | Fire id =>
      match timers st !! id with
      | Some (due, args) =>
          if due <=? now st then Some (later id args st) else None
      | None => None
      end
  | Elapse dt =>
      Some {| timeout := timeout st; now := now st + dt;
              timers := timers st; next_timer := next_timer st;
              calls := calls st; invoked := invoked st |}
  end.

Fixpoint run (st : State) (es : list Event) : option State :=
  match es with
  | [] => Some st
  | e :: rest =>
      match step st e with
      | Some st' => run st' rest
      | None => None
      end
  end.

(** [debounce(func, wait)]: the wrapper just made. *)
Definition fresh : State :=
  {| timeout := None; now := 0; timers := ∅; next_timer := 1%nat;
     calls := []; invoked := [] |}.

(** What holds between any two events: timer handles are below the next
    one; a pending timer is the recorded one and belongs to the latest
    call, due [wait] after it; an invocation never precedes its call by
    less than [wait], and never outnumbers the calls. *)
Record Inv (st : State) : Prop := {
  inv_fresh : forall id t, timers st !! id = Some t -> (id < next_timer st)%nat;
  inv_handle : forall id, timeout st = Some id -> (id < next_timer st)%nat;
  inv_pending : forall id due args,
    timers st !! id = Some (due, args) ->
    timeout st = Some id
    /\ exists t, head (calls st) = Some (t, args) /\ due = t + wait
                 /\ t <= now st;
  inv_count : (length (invoked st) + size (timers st) <= length (calls st))%nat;
}.

(** A burst: calls of the debounced function, each followed by the time
    that passes before the next event; and the time a burst spans. *)
Definition burst (l : list (A * N)) : list Event :=
  flat_map (fun c => [Call c.1; Elapse c.2]) l.

Definition span (l : list (A * N)) : N :=
  foldr (fun c acc => c.2 + acc) 0 l.

(** No timer is due. *)
Definition quiet (st : State) : Prop :=
  forall id, step st (Fire id) = None.

End Debounced.

Arguments State : clear implicits.
Arguments Event : clear implicits.

End Debounce.

(* ===================================================================== *)
(** ** [js/interactions.js]: what the page shows, and [destroy] *)
(* ===================================================================== *)

Module InteractionsPage.
Import Interactions.

(** The button as [setState(s)] leaves it with the texts the handlers
    pass: the class of [s] alone among the state classes, and the flags,
    attributes and content that [setIdleState], [setLoadingState],
    [setSuccessState] and [setErrorState] write. *)
Definition appearance (s : ButtonState) (b : Button) (captured : Content)
  : Button :=
  {| cls_morphing := cls_morphing b;
     cls_idle := match s with IDLE => true | _ => false end;
     cls_loading := match s with LOADING => true | _ => false end;
     cls_success := match s with SUCCESS => true | _ => false end;
     cls_error := match s with ERROR => true | _ => false end;
     disabled := match s with LOADING | SUCCESS => true | _ => false end;
     aria_busy := Some (match s with LOADING => "true" | _ => "false" end);
     aria_live :=
       Some (match s with
             | IDLE => "off" | ERROR => "assertive" | _ => "polite"
             end);
     innerHTML :=
       match s with
       | IDLE => idle_content b captured
       | LOADING => LoadingContent "Sending..."
       | SUCCESS => SuccessContent "Message Sent!"
       | ERROR => ErrorContent "Failed - Try Again"
       end;
     data_original_content := data_original_content b |}.

(** [ButtonStateManager.destroy()] *)
Definition destroy (st : State) : State :=
  let st1 :=
    match stateTimeout st with
    | Some (S _ as id) => clearTimeout id st
    | _ => st
    end in
  let st2 := setState IDLE no_options st1 in
  let b := button st2 in
  set_button
    {| cls_morphing := false;          (* classList.remove('btn-morphing') *)
       cls_idle := cls_idle b; cls_loading := cls_loading b;
       cls_success := cls_success b; cls_error := cls_error b;
       disabled := disabled b; aria_busy := aria_busy b;
       aria_live := aria_live b; innerHTML := innerHTML b;
       data_original_content := data_original_content b |} st2.

(** A timer whose callback leaves the button alone. *)
Definition is_housekeeping (cb : Callback) : bool :=
  match cb with FormReset | RemoveBanner _ => true | _ => false end.

(** What holds of the page between any two events, beside [Inv]. *)
Record Shown (st : State) : Prop := {
  (* the button looks as its state says *)
  sh_button :
    button st = appearance (currentState st) (button st) (originalContent st);
  (* every simulated call has been answered by one event, but the one in
     flight *)
  sh_answered :
    sim_calls st
    = (length (dispatched st) + (if isLoading st then 1 else 0))%nat;
  (* at most one banner, whose removal is pending *)
  sh_one_banner : (length (banners st) <= 1)%nat;
  sh_banner_timer : forall k msg,
    (k, msg) ∈ banners st ->
    exists id t, timers st !! id = Some t /\ callback t = RemoveBanner k;
  (* the success or error state on display has its way back pending *)
  sh_display : currentState st = SUCCESS \/ currentState st = ERROR ->
    exists id t, stateTimeout st = Some id /\ timers st !! id = Some t
                 /\ callback t = ToIdle;
  (* no timer is further away than the longest delay *)
  sh_timely : forall id t, timers st !! id = Some t -> due t <= now st + 3000;
}.

(** The simulated call takes at least the minimum loading time, and no
    timer of [delay] is pending. *)
Definition paced (t : Timer) : Prop :=
  match callback t with
  | SimSettle startTime => startTime + LOADING_MIN_DURATION <= due t
  | MinDelayDone => False
  | _ => True
  end.

(** A run to the error state with its banner. *)
Definition failure_trace : list Event := [Submit 0; Elapse 1000; Fire 1 false].

End InteractionsPage.

(* ===================================================================== *)
(** ** [js/animations.js]: stagger indices, class lists, observers *)
(* ===================================================================== *)

Module AnimationsPage.
Import Animations.

(** The number of elements with class [c] before position [i]: the index
    the [forEach] of [prepareElements] passes for the element at [i]. *)
Definition group_index (c : string) (els : list Element) (i : nat) : nat :=
  length (filter (fun e => has_class c e = true) (take i els)).

(** The element as [prepareElement(element, animationClass, index)] leaves
    it. *)
Definition prepared (animationClass : string) (index : nat) (e : Element)
  : Element :=
  {| classes := classes (add_class animationClass e);
     delay_attr := Some (N.of_nat index * STAGGER_DELAY) |}.

(** Every element of [els] is still there in [els'], with every class it
    had. *)
Definition grows (els els' : list Element) : Prop :=
  length els' = length els
  /\ forall i e, els !! i = Some e ->
       exists e', els' !! i = Some e' /\ classes e ⊆ classes e'.

(** What holds of the observers between any two events: none is
    registered while the module is not initialised, never more than the
    eight that [init] creates, and an observer the module has dropped
    observes nothing. *)
Definition disconnected (st : State) : Prop :=
  forall o ts, observed st !! o = Some ts -> o ∉ observers st -> ts = ∅.

Record Connected (st : State) : Prop := {
  con_uninit : isInitialized st = false -> observers st = [];
  con_count : (length (observers st) <= 8)%nat;
  con_dropped : disconnected st;
}.

(** Two prepared cards, the first revealed and no longer observed. *)
Definition first_revealed : State :=
  {| elements := two_cards_first_revealed;
     no_animations := false; reduced_motion := false;
     observers := [0%nat]; animatedElements := {[0%nat]};
     isInitialized := true; observed := {[0%nat := {[1%nat]}]};
     next_observer := 1%nat; now := 0; timers := ∅; next_timer := 2%nat |}.

(** The preference flips twice after the cards have been prepared. *)
Definition flip_trace : list Event :=
  [DomReady; PreferenceChange true; PreferenceChange false].

End AnimationsPage.

(* ===================================================================== *)
(** * Properties *)
(* ===================================================================== *)

(* ===================================================================== *)
(** ** Facts about strings and patterns *)
(* ===================================================================== *)

Module JsStringFacts.
Import JsString.

Lemma trimStart_all_ws s :
  forallb is_white_space s = true -> trimStart s = [].
Proof.
  induction s as [|c s IH]; simpl; [reflexivity|].
  intros H. apply andb_true_iff in H as [Hc Hs]. rewrite Hc. auto.
Qed.

Lemma trimStart_nil_all_ws s :
  trimStart s = [] -> forallb is_white_space s = true.
Proof.
  induction s as [|c s IH]; simpl; [reflexivity|].
  destruct (is_white_space c); [auto | discriminate].
Qed.

Lemma forallb_rev {A} (p : A -> bool) (l : list A) :
  forallb p (rev l) = forallb p l.
Proof.
  induction l as [|a l IH]; simpl; [reflexivity|].
  rewrite forallb_app, IH. simpl. rewrite andb_true_r. apply andb_comm.
Qed.

(** [trimStart] returns a suffix. *)
Lemma trimStart_suffix s :
  exists p, s = p ++ trimStart s /\ forallb is_white_space p = true.
Proof.
  induction s as [|c s [p [Hp Hw]]]; simpl.
  - exists []. split; reflexivity.
  - destruct (is_white_space c) eqn:Hc.
    + exists (c :: p). simpl. rewrite Hc, Hw. split; [congruence | reflexivity].
    + exists []. split; reflexivity.
Qed.

Lemma trimStart_length s : (length (trimStart s) <= length s)%nat.
Proof.
  destruct (trimStart_suffix s) as [p [Hp _]].
  rewrite Hp at 2. rewrite length_app. lia.
Qed.

Lemma trimEnd_length s : (length (trimEnd s) <= length s)%nat.
Proof.
  unfold trimEnd. rewrite length_rev.
  etransitivity; [apply trimStart_length|]. rewrite length_rev. lia.
Qed.

(** Trimming never lengthens a string. *)
Lemma trim_length s : (length (trim s) <= length s)%nat.
Proof.
  unfold trim. etransitivity; [apply trimEnd_length | apply trimStart_length].
Qed.

(** A string trims to the empty string exactly when it consists of
    white space only. *)
Lemma trim_nil_iff s :
  trim s = [] <-> forallb is_white_space s = true.
Proof.
  unfold trim, trimEnd. split.
  - intros H.
    assert (Hr : trimStart (rev (trimStart s)) = []).
    { apply (f_equal (@rev N)) in H. rewrite rev_involutive in H. exact H. }
    apply trimStart_nil_all_ws in Hr. rewrite forallb_rev in Hr.
    destruct (trimStart_suffix s) as [p [Hp Hw]].
    rewrite Hp, forallb_app, Hw, Hr. reflexivity.
  - intros H. rewrite (trimStart_all_ws s H). reflexivity.
Qed.

Lemma trimStart_head_not_ws c s :
  is_white_space c = false -> trimStart (c :: s) = c :: s.
Proof. intros H. simpl. rewrite H. reflexivity. Qed.

Lemma trimStart_idem s : trimStart (trimStart s) = trimStart s.
Proof.
  induction s as [|c s IH]; simpl; [reflexivity|].
  destruct (is_white_space c) eqn:Hc; [exact IH|].
  simpl. rewrite Hc. reflexivity.
Qed.

(** [trimEnd] returns a prefix. *)
Lemma trimEnd_prefix s :
  exists q, s = trimEnd s ++ q /\ forallb is_white_space q = true.
Proof.
  unfold trimEnd.
  destruct (trimStart_suffix (rev s)) as [p [Hp Hw]].
  exists (rev p). split.
  - rewrite <- rev_app_distr, <- Hp, rev_involutive. reflexivity.
  - rewrite forallb_rev. exact Hw.
Qed.

Lemma trimStart_clean s : starts_clean (trimStart s) = true.
Proof.
  induction s as [|c s IH]; simpl; [reflexivity|].
  destruct (is_white_space c) eqn:Hc; [exact IH|].
  simpl. rewrite Hc. reflexivity.
Qed.

Lemma trimStart_fix s : starts_clean s = true -> trimStart s = s.
Proof.
  destruct s as [|c s]; simpl; [reflexivity|].
  destruct (is_white_space c); [discriminate | reflexivity].
Qed.

Lemma trimEnd_clean s : starts_clean s = true -> starts_clean (trimEnd s) = true.
Proof.
  intros H. destruct (trimEnd_prefix s) as [q [Hq _]].
  destruct (trimEnd s) as [|c t]; [reflexivity|].
  rewrite Hq in H. exact H.
Qed.

Lemma trimEnd_idem s : trimEnd (trimEnd s) = trimEnd s.
Proof.
  unfold trimEnd. rewrite rev_involutive, trimStart_idem. reflexivity.
Qed.

(** Trimming twice is trimming once. *)
Lemma trim_idem s : trim (trim s) = trim s.
Proof.
  unfold trim.
  rewrite (trimStart_fix (trimEnd (trimStart s))).
  - apply trimEnd_idem.
  - apply trimEnd_clean, trimStart_clean.
Qed.

(** A string without blank characters at either end is its own trim. *)
Lemma trim_fix s :
  starts_clean s = true -> starts_clean (rev s) = true -> trim s = s.
Proof.
  intros H1 H2. unfold trim. rewrite (trimStart_fix s H1).
  unfold trimEnd. rewrite (trimStart_fix _ H2). apply rev_involutive.
Qed.

(** *** The derivative matcher decides [Matches] *)

Lemma Matches_cat_inv r1 r2 s :
  Matches (Cat r1 r2) s ->
  exists s1 s2, s = s1 ++ s2 /\ Matches r1 s1 /\ Matches r2 s2.
Proof. intros H. inversion H; subst. eauto. Qed.

Lemma Matches_alt_inv r1 r2 s :
  Matches (Alt r1 r2) s -> Matches r1 s \/ Matches r2 s.
Proof. intros H. inversion H; subst; auto. Qed.

Lemma Matches_class_inv p s :
  Matches (Class p) s -> exists c, s = [c] /\ p c = true.
Proof. intros H. inversion H; subst. eauto. Qed.

Lemma Matches_eps_inv s : Matches Eps s -> s = [].
Proof. intros H. inversion H; subst. reflexivity. Qed.

Lemma Matches_void_inv s : ~ Matches Void s.
Proof. intros H. inversion H. Qed.

Lemma nullable_spec r : nullable r = true <-> Matches r [].
Proof.
  induction r as [| |p|r1 IH1 r2 IH2|r1 IH1 r2 IH2|r IH]; simpl; split; intros H.
  - discriminate.
  - destruct (Matches_void_inv _ H).
  - apply MEps.
  - reflexivity.
  - discriminate.
  - apply Matches_class_inv in H as (c & E & _). discriminate.
  - apply andb_true_iff in H as [H1 H2].
    change (@nil N) with (@nil N ++ @nil N).
    apply MCat; [apply IH1 | apply IH2]; assumption.
  - apply Matches_cat_inv in H as (s1 & s2 & E & M1 & M2).
    symmetry in E. apply app_eq_nil in E as [-> ->].
    apply andb_true_iff; split; [apply IH1 | apply IH2]; assumption.
  - apply orb_true_iff in H as [H|H];
      [apply MAltL, IH1 | apply MAltR, IH2]; assumption.
  - apply orb_true_iff.
    apply Matches_alt_inv in H as [H|H];
      [left; apply IH1 | right; apply IH2]; assumption.
  - apply MStarNil.
  - reflexivity.
Qed.

(** A non-empty match of [r*] starts with a non-empty match of [r]. *)
Lemma star_cons_inv r c s :
  Matches (Star r) (c :: s) ->
  exists s1 s2, s = s1 ++ s2 /\ Matches r (c :: s1) /\ Matches (Star r) s2.
Proof.
  intros H. remember (Star r) as r' eqn:Er. remember (c :: s) as t eqn:Et.
  revert s Et.
  induction H as [| | | | | |r0 s1 s2 M1 _ M2 IH2]; intros s' Et;
    try discriminate.
  injection Er as ->.
  destruct s1 as [|d s1]; simpl in Et.
  - apply IH2; auto.
  - injection Et as -> <-. eauto.
Qed.

Lemma deriv_spec r : forall c s, Matches (deriv c r) s <-> Matches r (c :: s).
Proof.
  induction r as [| |p|r1 IH1 r2 IH2|r1 IH1 r2 IH2|r IH]; intros c s; simpl.
  - split; intros H; destruct (Matches_void_inv _ H).
  - split; intros H; [destruct (Matches_void_inv _ H)|].
    apply Matches_eps_inv in H. discriminate.
  - destruct (p c) eqn:Hp; split; intros H.
    + apply Matches_eps_inv in H as ->. constructor. exact Hp.
    + apply Matches_class_inv in H as (d & E & _). injection E as -> ->.
      constructor.
    + destruct (Matches_void_inv _ H).
    + apply Matches_class_inv in H as (d & E & Hd). injection E as -> ->.
      congruence.
  - assert (Hcat : Matches (Cat (deriv c r1) r2) s ->
                   Matches (Cat r1 r2) (c :: s)).
    { intros H. apply Matches_cat_inv in H as (s1 & s2 & -> & M1 & M2).
      change (c :: s1 ++ s2) with ((c :: s1) ++ s2).
      constructor; [apply IH1|]; assumption. }
    assert (Hinv : Matches (Cat r1 r2) (c :: s) ->
                   Matches (Cat (deriv c r1) r2) s \/
                   (Matches r1 [] /\ Matches r2 (c :: s))).
    { intros H. apply Matches_cat_inv in H as (s1 & s2 & E & M1 & M2).
      destruct s1 as [|d s1]; simpl in E.
      - right. subst s2. auto.
      - injection E as <- ->. left. apply MCat; [apply IH1|]; assumption. }
    destruct (nullable r1) eqn:Hn; split; intros H.
    + apply Matches_alt_inv in H as [H|H]; [auto|].
      change (c :: s) with ([] ++ c :: s).
      constructor; [apply nullable_spec | apply IH2]; assumption.
    + destruct (Hinv H) as [H1|[_ H2]]; [apply MAltL | apply MAltR, IH2];
        assumption.
    + auto.
    + destruct (Hinv H) as [H1|[H1 _]]; [assumption|].
      apply nullable_spec in H1. congruence.
  - split; intros H; apply Matches_alt_inv in H as [H|H];
      solve [apply MAltL, IH1; assumption | apply MAltR, IH2; assumption].
  - split; intros H.
    + apply Matches_cat_inv in H as (s1 & s2 & -> & M1 & M2).
      change (c :: s1 ++ s2) with ((c :: s1) ++ s2).
      constructor; [apply IH|]; assumption.
    + apply star_cons_inv in H as (s1 & s2 & -> & M1 & M2).
      constructor; [apply IH|]; assumption.
Qed.

(** [test] accepts exactly the strings the pattern matches entirely. *)
Lemma test_spec s : forall r, test r s = true <-> Matches r s.
Proof.
  induction s as [|c s IH]; intros r; simpl.
  - apply nullable_spec.
  - rewrite IH. apply deriv_spec.
Qed.

Lemma star_class_matches p s :
  Matches (Star (Class p)) s <-> forallb p s = true.
Proof.
  split.
  - intros H. remember (Star (Class p)) as r eqn:Er.
    induction H as [| | | | | |r0 s1 s2 M1 _ M2 IH2]; try discriminate.
    + reflexivity.
    + injection Er as ->.
      apply Matches_class_inv in M1 as (c & -> & Hc).
      simpl. rewrite Hc. auto.
  - induction s as [|c s IH]; simpl; intros H; [apply MStarNil|].
    apply andb_true_iff in H as [Hc Hs].
    change (c :: s) with ([c] ++ s).
    apply MStarCons; [apply MClass | apply IH]; assumption.
Qed.

(** For a one-class pattern [[cls]+], [test] is "non-empty and every
    character in the class". *)
Lemma plus_class_test p s :
  test (Plus (Class p)) s = true <-> s <> [] /\ forallb p s = true.
Proof.
  rewrite test_spec. unfold Plus. split.
  - intros H. apply Matches_cat_inv in H as (s1 & s2 & -> & M1 & M2).
    apply Matches_class_inv in M1 as (c & -> & Hc).
    apply star_class_matches in M2. simpl. rewrite Hc, M2.
    split; [discriminate | reflexivity].
  - intros [Hne H]. destruct s as [|c s]; [congruence|].
    simpl in H. apply andb_true_iff in H as [Hc Hs].
    change (c :: s) with ([c] ++ s).
    apply MCat; [apply MClass | apply star_class_matches]; assumption.
Qed.

End JsStringFacts.

(* ===================================================================== *)
(** ** Validation in the main script *)
(* ===================================================================== *)

Module MainFormFacts.
Import JsString JsStringFacts MainForm MainFormEvents.

Lemma is_empty_true s : is_empty s = true <-> s = [].
Proof. destruct s; simpl; split; congruence. Qed.

(** How [validateField] ends is decided by the rule and the trimmed
    value, and for an empty required value by the presence of [labels]. *)
Lemma validateField_outcome f errs rules :
  lookup_rules (f_name f) = Some rules ->
  (validateField f errs).1 =
    if required rules && is_empty (trim (f_value f))
       && match f_labels f with None => true | Some _ => false end
    then Threw
    else Returned (negb (violates_rule rules (f_value f))).
Proof.
  intros Hr. unfold validateField, violates_rule, required_message.
  rewrite Hr.
  destruct (is_empty (trim (f_value f))), (required rules); simpl.
  - destruct (f_labels f); reflexivity.
  - reflexivity.
  - destruct (too_short rules _); [reflexivity|].
    destruct (pattern_fails rules _); reflexivity.
  - destruct (too_short rules _); [reflexivity|].
    destruct (pattern_fails rules _); reflexivity.
Qed.

(** [validateField] returns [true] exactly for the values that do not
    violate the rule. *)
Lemma validateField_verdict f errs rules :
  lookup_rules (f_name f) = Some rules ->
  accepted (validateField f errs).1 = negb (violates_rule rules (f_value f)).
Proof.
  intros Hr. rewrite (validateField_outcome f errs rules Hr).
  unfold violates_rule.
  destruct (required rules), (is_empty (trim (f_value f))), (f_labels f);
    simpl; try reflexivity;
    destruct (negb _); reflexivity.
Qed.

(** A control with a [labels] list never makes [validateField] throw. *)
Lemma validateField_returns f errs rules :
  lookup_rules (f_name f) = Some rules -> f_labels f <> None ->
  (validateField f errs).1 = Returned (negb (violates_rule rules (f_value f))).
Proof.
  intros Hr Hl. rewrite (validateField_outcome f errs rules Hr).
  destruct (f_labels f); [|congruence]. rewrite andb_false_r. reflexivity.
Qed.

Lemma validateField_no_rules f errs :
  lookup_rules (f_name f) = None ->
  validateField f errs = (Returned true, (f, errs)).
Proof. intros Hr. unfold validateField. rewrite Hr. reflexivity. Qed.

Lemma lookup_rules_own n rules :
  VALIDATION_RULES !! n = Some rules -> lookup_rules n = Some rules.
Proof. intros H. unfold lookup_rules. rewrite H. reflexivity. Qed.

(** Surrounding white space is stripped from a string whose core has no
    blank at either end. *)
Lemma trim_sandwich lead core trail :
  forallb is_white_space lead = true ->
  forallb is_white_space trail = true ->
  starts_clean core = true -> starts_clean (rev core) = true ->
  core <> [] ->
  trim (lead ++ core ++ trail) = core.
Proof.
  intros Hl Ht Hc Hrc Hne. unfold trim.
  assert (Hs : trimStart (lead ++ core ++ trail) = core ++ trail).
  { clear Ht Hrc. induction lead as [|c lead IH]; simpl.
    - destruct core as [|d core]; [congruence|]. simpl in *.
      destruct (is_white_space d); [discriminate | reflexivity].
    - simpl in Hl. apply andb_true_iff in Hl as [Hc1 Hl]. rewrite Hc1. auto. }
  rewrite Hs. unfold trimEnd. rewrite rev_app_distr.
  assert (He : trimStart (rev trail ++ rev core) = rev core).
  { assert (Hrt : forallb is_white_space (rev trail) = true)
      by (rewrite forallb_rev; exact Ht).
    clear Hs Ht. induction (rev trail) as [|c l IH]; simpl.
    - apply trimStart_fix. exact Hrc.
    - simpl in Hrt. apply andb_true_iff in Hrt as [Hc1 Hrt]. rewrite Hc1. auto. }
  rewrite He. apply rev_involutive.
Qed.

(** The verdict on a message is decided by the length of its trimmed
    value. *)
Lemma message_verdict f errs v :
  accepted (validateField (with_input f "message" v) errs).1
  = (10 <=? length (trim v))%nat.
Proof.
  rewrite (validateField_verdict _ errs message_rules) by reflexivity.
  unfold violates_rule. cbn [with_input f_value].
  destruct (trim v) as [|c t] eqn:E; [reflexivity|].
  cbn [is_empty]. unfold too_short, pattern_fails. simpl minLength.
  simpl pattern. cbn [N.eqb negb andb orb].
  destruct (Nat.leb_spec 10 (length (c :: t))) as [Hl|Hl].
  - assert ((N.of_nat (length (c :: t)) <? 10) = false) as ->
      by (apply N.ltb_ge; lia).
    reflexivity.
  - assert ((N.of_nat (length (c :: t)) <? 10) = true) as ->
      by (apply N.ltb_lt; lia).
    reflexivity.
Qed.

(** Every message shorter than 10 code units is rejected. *)
Lemma message_below_minimum_rejected f errs :
  f_name f = "message" -> (length (f_value f) < 10)%nat ->
  accepted (validateField f errs).1 = false.
Proof.
  intros Hn Hl.
  rewrite (validateField_verdict f errs message_rules)
    by (rewrite Hn; reflexivity).
  unfold violates_rule. pose proof (trim_length (f_value f)) as Ht.
  destruct (trim (f_value f)) as [|c t] eqn:E; [reflexivity|].
  cbn [is_empty negb]. unfold too_short, pattern_fails. simpl minLength.
  cbn [N.eqb negb andb].
  assert ((N.of_nat (length (c :: t)) <? 10) = true) as ->
    by (apply N.ltb_lt; lia).
  reflexivity.
Qed.

(** Every message whose trimmed value has at least 10 code units is
    accepted. *)
Lemma message_at_minimum_accepted f errs :
  f_name f = "message" -> (10 <= length (trim (f_value f)))%nat ->
  (validateField f errs).1 = Returned true.
Proof.
  intros Hn Hl.
  rewrite (validateField_outcome f errs message_rules)
    by (rewrite Hn; reflexivity).
  unfold violates_rule.
  destruct (trim (f_value f)) as [|c t] eqn:E; [simpl in Hl; lia|].
  cbn [is_empty negb andb]. rewrite andb_false_r. cbv iota.
  unfold too_short, pattern_fails. simpl minLength.
  cbn [N.eqb negb andb].
  assert ((N.of_nat (length (c :: t)) <? 10) = false) as ->
    by (apply N.ltb_ge; lia).
  reflexivity.
Qed.

(** A string of ten code units keeps all ten through [trim] exactly when
    neither its first nor its last is white space. *)
Lemma trim_ten c1 c2 c3 c4 c5 c6 c7 c8 c9 c10 :
  (10 <=? length (trim [c1; c2; c3; c4; c5; c6; c7; c8; c9; c10]))%nat
  = negb (is_white_space c1) && negb (is_white_space c10).
Proof.
  assert (Hcons : forall c s,
            trimStart (c :: s) = if is_white_space c then trimStart s else c :: s)
    by reflexivity.
  unfold trim. rewrite Hcons.
  destruct (is_white_space c1) eqn:E1; cbn [negb andb].
  - apply Nat.leb_gt.
    pose proof (trimEnd_length (trimStart [c2; c3; c4; c5; c6; c7; c8; c9; c10])).
    pose proof (trimStart_length [c2; c3; c4; c5; c6; c7; c8; c9; c10]).
    cbn [length] in *. lia.
  - unfold trimEnd. cbn [rev app]. rewrite Hcons.
    destruct (is_white_space c10) eqn:E10; cbn [negb].
    + apply Nat.leb_gt. rewrite length_rev.
      pose proof (trimStart_length [c9; c8; c7; c6; c5; c4; c3; c2; c1]).
      cbn [length] in *. lia.
    + reflexivity.
Qed.

(** C4 as stated fails for a message of exactly 10 characters that ends
    in white space: "Hello hi  " has ten characters, eight of them after
    trimming, and is rejected for being shorter than 10 characters. *)
Lemma ten_character_message_rejected :
  length (js "Hello hi  ") = 10%nat
  /\ validateField
       (control TTextarea "message" (js "Hello hi  ") true 3 "Message") []
     = (Returned false,
        showFieldError
          (control TTextarea "message" (js "Hello hi  ") true 3 "Message")
          "Must be at least 10 characters" []).
Proof. split; reflexivity. Qed.

(** C4 (amended).  Single-field validation on the specification's
    concrete inputs, whatever the rest of the control looks like: the name
    "A" is rejected for being shorter than 2 characters and "Jane Doe" is
    accepted; the email "x" is rejected by the pattern and "a@b.co" is
    accepted; every message of 5 characters is rejected; a message of
    exactly 10 characters is accepted exactly when neither its first nor
    its last character is white space, because the minimum of 10 counts
    the characters left after trimming: any message is accepted exactly
    when its trimmed value has at least 10 characters.  The messages
    "Hello" and "Hello, hi!" show the stated error and clear it. *)
Theorem validateField_spec_scenarios
    (f : Field) (errs : FieldErrors) (v : jsstring)
    (c1 c2 c3 c4 c5 c6 c7 c8 c9 c10 : N) :
  validateField (with_input f "name" (js "A")) errs
    = (Returned false,
       showFieldError (with_input f "name" (js "A"))
         "Must be at least 2 characters" errs)
  /\ validateField (with_input f "name" (js "Jane Doe")) errs
    = (Returned true,
       clearFieldError (with_input f "name" (js "Jane Doe")) errs)
  /\ validateField (with_input f "email" (js "x")) errs
    = (Returned false,
       showFieldError (with_input f "email" (js "x"))
         "Please enter a valid email address" errs)
  /\ validateField (with_input f "email" (js "a@b.co")) errs
    = (Returned true,
       clearFieldError (with_input f "email" (js "a@b.co")) errs)
  /\ accepted
       (validateField (with_input f "message" [c1; c2; c3; c4; c5]) errs).1
     = false
  /\ accepted
       (validateField
          (with_input f "message" [c1; c2; c3; c4; c5; c6; c7; c8; c9; c10])
          errs).1
     = negb (is_white_space c1) && negb (is_white_space c10)
  /\ accepted (validateField (with_input f "message" v) errs).1
     = (10 <=? length (trim v))%nat
  /\ validateField (with_input f "message" (js "Hello")) errs
    = (Returned false,
       showFieldError (with_input f "message" (js "Hello"))
         "Must be at least 10 characters" errs)
  /\ validateField (with_input f "message" (js "Hello, hi!")) errs
    = (Returned true,
       clearFieldError (with_input f "message" (js "Hello, hi!")) errs).
Proof.
  split; [reflexivity|]. split; [reflexivity|].
  split; [reflexivity|]. split; [reflexivity|].
  split.
  { apply message_below_minimum_rejected; [reflexivity | simpl; lia]. }
  split.
  { rewrite message_verdict. apply trim_ten. }
  split; [apply message_verdict|].
  split; reflexivity.
Qed.

(** Every value splits into leading blanks, its trimmed core and trailing
    blanks, so the premises of the next theorem can always be met. *)
Lemma trim_decompose v :
  exists lead trail,
    v = lead ++ trim v ++ trail
    /\ forallb is_white_space lead = true
    /\ forallb is_white_space trail = true
    /\ starts_clean (trim v) = true
    /\ starts_clean (rev (trim v)) = true.
Proof.
  destruct (trimStart_suffix v) as [lead [Hv Hl]].
  destruct (trimEnd_prefix (trimStart v)) as [trail [Ht Hw]].
  exists lead, trail. unfold trim. repeat split; auto.
  - rewrite <- Ht. exact Hv.
  - apply trimEnd_clean, trimStart_clean.
  - unfold trimEnd. rewrite rev_involutive. apply trimStart_clean.
Qed.

(** C9.  Validation works on the trimmed value.  Write the value of a
    control as leading white space, a core without blanks at its ends, and
    trailing white space.  Then [validateField] is decided by the core
    alone: an empty core (a value of white space only) fails the required
    check of a required rule (with the required message, or with the
    exception of a control whose [labels] are [null]) and is accepted by
    an optional one, and the minimum length and the pattern are checked
    against the core, so the surrounding white space does not count toward
    the minimum length. *)
Theorem validateField_trims (f : Field) (errs : FieldErrors)
    (lead core trail : jsstring) :
  f_value f = lead ++ core ++ trail ->
  forallb is_white_space lead = true ->
  forallb is_white_space trail = true ->
  starts_clean core = true -> starts_clean (rev core) = true ->
  validateField f errs =
    match lookup_rules (f_name f) with
    | None => (Returned true, (f, errs))
    | Some rules =>
        if is_empty core then
          if required rules
          then match required_message f with
               | Some msg => (Returned false, showFieldError f msg errs)
               | None => (Threw, (f, errs))
               end
          else (Returned true, (f, errs))
        else if too_short rules core then
          (Returned false,
           showFieldError f (min_length_message (default 0 (minLength rules)))
             errs)
        else if pattern_fails rules core then
          (Returned false, showFieldError f (message rules) errs)
        else (Returned true, clearFieldError f errs)
    end.
Proof.
  intros Hv Hl Ht Hc Hrc. unfold validateField.
  assert (Htrim : trim (f_value f) = core).
  { rewrite Hv. destruct core as [|c core'].
    - apply trim_nil_iff. simpl. rewrite forallb_app, Hl, Ht. reflexivity.
    - apply trim_sandwich; auto; discriminate. }
  rewrite Htrim.
  destruct (lookup_rules (f_name f)) as [rules|]; [|reflexivity].
  destruct (is_empty core), (required rules); reflexivity.
Qed.

(** The premises hold at a name padded with blanks: "  A  " has the
    one-character core "A" and is rejected for its length. *)
Lemma validateField_trims_witness :
  let f := {| f_tag := TInput; f_name := "name"; f_value := js "  A  ";
              f_default := []; f_required := true; f_group := Some 0%nat;
              f_labels := Some ["Name"]; f_error := false;
              f_aria_invalid := None |} in
  validateField f [] =
    (Returned false, showFieldError f "Must be at least 2 characters" []).
Proof.
  intros f.
  rewrite (validateField_trims f [] (js "  ") (js "A") (js "  "));
    reflexivity.
Defined.

(** *** Whole-form validation on submit *)

(** How [validateField] ends, and the control as it leaves it, do not
    depend on the errors shown. *)
Lemma validateField_verdict_errs f e1 e2 :
  (validateField f e1).1 = (validateField f e2).1
  /\ (validateField f e1).2.1 = (validateField f e2).2.1.
Proof.
  unfold validateField, showFieldError, clearFieldError.
  destruct (lookup_rules (f_name f)) as [rules|]; [|auto].
  repeat match goal with |- context [if ?b then _ else _] => destruct b end;
    try destruct (required_message f); destruct (f_group f); auto.
Qed.

Lemma remove_first_error_other g g' m errs :
  g <> g' -> (g, m) ∈ errs -> (g, m) ∈ remove_first_error g' errs.
Proof.
  intros Hne. induction errs as [|[h n] errs IH]; simpl; intros Hin.
  - exact Hin.
  - destruct (Nat.eqb_spec g' h) as [->|Hh].
    + apply elem_of_cons in Hin as [E|Hin]; [congruence | exact Hin].
    + apply elem_of_cons in Hin as [E|Hin].
      * rewrite E. apply list_elem_of_here.
      * apply list_elem_of_further. auto.
Qed.

(** Validating a control of another form group leaves the error of group
    [g] in place. *)
Lemma validateField_keeps_group f errs g m :
  f_group f <> Some g -> (g, m) ∈ errs -> (g, m) ∈ (validateField f errs).2.2.
Proof.
  intros Hg Hin.
  assert (Hshow : forall msg, (g, m) ∈ (showFieldError f msg errs).2).
  { intros msg. unfold showFieldError. destruct (f_group f) as [h|]; simpl; auto.
    apply elem_of_app. left. apply remove_first_error_other; congruence. }
  assert (Hclear : (g, m) ∈ (clearFieldError f errs).2).
  { unfold clearFieldError. destruct (f_group f) as [h|]; simpl; auto.
    apply remove_first_error_other; congruence. }
  unfold validateField. destruct (lookup_rules (f_name f)) as [rules|]; auto.
  repeat match goal with |- context [if ?b then _ else _] => destruct b end;
    try destruct (required_message f); simpl; auto.
Qed.

(** A rejected control inside a form group is marked invalid and its group
    holds an error element. *)
Lemma validateField_rejected_marks f errs g :
  (validateField f errs).1 = Returned false -> f_group f = Some g ->
  let f' := (validateField f errs).2.1 in
  f_error f' = true /\ f_aria_invalid f' = Some "true"
  /\ f_name f' = f_name f /\ f_value f' = f_value f
  /\ exists msg, (g, msg) ∈ (validateField f errs).2.2.
Proof.
  intros Hv Hg.
  assert (Hshow : forall msg,
             let r := showFieldError f msg errs in
             f_error r.1 = true /\ f_aria_invalid r.1 = Some "true"
             /\ f_name r.1 = f_name f /\ f_value r.1 = f_value f
             /\ exists msg', (g, msg') ∈ r.2).
  { intros msg. unfold showFieldError. rewrite Hg. simpl.
    repeat split; try reflexivity.
    exists msg. apply elem_of_app. right. apply list_elem_of_here. }
  revert Hv. unfold validateField.
  destruct (lookup_rules (f_name f)) as [rules|]; [|discriminate].
  repeat match goal with |- context [if ?b then _ else _] => destruct b end;
    try destruct (required_message f);
    simpl; try discriminate; intros _; apply Hshow.
Qed.

Lemma validate_inputs_cons f rest errs :
  validate_inputs (f :: rest) errs =
    if is_required_input f then
      let r := validateField f errs in
      match r.1 with
      | Threw => (Threw, (f :: rest, errs))
      | Returned ok =>
          let rs := validate_inputs rest r.2.2 in
          (match rs.1 with
           | Returned oks => Returned (ok && oks)
           | Threw => Threw
           end, (r.2.1 :: rs.2.1, rs.2.2))
      end
    else
      let rs := validate_inputs rest errs in
      (rs.1, (f :: rs.2.1, rs.2.2)).
Proof.
  simpl. destruct (is_required_input f).
  - destruct (validateField f errs) as [[ok|] [f' e1]]; [|reflexivity]. simpl.
    destruct (validate_inputs rest e1) as [oks [rest' e2]]. reflexivity.
  - destruct (validate_inputs rest errs) as [oks [rest' e2]]. reflexivity.
Qed.

(** Later controls of other groups leave the error of group [g] in place. *)
Lemma validate_inputs_keeps_group fs : forall errs g m,
  (forall f, f ∈ fs -> is_required_input f = true -> f_group f <> Some g) ->
  (g, m) ∈ errs -> (g, m) ∈ (validate_inputs fs errs).2.2.
Proof.
  induction fs as [|f rest IH]; intros errs g m Hother Hin; [exact Hin|].
  rewrite validate_inputs_cons.
  destruct (is_required_input f) eqn:Hsel; simpl.
  - pose proof (validateField_keeps_group f errs g m
                  (Hother f (list_elem_of_here _ _) Hsel) Hin) as Hk.
    destruct ((validateField f errs).1); [|exact Hin]. simpl.
    apply IH; [|exact Hk].
    intros f2 H2. apply Hother. apply list_elem_of_further, H2.
  - apply IH; [|exact Hin].
    intros f2 H2. apply Hother. apply list_elem_of_further, H2.
Qed.

(** One required control that is not accepted fails the whole form. *)
Lemma validate_inputs_not_accepted fs : forall errs i f,
  fs !! i = Some f -> is_required_input f = true ->
  accepted (validateField f []).1 = false ->
  accepted (validate_inputs fs errs).1 = false.
Proof.
  induction fs as [|f0 rest IH]; intros errs i f Hi Hsel Hv; [discriminate|].
  rewrite validate_inputs_cons. destruct i as [|i]; simpl in Hi.
  - injection Hi as ->. rewrite Hsel. cbv zeta.
    rewrite (proj1 (validateField_verdict_errs f [] errs)) in Hv.
    destruct ((validateField f errs).1) as [[|]|]; try discriminate;
      simpl; [|reflexivity].
    destruct ((validate_inputs rest _).1); reflexivity.
  - destruct (is_required_input f0); cbv zeta.
    + destruct ((validateField f0 errs).1) as [ok|]; [|reflexivity]. simpl.
      specialize (IH (validateField f0 errs).2.2 i f Hi Hsel Hv).
      destruct ((validate_inputs rest _).1) as [[|]|];
        try discriminate; try reflexivity.
      rewrite andb_false_r. reflexivity.
    + simpl. exact (IH errs i f Hi Hsel Hv).
Qed.

(** One rejected required control, reached by the loop, is marked invalid
    and keeps its error when no other validated control shares its
    group. *)
Lemma validate_inputs_rejects fs : forall errs i f,
  fs !! i = Some f -> is_required_input f = true ->
  (validateField f errs).1 = Returned false ->
  (forall j f2, (j < i)%nat -> fs !! j = Some f2 ->
     is_required_input f2 = true -> f_labels f2 <> None) ->
  let r := validate_inputs fs errs in
  forall g, f_group f = Some g ->
    exists f', r.2.1 !! i = Some f'
      /\ f_error f' = true /\ f_aria_invalid f' = Some "true"
      /\ f_name f' = f_name f /\ f_value f' = f_value f
      /\ ((forall j f2, j <> i -> fs !! j = Some f2 ->
             is_required_input f2 = true -> f_group f2 <> Some g) ->
          exists msg, (g, msg) ∈ r.2.2).
Proof.
  induction fs as [|f0 rest IH]; intros errs i f Hi Hsel Hv Hlab;
    [discriminate|].
  rewrite validate_inputs_cons. destruct i as [|i]; simpl in Hi.
  - injection Hi as ->. rewrite Hsel. cbv zeta. rewrite Hv.
    intros g Hg.
    destruct (validateField_rejected_marks f errs g Hv Hg)
      as (He & Ha & Hn & Hval & msg & Hm).
    exists (validateField f errs).2.1. repeat split; auto.
    intros Hother. exists msg. apply validate_inputs_keeps_group; [|exact Hm].
    intros f2 H2 Hs2. apply list_elem_of_lookup in H2 as [j Hj].
    apply (Hother (S j) f2); [discriminate | exact Hj | exact Hs2].
  - assert (Hv' : forall e, (validateField f e).1 = Returned false)
      by (intros e; rewrite (proj1 (validateField_verdict_errs f e errs));
          exact Hv).
    assert (Hlab' : forall j f2, (j < i)%nat -> rest !! j = Some f2 ->
              is_required_input f2 = true -> f_labels f2 <> None).
    { intros j f2 Hj. apply (Hlab (S j) f2). lia. }
    destruct (is_required_input f0) eqn:Hsel0; cbv zeta.
    + assert (Hret : exists ok, (validateField f0 errs).1 = Returned ok).
      { pose proof (Hlab 0%nat f0 ltac:(lia) eq_refl Hsel0) as Hl0.
        unfold validateField, required_message.
        destruct (f_labels f0); [|congruence].
        destruct (lookup_rules (f_name f0)) as [rules|]; [|eexists; reflexivity].
        repeat match goal with
               | |- context [if ?b then _ else _] => destruct b
               end; eexists; reflexivity. }
      destruct Hret as [ok ->]. simpl.
      intros g Hg.
      destruct (IH (validateField f0 errs).2.2 i f Hi Hsel (Hv' _) Hlab' g Hg)
        as (f' & Hl & He & Ha & Hn & Hval & Hm).
      exists f'. repeat split; auto.
      intros Hother. apply Hm. intros j f2 Hj. apply (Hother (S j) f2). congruence.
    + simpl. intros g Hg.
      destruct (IH errs i f Hi Hsel Hv Hlab' g Hg)
        as (f' & Hl & He & Ha & Hn & Hval & Hm).
      exists f'. repeat split; auto.
      intros Hother. apply Hm. intros j f2 Hj. apply (Hother (S j) f2). congruence.
Qed.

Lemma clear_field_marks_same f :
  f_tag (clear_field_marks f) = f_tag f
  /\ f_name (clear_field_marks f) = f_name f
  /\ f_value (clear_field_marks f) = f_value f
  /\ f_required (clear_field_marks f) = f_required f
  /\ f_group (clear_field_marks f) = f_group f
  /\ f_labels (clear_field_marks f) = f_labels f.
Proof. unfold clear_field_marks. destruct (f_error f); repeat split. Qed.

Lemma clear_field_marks_selected f :
  is_required_input (clear_field_marks f) = is_required_input f.
Proof.
  unfold is_required_input.
  destruct (clear_field_marks_same f) as (-> & _ & _ & -> & _). reflexivity.
Qed.

Lemma validateField_after_clear f errs :
  (validateField (clear_field_marks f) errs).1 = (validateField f errs).1.
Proof.
  destruct (clear_field_marks_same f) as (_ & Hn & Hv & _ & _ & Hl).
  unfold validateField, required_message. rewrite Hn, Hv, Hl.
  destruct (lookup_rules (f_name f)) as [rules|]; [|reflexivity].
  repeat match goal with |- context [if ?b then _ else _] => destruct b end;
    try destruct (f_labels f); reflexivity.
Qed.

Section Browser.

Context `{HtmlText}.

(** An aborted submit leaves timers, call count and clock alone. *)
Lemma handleFormSubmit_invalid st :
  accepted (validateForm (clearAllErrors (form st))).1 = false ->
  handleFormSubmit st =
    with_form (validateForm (clearAllErrors (form st))).2
      (with_button (clear_button_error <$> button st)
         (with_form (clearAllErrors (form st)) st)).
Proof.
  intros Hv. unfold handleFormSubmit.
  destruct (validateForm (clearAllErrors (form st))) as [[[|]|] fm];
    [discriminate | reflexivity | reflexivity].
Qed.

(** X24.  On submit, every input or textarea that carries the [required]
    attribute, has an entry in the rules table and holds a value whose
    trimmed form violates that rule keeps the form from validating and
    aborts the submission: no simulated call is made and no timer is
    armed.  When the control lies in a form group, returns a verdict and
    no required control before it has [null] labels, it is marked
    invalid, and when no other validated control shares that group the
    group shows an inline error at the end of the submit handler. *)
Theorem submit_rejects_invalid_required_field
    (st : State) (i : nat) (f : Field) (rules : Rules) :
  fields (form st) !! i = Some f ->
  is_required_input f = true ->
  VALIDATION_RULES !! f_name f = Some rules ->
  violates_rule rules (f_value f) = true ->
  let st' := handleFormSubmit st in
  accepted (validateForm (clearAllErrors (form st))).1 = false
  /\ sim_calls st' = sim_calls st
  /\ timers st' = timers st
  /\ button st' = clear_button_error <$> button st
  /\ forall g, f_group f = Some g ->
       (forall j f2, (j <= i)%nat -> fields (form st) !! j = Some f2 ->
          is_required_input f2 = true -> f_labels f2 <> None) ->
       exists f', fields (form st') !! i = Some f'
         /\ f_error f' = true /\ f_aria_invalid f' = Some "true"
         /\ f_name f' = f_name f /\ f_value f' = f_value f
         /\ ((forall j f2, j <> i -> fields (form st) !! j = Some f2 ->
                is_required_input f2 = true -> f_group f2 <> Some g) ->
             exists msg, (g, msg) ∈ field_errors (form st')).
Proof.
  intros Hi Hsel Hrule Hviol st'.
  destruct (clear_field_marks_same f) as (Ht & Hn & Hv & Hr & Hg & Hlb).
  pose proof (lookup_rules_own _ _ Hrule) as Hlook.
  assert (Hnot : accepted (validateField (clear_field_marks f) []).1 = false).
  { rewrite validateField_after_clear.
    rewrite (validateField_verdict f [] rules Hlook), Hviol. reflexivity. }
  assert (Hci : (clear_field_marks <$> fields (form st)) !! i
                = Some (clear_field_marks f))
    by (rewrite list_lookup_fmap, Hi; reflexivity).
  pose proof (validate_inputs_not_accepted _ [] i _ Hci
                (eq_trans (clear_field_marks_selected f) Hsel) Hnot)
    as Hfail.
  assert (Hvf : accepted (validateForm (clearAllErrors (form st))).1 = false).
  { unfold validateForm, clearAllErrors. simpl.
    destruct (validate_inputs _ _) as [ok [fs es]]. exact Hfail. }
  assert (Hst' : st' = _) by (exact (handleFormSubmit_invalid st Hvf)).
  split; [exact Hvf|]. rewrite Hst'. repeat split.
  intros g Hgf Hlab. rewrite <- Hg in Hgf.
  assert (Hrej : (validateField (clear_field_marks f) []).1 = Returned false).
  { rewrite validateField_after_clear.
    rewrite (validateField_returns f [] rules Hlook), Hviol; [reflexivity|].
    apply (Hlab i f); [lia | exact Hi | exact Hsel]. }
  assert (Hlab' : forall j f2, (j < i)%nat ->
            (clear_field_marks <$> fields (form st)) !! j = Some f2 ->
            is_required_input f2 = true -> f_labels f2 <> None).
  { intros j f2 Hj Hj2 Hs2. rewrite list_lookup_fmap in Hj2.
    destruct (fields (form st) !! j) as [f0|] eqn:Hf0; [|discriminate].
    injection Hj2 as <-.
    destruct (clear_field_marks_same f0) as (_ & _ & _ & _ & _ & ->).
    rewrite clear_field_marks_selected in Hs2.
    apply (Hlab j f0); [lia | exact Hf0 | exact Hs2]. }
  destruct (validate_inputs_rejects _ [] i _ Hci
              (eq_trans (clear_field_marks_selected f) Hsel) Hrej Hlab' g Hgf)
    as (f' & Hl & He & Ha & Hn' & Hv' & Hm).
  exists f'. unfold validateForm, clearAllErrors. simpl.
  destruct (validate_inputs _ _) as [ok [fs es]]. simpl in *.
  repeat split; try congruence.
  intros Hother. apply Hm. intros j f2 Hj Hj2 Hs2.
  rewrite list_lookup_fmap in Hj2.
  destruct (fields (form st) !! j) as [f0|] eqn:Hf0; [|discriminate].
  injection Hj2 as <-.
  destruct (clear_field_marks_same f0) as (_ & _ & _ & _ & -> & _).
  rewrite clear_field_marks_selected in Hs2. eauto.
Qed.

(** C3, on the main script: the phone field has an entry in the rules
    table and "abc" violates its pattern, yet a submit with the other
    fields filled in correctly validates, shows no error and starts the
    simulated call, because [validateForm] visits only the controls that
    carry the [required] attribute.  The blur listener, which runs the
    same [validateField] on the same control, rejects the value and shows
    the inline error. *)
Theorem submit_skips_invalid_phone :
  let st := page_loaded
              (contact_form "Jane Doe" "a@b.co" "abc" "Hello, hi there!")
              (Some send_button) in
  fields (form st) !! 2%nat
    = Some (control TInput "phone" (js "abc") false 2 "Phone")
  /\ VALIDATION_RULES !! "phone" = Some phone_rules
  /\ violates_rule phone_rules (js "abc") = true
  /\ (validateForm (clearAllErrors (form st))).1 = Returned true
  /\ field_errors (form (handleFormSubmit st)) = []
  /\ sim_calls (handleFormSubmit st) = 1%nat
  /\ in_flight (handleFormSubmit st) = 1%nat
  /\ field_errors (on_blur 2 (form st))
     = [(2%nat, "Please enter a valid phone number")]
  /\ (f_error <$> fields (on_blur 2 (form st)) !! 2%nat) = Some true.
Proof. vm_compute. repeat split. Qed.

End Browser.

(** The premises hold on the contact form with a one-letter name: the
    submit is aborted and the name's group shows an error. *)
Lemma submit_rejects_invalid_required_field_witness :
  let st := page_loaded (contact_form "A" "a@b.co" "" "Hello, hi there!")
              (Some send_button) in
  sim_calls (handleFormSubmit (H := span_text) st) = 0%nat
  /\ timers (handleFormSubmit (H := span_text) st) = ∅
  /\ exists msg,
       (0%nat, msg) ∈ field_errors (form (handleFormSubmit (H := span_text) st)).
Proof.
  intros st.
  destruct (submit_rejects_invalid_required_field (H := span_text) st 0
              (control TInput "name" (js "A") true 0 "Name") name_rules
              eq_refl eq_refl eq_refl eq_refl)
    as (_ & Hc & Ht & _ & Hshow).
  split; [exact Hc|]. split; [exact Ht|].
  destruct (Hshow 0%nat eq_refl) as (f' & _ & _ & _ & _ & _ & Hm).
  - intros j f2 Hj Hl _. destruct j as [|j]; [|lia].
    injection Hl as <-. discriminate.
  - apply Hm. intros j f2 Hj Hl _.
    destruct j as [|[|[|[|j]]]]; try congruence; simpl in Hl;
      try (injection Hl as <-; discriminate).
    discriminate.
Defined.

End MainFormFacts.

(* ===================================================================== *)
(** ** The managers of [js/interactions.js] *)
(* ===================================================================== *)

Module InteractionsFacts.
Import Interactions.

(** *** What [setState] changes *)

Lemma setState_currentState state o st :
  currentState (setState state o st) = state.
Proof. setState_cases st state. Qed.

Lemma setState_log state o st :
  state_log (setState state o st) = state :: state_log st.
Proof. setState_cases st state. Qed.

Lemma setState_isSubmitting state o st :
  isSubmitting (setState state o st) = isSubmitting st.
Proof. setState_cases st state. Qed.

Lemma setState_sim_calls state o st :
  sim_calls (setState state o st) = sim_calls st.
Proof. setState_cases st state. Qed.

Lemma setState_now state o st : now (setState state o st) = now st.
Proof. setState_cases st state. Qed.

Lemma setState_originalContent state o st :
  originalContent (setState state o st) = originalContent st.
Proof. setState_cases st state. Qed.

Lemma setState_timers state o st :
  timers (setState state o st) =
    match state with
    | SUCCESS =>
        <[next_timer st :=
            {| due := now st + duration_or o SUCCESS_DISPLAY_DURATION;
               callback := ToIdle |}]> (pending_after_clear st)
    | ERROR =>
        <[next_timer st :=
            {| due := now st + duration_or o ERROR_DISPLAY_DURATION;
               callback := ToIdle |}]> (pending_after_clear st)
    | _ => pending_after_clear st
    end.
Proof. setState_cases st state. Qed.

Lemma setState_next_timer state o st :
  next_timer (setState state o st) =
    match state with
    | SUCCESS | ERROR => S (next_timer st)
    | _ => next_timer st
    end.
Proof. setState_cases st state. Qed.

Lemma setState_stateTimeout state o st :
  stateTimeout (setState state o st) =
    match state with
    | SUCCESS | ERROR => Some (next_timer st)
    | _ => match stateTimeout st with
           | Some (S _) => None
           | other => other
           end
    end.
Proof. setState_cases st state. Qed.

(** After [setState] has cancelled the recorded timer, no state-display
    timer of an earlier state is pending. *)
Lemma pending_after_clear_no_display st :
  stateTimeout st <> Some 0%nat ->
  (forall id t, timers st !! id = Some t -> callback t = ToIdle ->
                stateTimeout st = Some id) ->
  forall id t, pending_after_clear st !! id = Some t -> callback t <> ToIdle.
Proof.
  intros H0 Hd id t Hl Hcb. unfold pending_after_clear in Hl.
  destruct (stateTimeout st) as [[|k]|] eqn:Hst.
  - congruence.
  - apply lookup_delete_Some in Hl as [Hne Hl].
    specialize (Hd id t Hl Hcb). congruence.
  - specialize (Hd id t Hl Hcb). congruence.
Qed.

Lemma pending_after_clear_sub st id t :
  pending_after_clear st !! id = Some t -> timers st !! id = Some t.
Proof.
  unfold pending_after_clear. destruct (stateTimeout st) as [[|k]|]; auto.
  intros H. apply lookup_delete_Some in H as [_ H]. exact H.
Qed.

(** Cancelling the state-display timer leaves every other timer pending. *)
Lemma pending_after_clear_keeps st id t :
  (forall id t, stateTimeout st = Some id -> timers st !! id = Some t ->
                callback t = ToIdle) ->
  timers st !! id = Some t -> callback t <> ToIdle ->
  pending_after_clear st !! id = Some t.
Proof.
  intros Hh Hl Hcb. unfold pending_after_clear.
  destruct (stateTimeout st) as [[|k]|] eqn:Hst; auto.
  apply lookup_delete_Some. split; [|exact Hl].
  intros <-. apply Hcb. exact (Hh _ _ eq_refl Hl).
Qed.

Lemma pending_after_clear_clearTimeout st id :
  pending_after_clear (clearTimeout id st)
  = match stateTimeout st with
    | Some (S _ as h) => delete h (delete id (timers st))
    | _ => delete id (timers st)
    end.
Proof. unfold pending_after_clear, clearTimeout. destruct st; reflexivity. Qed.

Lemma follows_cons edge a b log :
  head log = Some a -> edge a b = true -> follows edge log = true ->
  follows edge (b :: log) = true.
Proof.
  destruct log as [|a' rest]; [discriminate|].
  simpl. intros [= ->] -> H. exact H.
Qed.

(** *** What the handlers change *)

Lemma handleSubmit_blocked j st :
  isSubmitting st || isLoading st = true -> handleSubmit j st = st.
Proof. intros H. unfold handleSubmit. rewrite H. reflexivity. Qed.

Lemma handleSubmit_accepted j st :
  isSubmitting st || isLoading st = false ->
  let st' := handleSubmit j st in
  currentState st' = LOADING
  /\ isSubmitting st' = true
  /\ timers st' =
       <[next_timer st :=
           {| due := now st + (1000 + j); callback := SimSettle (now st) |}]>
         (pending_after_clear st)
  /\ next_timer st' = S (next_timer st)
  /\ stateTimeout st' =
       match stateTimeout st with Some (S _) => None | other => other end
  /\ state_log st' = LOADING :: state_log st
  /\ sim_calls st' = S (sim_calls st)
  /\ now st' = now st.
Proof.
  intros H. unfold handleSubmit. rewrite H. clear H.
  destruct st as [? ? ? [[|?]|] ? ? ? ? ? ? ? ? ? ?];
    repeat split; vm_compute; reflexivity.
Qed.

Lemma handleSuccess_view st :
  let st' := handleSuccess st in
  currentState st' = SUCCESS
  /\ isSubmitting st' = isSubmitting st
  /\ timers st' =
       <[S (next_timer st) :=
           {| due := now st + SUCCESS_DISPLAY_DURATION; callback := FormReset |}]>
         (<[next_timer st :=
              {| due := now st + SUCCESS_DISPLAY_DURATION; callback := ToIdle |}]>
            (pending_after_clear st))
  /\ next_timer st' = S (S (next_timer st))
  /\ stateTimeout st' = Some (next_timer st)
  /\ state_log st' = SUCCESS :: state_log st
  /\ sim_calls st' = sim_calls st
  /\ now st' = now st.
Proof.
  destruct st as [? ? ? [[|?]|] ? ? ? ? ? ? ? ? ? ?];
    repeat split; vm_compute; reflexivity.
Qed.

Lemma handleError_view msg st :
  let st' := handleError msg st in
  currentState st' = ERROR
  /\ isSubmitting st' = isSubmitting st
  /\ timers st' =
       <[S (next_timer st) :=
           {| due := now st + ERROR_DISPLAY_DURATION;
              callback := RemoveBanner (next_banner st) |}]>
         (<[next_timer st :=
              {| due := now st + ERROR_DISPLAY_DURATION; callback := ToIdle |}]>
            (pending_after_clear st))
  /\ next_timer st' = S (S (next_timer st))
  /\ stateTimeout st' = Some (next_timer st)
  /\ state_log st' = ERROR :: state_log st
  /\ sim_calls st' = sim_calls st
  /\ now st' = now st.
Proof.
  destruct st as [? ? ? [[|?]|] ? ? ? ? ? ? ? ? ? ?];
    repeat split; vm_compute; reflexivity.
Qed.

(** *** The invariant *)

Lemma construct_view b :
  let st := construct b in
  currentState st = IDLE /\ stateTimeout st = None /\ timers st = ∅
  /\ next_timer st = 1%nat /\ isSubmitting st = false
  /\ state_log st = [IDLE] /\ sim_calls st = 0%nat
  /\ originalContent st = innerHTML b.
Proof. destruct b. repeat split; vm_compute; reflexivity. Qed.

Lemma Inv_construct b : Inv (construct b).
Proof.
  destruct (construct_view b) as (Hc & Hto & Ht & Hn & Hs & Hl & _).
  constructor.
  - rewrite Hn. lia.
  - intros id t. rewrite Ht, lookup_empty. discriminate.
  - rewrite Hto. discriminate.
  - rewrite Hto. discriminate.
  - intros id t. rewrite Ht, lookup_empty. discriminate.
  - rewrite Hc. discriminate.
  - intros id t. rewrite Ht, lookup_empty. discriminate.
  - rewrite Hs. unfold isLoading. rewrite Hc. reflexivity.
  - rewrite Hl. reflexivity.
  - rewrite Hl, Hc. reflexivity.
Qed.

Lemma Inv_handle_nonzero st : Inv st -> stateTimeout st <> Some 0%nat.
Proof. intros I E. destruct (inv_handle st I 0%nat E). lia. Qed.

Lemma Inv_not_loading_no_flight st :
  Inv st -> currentState st <> LOADING ->
  forall id t, timers st !! id = Some t -> is_flight (callback t) = false.
Proof.
  intros I Hn id t Hl. destruct (is_flight (callback t)) eqn:Hf; [|reflexivity].
  destruct (inv_flight st I id t Hl Hf). congruence.
Qed.

Lemma Inv_handleSubmit j st : Inv st -> Inv (handleSubmit j st).
Proof.
  intros I. destruct (isSubmitting st || isLoading st) eqn:G.
  { rewrite handleSubmit_blocked; auto. }
  destruct (handleSubmit_accepted j st G) as (Hc & Hs & Ht & Hn & Hto & Hl & _ & _).
  apply orb_false_iff in G as [G1 G2].
  assert (Hnl : currentState st <> LOADING).
  { unfold isLoading in G2. destruct (currentState st); congruence. }
  pose proof (Inv_handle_nonzero st I) as H0.
  assert (Hto' : stateTimeout (handleSubmit j st) = None).
  { rewrite Hto. destruct (stateTimeout st) as [[|?]|]; congruence. }
  assert (Hold : forall id t, pending_after_clear st !! id = Some t ->
                              is_flight (callback t) = false).
  { intros id t Hp. apply pending_after_clear_sub in Hp.
    exact (Inv_not_loading_no_flight st I Hnl id t Hp). }
  assert (Hnew : forall id t, timers (handleSubmit j st) !! id = Some t ->
                   is_flight (callback t) = true -> id = next_timer st).
  { intros id t. rewrite Ht.
    intros [[<- <-]|[Hne Hp]]%lookup_insert_Some Hf; [reflexivity|].
    rewrite (Hold id t Hp) in Hf. discriminate. }
  constructor.
  - rewrite Hn. lia.
  - intros id t. rewrite Ht, Hn.
    intros [[<- <-]|[Hne Hp]]%lookup_insert_Some.
    + pose proof (inv_next st I). lia.
    + apply pending_after_clear_sub in Hp.
      pose proof (inv_ids st I id t Hp). lia.
  - rewrite Hto'. discriminate.
  - rewrite Hto'. discriminate.
  - intros id t Hp Hf. split; [exact Hc|].
    intros id' t' Hp' Hf'.
    rewrite (Hnew id t Hp Hf), (Hnew id' t' Hp' Hf'). reflexivity.
  - intros _. eexists _, _. rewrite Ht. split; [apply lookup_insert_eq|].
    reflexivity.
  - intros id t. rewrite Ht.
    intros [[<- <-]|[Hne Hp]]%lookup_insert_Some Hcb; [discriminate|].
    exfalso. revert Hcb.
    apply (pending_after_clear_no_display st H0 (fun i u Hi Hu =>
             proj1 (inv_display st I i u Hi Hu)) id t Hp).
  - rewrite Hs. unfold isLoading. rewrite Hc. reflexivity.
  - rewrite Hl. apply (follows_cons _ (currentState st)).
    + apply (inv_head st I).
    + destruct (currentState st); try reflexivity. congruence.
    + apply (inv_log st I).
  - rewrite Hl, Hc. reflexivity.
Qed.

(** The timers left once timer [id] has run and [setState] has cancelled
    the recorded one are timers that were pending before, other than [id]. *)
Lemma pending_after_fire st id i u :
  pending_after_clear (clearTimeout id st) !! i = Some u ->
  i <> id /\ timers st !! i = Some u.
Proof.
  intros H. apply pending_after_clear_sub in H.
  unfold clearTimeout in H. simpl in H.
  apply lookup_delete_Some in H as [Hne H]. auto.
Qed.

(** The settlement of the in-flight submission: the button leaves the
    loading state for the success or the error state. *)
Lemma Inv_settle st id t st' state T1 T2 :
  Inv st -> timers st !! id = Some t -> is_flight (callback t) = true ->
  state = SUCCESS \/ state = ERROR ->
  currentState st' = state -> isSubmitting st' = false ->
  timers st' =
    <[S (next_timer st) := T2]>
      (<[next_timer st := T1]> (pending_after_clear (clearTimeout id st))) ->
  callback T1 = ToIdle ->
  is_flight (callback T2) = false -> callback T2 <> ToIdle ->
  next_timer st' = S (S (next_timer st)) ->
  stateTimeout st' = Some (next_timer st) ->
  state_log st' = state :: state_log st ->
  Inv st'.
Proof.
  intros I Hid Hfl Hstate Hc Hs Ht HT1 HT2 HT2' Hn Hto Hl.
  destruct (inv_flight st I id t Hid Hfl) as [Hload Huniq].
  assert (Hold : forall i u,
             pending_after_clear (clearTimeout id st) !! i = Some u ->
             is_flight (callback u) = false /\ callback u <> ToIdle
             /\ (1 <= i < next_timer st)%nat).
  { intros i u Hp. apply pending_after_fire in Hp as [Hne Hp].
    split; [|split].
    - destruct (is_flight (callback u)) eqn:Hf; [|reflexivity].
      destruct (Hne (Huniq i u Hp Hf)).
    - intros Hcb. destruct (inv_display st I i u Hp Hcb) as [_ [E|E]];
        congruence.
    - exact (inv_ids st I i u Hp). }
  assert (Hlook : forall i u, timers st' !! i = Some u ->
             (i = S (next_timer st) /\ u = T2)
             \/ (i = next_timer st /\ u = T1)
             \/ pending_after_clear (clearTimeout id st) !! i = Some u).
  { intros i u. rewrite Ht.
    intros [[<- <-]|[_ [[<- <-]|[_ Hp]]%lookup_insert_Some]]%lookup_insert_Some;
      auto. }
  pose proof (inv_next st I) as Hnext.
  constructor.
  - rewrite Hn. lia.
  - intros i u Hp. rewrite Hn.
    destruct (Hlook i u Hp) as [[-> _]|[[-> _]|Hp']]; try lia.
    destruct (Hold i u Hp') as (_ & _ & ?). lia.
  - intros i. rewrite Hto, Hn. intros [= <-]. lia.
  - intros i u. rewrite Hto. intros [= <-] Hp.
    destruct (Hlook _ u Hp) as [[E _]|[[_ ->]|Hp']]; [lia | exact HT1 |].
    destruct (Hold _ u Hp') as (_ & _ & ?). lia.
  - intros i u Hp Hf. exfalso.
    destruct (Hlook i u Hp) as [[_ ->]|[[_ ->]|Hp']].
    + congruence.
    + rewrite HT1 in Hf. discriminate.
    + destruct (Hold i u Hp') as (E & _ & _). congruence.
  - rewrite Hc. destruct Hstate; congruence.
  - intros i u Hp Hcb. rewrite Hto, Hc. split; [|exact Hstate].
    destruct (Hlook i u Hp) as [[_ ->]|[[-> _]|Hp']].
    + congruence.
    + reflexivity.
    + destruct (Hold i u Hp') as (_ & E & _). congruence.
  - rewrite Hs. unfold isLoading. rewrite Hc. destruct Hstate; subst; reflexivity.
  - rewrite Hl. apply (follows_cons _ LOADING).
    + rewrite (inv_head st I). congruence.
    + destruct Hstate; subst; reflexivity.
    + apply (inv_log st I).
  - rewrite Hl, Hc. reflexivity.
Qed.

Lemma finish_success_view st :
  let st' := set_isSubmitting false (handleSuccess st) in
  currentState st' = SUCCESS
  /\ isSubmitting st' = false
  /\ timers st' =
       <[S (next_timer st) :=
           {| due := now st + SUCCESS_DISPLAY_DURATION; callback := FormReset |}]>
         (<[next_timer st :=
              {| due := now st + SUCCESS_DISPLAY_DURATION; callback := ToIdle |}]>
            (pending_after_clear st))
  /\ next_timer st' = S (S (next_timer st))
  /\ stateTimeout st' = Some (next_timer st)
  /\ state_log st' = SUCCESS :: state_log st
  /\ sim_calls st' = sim_calls st
  /\ now st' = now st.
Proof.
  destruct st as [? ? ? [[|?]|] ? ? ? ? ? ? ? ? ? ?];
    repeat split; vm_compute; reflexivity.
Qed.

Lemma finish_error_view msg st :
  let st' := set_isSubmitting false (handleError msg st) in
  currentState st' = ERROR
  /\ isSubmitting st' = false
  /\ timers st' =
       <[S (next_timer st) :=
           {| due := now st + ERROR_DISPLAY_DURATION;
              callback := RemoveBanner (next_banner st) |}]>
         (<[next_timer st :=
              {| due := now st + ERROR_DISPLAY_DURATION; callback := ToIdle |}]>
            (pending_after_clear st))
  /\ next_timer st' = S (S (next_timer st))
  /\ stateTimeout st' = Some (next_timer st)
  /\ state_log st' = ERROR :: state_log st
  /\ sim_calls st' = sim_calls st
  /\ now st' = now st.
Proof.
  destruct st as [? ? ? [[|?]|] ? ? ? ? ? ? ? ? ? ?];
    repeat split; vm_compute; reflexivity.
Qed.

Lemma clearTimeout_view id st :
  let st' := clearTimeout id st in
  currentState st' = currentState st
  /\ isSubmitting st' = isSubmitting st
  /\ timers st' = delete id (timers st)
  /\ next_timer st' = next_timer st
  /\ stateTimeout st' = stateTimeout st
  /\ state_log st' = state_log st
  /\ sim_calls st' = sim_calls st
  /\ now st' = now st
  /\ next_banner st' = next_banner st.
Proof. repeat split. Qed.

Lemma Inv_success st id t :
  Inv st -> timers st !! id = Some t -> is_flight (callback t) = true ->
  Inv (set_isSubmitting false (handleSuccess (clearTimeout id st))).
Proof.
  intros I Hid Hf.
  destruct (finish_success_view (clearTimeout id st))
    as (Hc & Hs & Ht & Hn & Hto & Hl & _ & _).
  set (st' := set_isSubmitting false (handleSuccess (clearTimeout id st))) in *.
  clearbody st'.
  exact (Inv_settle st id t st' SUCCESS _ _ I Hid Hf (or_introl eq_refl)
           Hc Hs Ht eq_refl eq_refl ltac:(discriminate) Hn Hto Hl).
Qed.

Lemma Inv_error st id t msg :
  Inv st -> timers st !! id = Some t -> is_flight (callback t) = true ->
  Inv (set_isSubmitting false (handleError msg (clearTimeout id st))).
Proof.
  intros I Hid Hf.
  destruct (finish_error_view msg (clearTimeout id st))
    as (Hc & Hs & Ht & Hn & Hto & Hl & _ & _).
  set (st' := set_isSubmitting false (handleError msg (clearTimeout id st))) in *.
  clearbody st'.
  exact (Inv_settle st id t st' ERROR _ _ I Hid Hf (or_intror eq_refl)
           Hc Hs Ht eq_refl eq_refl ltac:(discriminate) Hn Hto Hl).
Qed.

(** The state-display timer runs: the button returns to idle. *)
Lemma Inv_to_idle st id t :
  Inv st -> timers st !! id = Some t -> callback t = ToIdle ->
  Inv (setState IDLE no_options (clearTimeout id st)).
Proof.
  intros I Hid Hcb.
  destruct (inv_display st I id t Hid Hcb) as [Hto Hstate].
  set (st0 := clearTimeout id st).
  pose proof (setState_currentState IDLE no_options st0) as Hc.
  pose proof (setState_log IDLE no_options st0) as Hl.
  pose proof (setState_isSubmitting IDLE no_options st0) as Hs.
  pose proof (setState_timers IDLE no_options st0) as Ht.
  pose proof (setState_next_timer IDLE no_options st0) as Hn.
  pose proof (setState_stateTimeout IDLE no_options st0) as Hto'.
  cbv beta iota in Ht, Hn, Hto'.
  change (stateTimeout st0) with (stateTimeout st) in Hto'.
  change (next_timer st0) with (next_timer st) in Hn.
  change (isSubmitting st0) with (isSubmitting st) in Hs.
  change (state_log st0) with (state_log st) in Hl.
  rewrite Hto in Hto'.
  destruct (inv_handle st I id Hto) as [Hpos _].
  destruct id as [|k]; [lia|].
  assert (Hold : forall i u, pending_after_clear st0 !! i = Some u ->
                   i <> S k /\ timers st !! i = Some u).
  { intros i u. apply pending_after_fire. }
  assert (Hnl : currentState st <> LOADING)
    by (destruct Hstate; congruence).
  set (st' := setState IDLE no_options st0) in *. clearbody st'.
  constructor.
  - rewrite Hn. apply (inv_next st I).
  - intros i u. rewrite Ht, Hn. intros Hp.
    destruct (Hold i u Hp) as [_ Hp']. exact (inv_ids st I i u Hp').
  - rewrite Hto'. discriminate.
  - rewrite Hto'. discriminate.
  - intros i u. rewrite Ht. intros Hp Hf. exfalso.
    destruct (Hold i u Hp) as [_ Hp'].
    rewrite (Inv_not_loading_no_flight st I Hnl i u Hp') in Hf. discriminate.
  - rewrite Hc. discriminate.
  - intros i u. rewrite Ht. intros Hp Hcb'. exfalso.
    destruct (Hold i u Hp) as [Hne Hp'].
    destruct (inv_display st I i u Hp' Hcb') as [E _]. congruence.
  - rewrite Hs, (inv_submitting st I). unfold isLoading. rewrite Hc.
    destruct Hstate as [-> | ->]; reflexivity.
  - rewrite Hl. apply (follows_cons _ (currentState st)).
    + apply (inv_head st I).
    + destruct Hstate as [-> | ->]; reflexivity.
    + apply (inv_log st I).
  - rewrite Hl, Hc. reflexivity.
Qed.

(** A timer that neither carries a submission nor displays a state runs,
    or the resolved submission waits for the minimum loading time: the
    button state, the flag and the recorded handle stay as they are. *)
Lemma Inv_same_state st st' :
  Inv st ->
  currentState st' = currentState st -> isSubmitting st' = isSubmitting st ->
  stateTimeout st' = stateTimeout st -> state_log st' = state_log st ->
  (next_timer st <= next_timer st')%nat ->
  (forall i u, timers st' !! i = Some u -> (1 <= i < next_timer st')%nat) ->
  (forall i u, timers st' !! i = Some u -> callback u = ToIdle ->
               timers st !! i = Some u) ->
  (forall i u, stateTimeout st = Some i -> timers st' !! i = Some u ->
               timers st !! i = Some u) ->
  (forall i u, timers st' !! i = Some u -> is_flight (callback u) = true ->
     currentState st = LOADING
     /\ forall i' u', timers st' !! i' = Some u' ->
          is_flight (callback u') = true -> i' = i) ->
  (currentState st = LOADING ->
   exists i u, timers st' !! i = Some u /\ is_flight (callback u) = true) ->
  Inv st'.
Proof.
  intros I Hc Hs Hto Hl Hn Hids Hdisp Hhandle Hflight Hload.
  constructor.
  - pose proof (inv_next st I). lia.
  - exact Hids.
  - intros i. rewrite Hto. intros E. pose proof (inv_handle st I i E). lia.
  - intros i u. rewrite Hto. intros E Hp.
    exact (inv_handle_display st I i u E (Hhandle i u E Hp)).
  - rewrite Hc. exact Hflight.
  - rewrite Hc. exact Hload.
  - intros i u Hp Hcb. rewrite Hto, Hc.
    exact (inv_display st I i u (Hdisp i u Hp Hcb) Hcb).
  - rewrite Hs, (inv_submitting st I). unfold isLoading. rewrite Hc. reflexivity.
  - rewrite Hl. apply (inv_log st I).
  - rewrite Hl, Hc. apply (inv_head st I).
Qed.

(** A form-reset or banner timer runs. *)
Lemma Inv_housekeeping st st' id t :
  Inv st -> timers st !! id = Some t ->
  is_flight (callback t) = false -> callback t <> ToIdle ->
  currentState st' = currentState st -> isSubmitting st' = isSubmitting st ->
  stateTimeout st' = stateTimeout st -> state_log st' = state_log st ->
  next_timer st' = next_timer st -> timers st' = delete id (timers st) ->
  Inv st'.
Proof.
  intros I Hid Hnf Hnd Hc Hs Hto Hl Hn Ht.
  assert (Hsub : forall i u, timers st' !! i = Some u ->
                   i <> id /\ timers st !! i = Some u).
  { intros i u. rewrite Ht. intros [Hne Hp]%lookup_delete_Some. auto. }
  apply (Inv_same_state st st' I Hc Hs Hto Hl).
  - lia.
  - intros i u Hp. rewrite Hn. exact (inv_ids st I i u (proj2 (Hsub i u Hp))).
  - intros i u Hp _. exact (proj2 (Hsub i u Hp)).
  - intros i u _ Hp. exact (proj2 (Hsub i u Hp)).
  - intros i u Hp Hf. destruct (Hsub i u Hp) as [_ Hp'].
    destruct (inv_flight st I i u Hp' Hf) as [Hload Huniq].
    split; [exact Hload|]. intros i' u' Hq Hf'.
    exact (Huniq i' u' (proj2 (Hsub i' u' Hq)) Hf').
  - intros Hload. destruct (inv_loading st I Hload) as (i & u & Hp & Hf).
    exists i, u. split; [|exact Hf]. rewrite Ht.
    apply lookup_delete_Some. split; [|exact Hp].
    intros <-. congruence.
Qed.

(** The submission has resolved early and waits in [delay]. *)
Lemma Inv_min_delay st id t d :
  Inv st -> timers st !! id = Some t -> is_flight (callback t) = true ->
  Inv (setTimeout MinDelayDone d (clearTimeout id st)).2.
Proof.
  intros I Hid Hf.
  destruct (inv_flight st I id t Hid Hf) as [Hload Huniq].
  set (st' := (setTimeout MinDelayDone d (clearTimeout id st)).2).
  assert (Ht : timers st' =
                 <[next_timer st := {| due := now st + d; callback := MinDelayDone |}]>
                   (delete id (timers st))) by reflexivity.
  assert (Hn : next_timer st' = S (next_timer st)) by reflexivity.
  assert (Hlook : forall i u, timers st' !! i = Some u ->
             (i = next_timer st /\ callback u = MinDelayDone)
             \/ (i <> id /\ timers st !! i = Some u)).
  { intros i u. rewrite Ht.
    intros [[<- <-]|[_ [Hne Hp]%lookup_delete_Some]]%lookup_insert_Some; auto. }
  assert (Hfl : forall i u, timers st' !! i = Some u ->
                  is_flight (callback u) = true -> i = next_timer st).
  { intros i u Hp Hfu. destruct (Hlook i u Hp) as [[-> _]|[Hne Hp']]; auto.
    destruct (Hne (Huniq i u Hp' Hfu)). }
  apply (Inv_same_state st st' I); try reflexivity.
  - rewrite Hn. lia.
  - intros i u Hp. rewrite Hn. pose proof (inv_next st I).
    destruct (Hlook i u Hp) as [[-> _]|[_ Hp']]; [lia|].
    pose proof (inv_ids st I i u Hp'). lia.
  - intros i u Hp Hcb. destruct (Hlook i u Hp) as [[_ E]|[_ Hp']]; [congruence|].
    exact Hp'.
  - intros i u E Hp. destruct (Hlook i u Hp) as [[-> _]|[_ Hp']]; [|exact Hp'].
    pose proof (inv_handle st I _ E). lia.
  - intros i u Hp Hfu. split; [exact Hload|]. intros i' u' Hq Hfu'.
    rewrite (Hfl i u Hp Hfu), (Hfl i' u' Hq Hfu'). reflexivity.
  - intros _. eexists _, _. rewrite Ht. split; [apply lookup_insert_eq|].
    reflexivity.
Qed.

(** Every event preserves the invariant. *)
Lemma Inv_step st e st' : Inv st -> step st e = Some st' -> Inv st'.
Proof.
  intros I. destruct e as [j|id rnd|dt]; simpl.
  - destruct (j <? 2000); [|discriminate]. intros [= <-].
    apply Inv_handleSubmit, I.
  - destruct (timers st !! id) as [t|] eqn:Hid; [|discriminate].
    destruct (due t <=? now st); [|discriminate]. intros [= <-].
    destruct (callback t) as [|start| | |k] eqn:Hcb; simpl.
    + exact (Inv_to_idle st id t I Hid Hcb).
    + assert (Hf : is_flight (callback t) = true) by (rewrite Hcb; reflexivity).
      unfold submission_settled. destruct rnd.
      * destruct (_ <? _).
        -- exact (Inv_min_delay st id t _ I Hid Hf).
        -- exact (Inv_success st id t I Hid Hf).
      * exact (Inv_error st id t _ I Hid Hf).
    + assert (Hf : is_flight (callback t) = true) by (rewrite Hcb; reflexivity).
      exact (Inv_success st id t I Hid Hf).
    + apply (Inv_housekeeping st _ id t I Hid); try reflexivity;
        rewrite Hcb; [reflexivity | discriminate].
    + apply (Inv_housekeeping st _ id t I Hid); try reflexivity;
        rewrite Hcb; [reflexivity | discriminate].
  - intros [= <-].
    apply (Inv_same_state st _ I); simpl;
      [reflexivity | reflexivity | reflexivity | reflexivity | lia
      | exact (inv_ids st I) | auto | auto
      | exact (inv_flight st I) | exact (inv_loading st I)].
Qed.

Lemma Inv_run es : forall st st', Inv st -> run st es = Some st' -> Inv st'.
Proof.
  induction es as [|e es IH]; simpl; intros st st' I.
  - intros [= <-]. exact I.
  - destruct (step st e) as [st1|] eqn:Hs; [|discriminate].
    apply IH. exact (Inv_step st e st1 I Hs).
Qed.

(** The invariant holds in every state the page can reach. *)
Lemma Inv_reachable b es st : run (construct b) es = Some st -> Inv st.
Proof. apply Inv_run, Inv_construct. Qed.

(** *** The button's state machine *)

(** While the button is loading, a submit event changes nothing: no second
    simulated call starts and the state stays loading. *)
Lemma resubmit_while_loading_is_noop j st :
  currentState st = LOADING -> handleSubmit j st = st.
Proof.
  intros H. apply handleSubmit_blocked. unfold isLoading. rewrite H.
  apply orb_true_r.
Qed.

(** In every reachable state a pending state-display timer is the one the
    manager has recorded for the success or error state now on display, so
    no timer of an earlier state can return the button to idle. *)
Lemma display_timer_is_current b es st id t :
  run (construct b) es = Some st ->
  timers st !! id = Some t -> callback t = ToIdle ->
  stateTimeout st = Some id
  /\ (currentState st = SUCCESS \/ currentState st = ERROR).
Proof. intros Hr. apply (inv_display st (Inv_reachable b es st Hr)). Qed.

(** C1 as stated fails: after a failed submission the error state re-enables
    the button, and a submit during the error display starts a second
    submission from the error state, not from idle.  A submit event
    delivered during the success display is accepted in the same way. *)
Lemma submission_starts_from_error_state :
  (currentState <$> run (construct plain_button)
                      [Submit 0; Elapse 1000; Fire 1 false; Elapse 500])
    = Some ERROR
  /\ ((fun st => disabled (button st))
        <$> run (construct plain_button)
              [Submit 0; Elapse 1000; Fire 1 false; Elapse 500])
    = Some false
  /\ (currentState <$> run (construct plain_button) retry_trace) = Some LOADING
  /\ (sim_calls <$> run (construct plain_button) retry_trace) = Some 2%nat
  /\ (state_log <$> run (construct plain_button) retry_trace)
      = Some [LOADING; ERROR; LOADING; IDLE]
  /\ follows spec_edge [LOADING; ERROR; LOADING; IDLE] = false
  /\ (state_log <$> run (construct plain_button)
                      [Submit 0; Elapse 1000; Fire 1 true; Elapse 500; Submit 0])
      = Some [LOADING; SUCCESS; LOADING; IDLE]
  /\ follows spec_edge [LOADING; SUCCESS; LOADING; IDLE] = false.
Proof. vm_compute. repeat split. Qed.

(** C1 (amended).  In every reachable state of the interactions module the
    logged button states follow
    idle -submit-> loading -resolve-> success or error -timeout-> idle,
    extended by the edges error -submit-> loading and
    success -submit-> loading: loading is entered only by an accepted
    submit, success and error only from loading, idle only from success or
    error.  A simulated submission is in flight exactly while the button is
    loading, and never more than one.  A submit is accepted exactly when
    the button is not loading; it then enters loading once and starts one
    simulated call, and while loading it is ignored. *)
Theorem button_follows_code_diagram
    (b : Button) (es : list Event) (st : State) :
  run (construct b) es = Some st ->
  follows code_edge (state_log st) = true
  /\ head (state_log st) = Some (currentState st)
  /\ (currentState st = LOADING <->
      exists id t, timers st !! id = Some t /\ is_flight (callback t) = true)
  /\ (forall id t id' t',
        timers st !! id = Some t -> is_flight (callback t) = true ->
        timers st !! id' = Some t' -> is_flight (callback t') = true ->
        id' = id)
  /\ forall j,
       if isLoading st then handleSubmit j st = st
       else
         state_log (handleSubmit j st) = LOADING :: state_log st
         /\ currentState (handleSubmit j st) = LOADING
         /\ sim_calls (handleSubmit j st) = S (sim_calls st).
Proof.
  intros Hr. pose proof (Inv_reachable b es st Hr) as I.
  split; [apply (inv_log st I)|]. split; [apply (inv_head st I)|].
  split; [|split].
  - split; [apply (inv_loading st I)|].
    intros (id & t & Hp & Hf). apply (inv_flight st I id t Hp Hf).
  - intros id t id' t' Hp Hf Hp' Hf'.
    destruct (inv_flight st I id t Hp Hf) as [_ Hu]. exact (Hu id' t' Hp' Hf').
  - intros j. destruct (isLoading st) eqn:Hl.
    + apply handleSubmit_blocked. rewrite Hl. apply orb_true_r.
    + assert (G : isSubmitting st || isLoading st = false)
        by (rewrite (inv_submitting st I), Hl; reflexivity).
      destruct (handleSubmit_accepted j st G)
        as (Hc & _ & _ & _ & _ & Hlog & Hsim & _).
      auto.
Qed.

(** The premise holds on the run with a retry from the error state. *)
Lemma button_follows_code_diagram_witness :
  exists st, run (construct plain_button) retry_trace = Some st
    /\ follows code_edge (state_log st) = true
    /\ head (state_log st) = Some (currentState st).
Proof.
  destruct (run (construct plain_button) retry_trace) as [st|] eqn:Hr.
  - exists st. split; [reflexivity|].
    destruct (button_follows_code_diagram plain_button retry_trace st Hr)
      as (H1 & H2 & _).
    split; assumption.
  - vm_compute in Hr. discriminate.
Defined.

(** *** Returning to idle *)

Lemma setState_static state o st : static (setState state o st) = static st.
Proof.
  destruct st as [[] ? ? [[|?]|] ? ? ? ? ? ? ? ? ? ?]; destruct state;
    vm_compute; reflexivity.
Qed.

Lemma set_isSubmitting_static v st : static (set_isSubmitting v st) = static st.
Proof. reflexivity. Qed.

Lemma clearTimeout_static id st : static (clearTimeout id st) = static st.
Proof. reflexivity. Qed.

Lemma setTimeout_static cb d st : static (setTimeout cb d st).2 = static st.
Proof. reflexivity. Qed.

Lemma set_form_static bs nb rs ds st : static (set_form bs nb rs ds st) = static st.
Proof. reflexivity. Qed.

Lemma simulateSubmission_static a j st :
  static (simulateSubmission a j st) = static st.
Proof. reflexivity. Qed.

Lemma handleSubmit_static j st : static (handleSubmit j st) = static st.
Proof.
  unfold handleSubmit. destruct (_ || _); [reflexivity|].
  rewrite simulateSubmission_static, setState_static.
  apply set_isSubmitting_static.
Qed.

Lemma handleSuccess_static st : static (handleSuccess st) = static st.
Proof.
  unfold handleSuccess, dispatchEvent.
  rewrite set_form_static, setTimeout_static. apply setState_static.
Qed.

Lemma handleError_static msg st : static (handleError msg st) = static st.
Proof.
  unfold handleError, dispatchEvent, showFormError.
  rewrite set_form_static, setTimeout_static, set_form_static.
  apply setState_static.
Qed.

Lemma run_callback_static cb rnd st : static (run_callback cb rnd st) = static st.
Proof.
  destruct cb as [|start| | |k]; unfold run_callback.
  - apply setState_static.
  - unfold submission_settled. destruct rnd; [destruct (_ <? _)|].
    + apply setTimeout_static.
    + rewrite set_isSubmitting_static. apply handleSuccess_static.
    + rewrite set_isSubmitting_static. apply handleError_static.
  - rewrite set_isSubmitting_static. apply handleSuccess_static.
  - unfold clearFormErrors. rewrite !set_form_static. reflexivity.
  - apply set_form_static.
Qed.

Lemma step_static st e st' : step st e = Some st' -> static st' = static st.
Proof.
  destruct e as [j|id rnd|dt]; unfold step.
  - destruct (j <? 2000); [|discriminate]. intros [= <-].
    apply handleSubmit_static.
  - destruct (timers st !! id) as [t|]; [|discriminate].
    destruct (due t <=? now st); [|discriminate]. intros [= <-].
    rewrite run_callback_static. apply clearTimeout_static.
  - intros [= <-]. reflexivity.
Qed.

Lemma run_static es : forall st st', run st es = Some st' -> static st' = static st.
Proof.
  induction es as [|e es IH]; simpl; intros st st'.
  - intros [= <-]. reflexivity.
  - destruct (step st e) as [st1|] eqn:Hs; [|discriminate].
    intros Hr. rewrite (IH st1 st' Hr). exact (step_static st e st1 Hs).
Qed.

(** The button [setState(idle)] leaves behind is a function of the static
    parts alone. *)
Lemma setState_idle_button o st :
  button (setState IDLE o st) =
    {| cls_morphing := (static st).1.2;
       cls_idle := true; cls_loading := false; cls_success := false;
       cls_error := false;
       disabled := false; aria_busy := Some "false"; aria_live := Some "off";
       innerHTML :=
         match (static st).1.1 with
         | Some c => if content_falsy c then (static st).2 else c
         | None => (static st).2
         end;
       data_original_content := (static st).1.1 |}.
Proof.
  destruct st as [[] ? ? [[|?]|] ? ? ? ? ? ? ? ? ? ?]; reflexivity.
Qed.

Lemma construct_static b :
  static (construct b)
  = (match data_original_content b with
     | Some c => Some c
     | None => Some (innerHTML b)
     end, true, innerHTML b).
Proof. destruct b as [? ? ? ? ? ? ? ? ? []]; reflexivity. Qed.

Lemma construct_button b :
  button (construct b) =
    {| cls_morphing := true;
       cls_idle := true; cls_loading := false; cls_success := false;
       cls_error := false;
       disabled := false; aria_busy := Some "false"; aria_live := Some "off";
       innerHTML := idle_content b (innerHTML b);
       data_original_content :=
         match data_original_content b with
         | Some c => Some c
         | None => Some (innerHTML b)
         end |}.
Proof.
  destruct b as [? ? ? ? ? ? ? ? inner [c|]]; unfold idle_content; simpl.
  - reflexivity.
  - unfold construct, setState, setIdleState. simpl.
    destruct (content_falsy inner); reflexivity.
Qed.

(** C10 (amended).  In every reachable state of the manager constructed on
    a button, [setState(s)] followed by [setState(idle)] puts the button
    back exactly as construction left it: enabled, aria-busy false, and
    showing the idle content.  The idle content is the button's
    [data-original-content] attribute when the button already carried a
    non-empty one at construction, and the inner content captured at
    construction otherwise. *)
Theorem idle_round_trip
    (b : Button) (es : list Event) (st : State)
    (state : ButtonState) (o : Options) :
  run (construct b) es = Some st ->
  let st' := setState IDLE no_options (setState state o st) in
  button st' = button (construct b)
  /\ disabled (button st') = false
  /\ aria_busy (button st') = Some "false"
  /\ innerHTML (button st') = idle_content b (innerHTML b)
  /\ originalContent (construct b) = innerHTML b
  /\ currentState st' = IDLE.
Proof.
  intros Hr st'.
  assert (Hs : static (setState state o st)
               = (match data_original_content b with
                  | Some c => Some c
                  | None => Some (innerHTML b)
                  end, true, innerHTML b)).
  { rewrite setState_static, (run_static es _ _ Hr). apply construct_static. }
  assert (Hb : button st' = button (construct b)).
  { unfold st'. rewrite setState_idle_button, Hs, construct_button.
    unfold idle_content. simpl.
    destruct (data_original_content b) as [c|]; [reflexivity|].
    destruct (content_falsy (innerHTML b)); reflexivity. }
  split; [exact Hb|]. rewrite Hb, construct_button. simpl.
  split; [reflexivity|]. split; [reflexivity|]. split; [reflexivity|].
  split.
  - pose proof (construct_static b) as Hc. unfold static in Hc.
    congruence.
  - reflexivity.
Qed.

(** The premise holds after a failed submission and a retry: from the
    loading state of the retry, showing success and returning to idle
    restores the text the plain button had. *)
Lemma idle_round_trip_witness :
  exists st, run (construct plain_button) retry_trace = Some st
    /\ innerHTML (button (setState IDLE no_options
                             (setState SUCCESS no_options st)))
       = Markup "Send Message".
Proof.
  destruct (run (construct plain_button) retry_trace) as [st|] eqn:Hr.
  - exists st. split; [reflexivity|].
    destruct (idle_round_trip plain_button retry_trace st SUCCESS no_options Hr)
      as (_ & _ & _ & Hi & _).
    exact Hi.
  - vm_compute in Hr. discriminate.
Defined.

(** C10 as stated fails on a button that already carries the attribute:
    the content captured at construction is "Submit", but returning to
    idle shows the attribute's "Send". *)
Lemma idle_shows_attribute_not_captured_content :
  originalContent (construct preset_button) = Markup "Submit"
  /\ innerHTML
       (button (setState IDLE no_options
                  (setState LOADING no_options (construct preset_button))))
     = Markup "Send"
  /\ Markup "Send" <> Markup "Submit".
Proof. split; [|split]; [reflexivity | reflexivity | discriminate]. Qed.

End InteractionsFacts.

(* ===================================================================== *)
(** ** Submission in the main script *)
(* ===================================================================== *)

Module MainSubmissionFacts.
Import JsString MainForm.

Section Browser.

Context `{HtmlText}.

(** [handleFormSubmit] has no re-entry check: whenever the form validates,
    it starts a simulated call, whatever the state of the button. *)
Lemma handleFormSubmit_starts_call st :
  (validateForm (clearAllErrors (form st))).1 = Returned true ->
  sim_calls (handleFormSubmit st) = S (sim_calls st)
  /\ timers (handleFormSubmit st)
     = <[next_timer st :=
           {| due := now st + SIMULATED_LATENCY; callback := SimSettle |}]>
         (timers st).
Proof.
  intros Hv. unfold handleFormSubmit.
  destruct (validateForm (clearAllErrors (form st))) as [ok fm].
  simpl in Hv. subst ok. split; reflexivity.
Qed.

(** C2, on the main script: with the correctly filled form, the first
    submit puts the button into the loading state with one simulated call
    in flight; a second submit event delivered in that state starts a
    second simulated call. *)
Theorem main_resubmit_while_loading_starts_second_call :
  let st1 := handleFormSubmit filled_page in
  (b_loading <$> button st1) = Some true
  /\ (b_disabled <$> button st1) = Some true
  /\ sim_calls st1 = 1%nat /\ in_flight st1 = 1%nat
  /\ (b_loading <$> button (handleFormSubmit st1)) = Some true
  /\ sim_calls (handleFormSubmit st1) = 2%nat
  /\ in_flight (handleFormSubmit st1) = 2%nat.
Proof. vm_compute. repeat split. Qed.

(** C5, on the main script: the timer armed by the error state is never
    cancelled.  After a retry it is still pending while the button is
    loading again, and when it runs it puts the button back to its default
    state although the second submission is still in flight. *)
Theorem main_stale_timer_reverts_loading_button :
  (timers <$> run filled_page retry_trace) =
    Some (<[2%nat := {| due := 5000; callback := AfterError |}]>
            (<[3%nat := {| due := 5500; callback := SimSettle |}]> ∅))
  /\ (now <$> run filled_page retry_trace) = Some 5000
  /\ ((fun st => b_loading <$> button st) <$> run filled_page retry_trace)
     = Some (Some true)
  /\ ((fun st => b_loading <$> button st)
        <$> run filled_page (retry_trace ++ [Fire 2 true]))
     = Some (Some false)
  /\ ((fun st => b_disabled <$> button st)
        <$> run filled_page (retry_trace ++ [Fire 2 true]))
     = Some (Some false)
  /\ (in_flight <$> run filled_page (retry_trace ++ [Fire 2 true]))
     = Some 1%nat.
Proof. vm_compute. repeat split. Qed.

End Browser.

End MainSubmissionFacts.

(* ===================================================================== *)
(** ** Smooth scroll in the main script *)
(* ===================================================================== *)

Module MainScrollFacts.
Import MainScroll.

(** C8.  A click on an in-page link whose fragment names no element of the
    document suppresses the default navigation and writes one warning to
    the console; nothing else happens: no scroll is requested, no URL is
    pushed, focus stays where it is and no element is changed. *)
Theorem missing_target_click_only_logs (p : Page) (target : string) :
  getElementById target p = None ->
  handleSmoothScroll (Some ("#" +:+ target)) p
  = (true,
     {| elements := elements p; scroll_requests := scroll_requests p;
        pushed := pushed p; has_pushState := has_pushState p;
        focused := focused p;
        console := {| level := Warn; msg := "Smooth scroll target not found";
                      targetId := target |} :: console p |}).
Proof.
  intros H. unfold handleSmoothScroll.
  change ("#" +:+ target) with (String "#" target). cbv beta iota.
  rewrite H. reflexivity.
Qed.

(** The premise holds for a link to "#pricing" on a page whose sections are
    "courses" and "contact". *)
Lemma missing_target_click_only_logs_witness :
  let r := handleSmoothScroll (Some "#pricing") two_sections in
  scroll_requests r.2 = [] /\ pushed r.2 = [] /\ focused r.2 = None
  /\ elements r.2 = elements two_sections.
Proof.
  intros r. unfold r.
  change "#pricing" with ("#" +:+ "pricing").
  rewrite (missing_target_click_only_logs two_sections "pricing" eq_refl).
  repeat split.
Defined.

(** For comparison: a link to an existing section scrolls to 80 pixels
    above it, pushes the fragment and moves focus to the section. *)
Lemma existing_target_click_scrolls :
  let r := handleSmoothScroll (Some "#contact") two_sections in
  r.1 = true /\ scroll_requests r.2 = [2320%Z] /\ pushed r.2 = ["#contact"]
  /\ focused r.2 = Some 1%nat.
Proof. repeat split. Qed.

End MainScrollFacts.

(* ===================================================================== *)
(** ** Reveal animations *)
(* ===================================================================== *)

Module AnimationsFacts.
Import Animations.

Lemma idle_step st e st' :
  idle st ->
  no_animations st || (reduced_motion st && keeps_preference e) = true ->
  step st e = Some st' ->
  idle st' /\ elements st' = elements st
  /\ no_animations st' = no_animations st
  /\ (reduced_motion st = true -> keeps_preference e = true ->
      reduced_motion st' = true).
Proof.
  intros (Hi & Ho & Hob & Ht) Hsig.
  destruct e as [|r|o entries|id|dt|]; cbn [step].
  - intros [= <-]. unfold init. rewrite Hi.
    assert (shouldDisableAnimations st = true) as ->.
    { unfold shouldDisableAnimations. simpl in Hsig.
      rewrite andb_true_r in Hsig. exact Hsig. }
    repeat split; auto.
  - intros [= <-]. unfold handleMotionPreferenceChange.
    assert (Hd : shouldDisableAnimations (set_reduced_motion r st) = true).
    { unfold shouldDisableAnimations. simpl in *.
      destruct (no_animations st); [reflexivity|]. simpl in *.
      apply andb_true_iff in Hsig as [_ ->]. reflexivity. }
    rewrite Hd. simpl. rewrite Hi. simpl.
    repeat split; auto.
  - assert (Hno : forallb (fun entry : nat * bool => observes o entry.1 st)
                     entries
                   && negb (bool_decide (entries = [])) = false).
    { destruct entries as [|[t v] entries]; [reflexivity|].
      cbn [forallb]. unfold observes at 1. rewrite Hob, lookup_empty.
      reflexivity. }
    rewrite Hno. discriminate.
  - rewrite Ht, lookup_empty. discriminate.
  - intros [= <-]. repeat split; auto.
  - intros [= <-]. unfold cleanup. simpl. rewrite Ho. simpl.
    repeat split; auto.
Qed.

Lemma idle_run es : forall st st',
  idle st ->
  signal_stays_active (no_animations st) (reduced_motion st) es = true ->
  run st es = Some st' ->
  idle st' /\ elements st' = elements st.
Proof.
  induction es as [|e es IH]; simpl; intros st st' Hidle Hsig.
  - intros [= <-]. auto.
  - destruct (step st e) as [st1|] eqn:Hs; [|discriminate].
    intros Hr.
    assert (He : no_animations st || (reduced_motion st && keeps_preference e)
                 = true).
    { unfold signal_stays_active in Hsig. simpl in Hsig.
      destruct (no_animations st); [reflexivity|]. simpl in *.
      destruct (reduced_motion st); [|discriminate]. simpl in *.
      apply andb_true_iff in Hsig as [Hk _]. exact Hk. }
    destruct (idle_step st e st1 Hidle He Hs) as (Hidle1 & Hel & Hm & Hred).
    destruct (IH st1 st' Hidle1) as [Hidle' Hel']; auto.
    + unfold signal_stays_active in *. rewrite Hm. simpl in Hsig.
      destruct (no_animations st); [reflexivity|]. simpl in *.
      destruct (reduced_motion st); [|discriminate]. simpl in *.
      apply andb_true_iff in Hsig as [Hk Hrest].
      rewrite (Hred eq_refl Hk). exact Hrest.
    + split; [exact Hidle'|]. congruence.
Qed.

(** C7 as stated fails when the preference is switched off later: with
    reduced motion requested at initialisation the module first does
    nothing, but the change listener then runs [init], which gives the
    cards their hidden initial class, and a later intersection reveals
    them. *)
Lemma preference_switched_off_initialises :
  shouldDisableAnimations (script_loaded two_cards false true) = true
  /\ (elements <$> run (script_loaded two_cards false true) [DomReady])
     = Some two_cards
  /\ (elements <$> run (script_loaded two_cards false true)
                     [DomReady; PreferenceChange false])
     = Some two_cards_prepared
  /\ (elements <$> run (script_loaded two_cards false true)
                     [DomReady; PreferenceChange false;
                      Intersect 0 [(0%nat, true)]; Fire 1])
     = Some two_cards_first_revealed.
Proof. vm_compute. repeat split. Qed.

(** *** The one-shot reveal of [js/animations.js] *)

(** A reveal timer is armed with the element's stagger delay. *)
Lemma handle_entry_arms o t st :
  isAnimated t st = false ->
  timers (handle_entry o (t, true) st)
  = <[next_timer st :=
        {| due := now st + delay_of t st; target := t; observer := o |}]>
      (timers st).
Proof. intros H. unfold handle_entry. simpl. rewrite H. reflexivity. Qed.

(** An element that has been revealed is never armed again. *)
Lemma handle_entry_animated o t v st :
  isAnimated t st = true -> handle_entry o (t, v) st = st.
Proof.
  intros Ha. unfold handle_entry. rewrite Ha, andb_false_r. reflexivity.
Qed.

(** When the timer runs, the element is marked as animated and its
    observer stops observing it. *)
Lemma reveal_unobserves t o st :
  isAnimated t (reveal t o st) = true /\ observes o t (reveal t o st) = false.
Proof.
  split.
  - unfold isAnimated, reveal. simpl. apply bool_decide_eq_true. set_solver.
  - unfold observes, reveal. simpl. rewrite lookup_alter_eq.
    destruct (observed st !! o) as [ts|]; simpl; [|reflexivity].
    apply bool_decide_eq_false. intros Hin.
    apply elem_of_difference in Hin as [_ Hn]. apply Hn.
    apply elem_of_singleton. reflexivity.
Qed.

(** A reveal timer runs no earlier than its due time, that is, no earlier
    than the element's delay after the report that armed it. *)
Lemma fire_not_early st id st' :
  step st (Fire id) = Some st' ->
  exists tm, timers st !! id = Some tm /\ due tm <= now st
    /\ st' = reveal (target tm) (observer tm)
               (set_clock (now st) (delete id (timers st)) st).
Proof.
  simpl. destruct (timers st !! id) as [tm|]; [|discriminate].
  destruct (due tm <=? now st) eqn:Hd; [|discriminate].
  intros [= <-]. exists tm. split; [reflexivity|].
  split; [apply N.leb_le, Hd | reflexivity].
Qed.

(** The class [active] stays once added. *)
Lemma add_class_keeps c d e : has_class c e = true -> has_class c (add_class d e) = true.
Proof.
  unfold add_class. destruct (has_class d e); [auto|].
  unfold has_class. simpl. intros H. apply bool_decide_eq_true.
  apply bool_decide_eq_true in H. set_solver.
Qed.

End AnimationsFacts.

Module MainAnimFacts.
Import MainAnim.

(** Without an observer and without timers nothing can happen. *)
Lemma dormant_run es : forall st st',
  observer_created st = false -> timers st = ∅ ->
  run st es = Some st' ->
  elements st' = elements st /\ observer_created st' = false
  /\ timers st' = ∅ /\ observed st' = observed st.
Proof.
  induction es as [|e es IH]; simpl; intros st st' Ho Ht.
  - intros [= <-]. auto.
  - destruct e as [entries|id|dt]; simpl.
    + rewrite Ho. simpl. discriminate.
    + rewrite Ht, lookup_empty. discriminate.
    + intros Hr. apply IH in Hr; auto.
Qed.

Lemma hide_from_keeps_observer els : forall i index,
  Forall (fun e => el_observer e = None) els ->
  Forall (fun e => el_observer e = None) (hide_from i index els).1.
Proof.
  induction els as [|e rest IH]; intros i index H; simpl; [constructor|].
  apply Forall_cons in H as [He Hrest].
  destruct (is_animated_element e).
  - specialize (IH (S i) (S index) Hrest).
    destruct (hide_from (S i) (S index) rest) as [rest' ts]. simpl in *.
    constructor; [exact He | exact IH].
  - specialize (IH (S i) index Hrest).
    destruct (hide_from (S i) index rest) as [rest' ts]. simpl in *.
    constructor; [exact He | exact IH].
Qed.

Lemma handle_entry_keeps entry st :
  Forall (fun e => el_observer e = None) (elements st) ->
  observed (handle_entry entry st) = observed st
  /\ elements (handle_entry entry st) = elements st.
Proof.
  intros H. destruct entry as [t [|]]; simpl; [|auto].
  split; [|reflexivity]. unfold unobserve_via_target.
  destruct (elements st !! t) as [e|] eqn:E; [|reflexivity].
  rewrite (proj1 (Forall_lookup _ _) H t e E). reflexivity.
Qed.

Lemma handleIntersection_keeps entries : forall st,
  Forall (fun e => el_observer e = None) (elements st) ->
  observed (handleIntersection entries st) = observed st
  /\ elements (handleIntersection entries st) = elements st.
Proof.
  unfold handleIntersection.
  induction entries as [|entry rest IH]; intros st H; simpl; [auto|].
  destruct (handle_entry_keeps entry st H) as [Ho He].
  destruct (IH (handle_entry entry st)) as [Ho' He'].
  - rewrite He. exact H.
  - split; congruence.
Qed.

(** The observer of the main script never stops observing anything: on a
    document whose elements have no [observer] property, the set of
    observed elements is the same after any run. *)
Lemma never_unobserved es : forall st st',
  Forall (fun e => el_observer e = None) (elements st) ->
  run st es = Some st' -> observed st' = observed st.
Proof.
  induction es as [|e es IH]; simpl; intros st st' H.
  - intros [= <-]. reflexivity.
  - destruct (step st e) as [st1|] eqn:Hs; [|discriminate].
    intros Hr.
    assert (Hst1 : observed st1 = observed st
                   /\ Forall (fun e => el_observer e = None) (elements st1)).
    { destruct e as [entries|id|dt]; simpl in Hs.
      - destruct (_ && _) in Hs; [|discriminate]. injection Hs as <-.
        destruct (handleIntersection_keeps entries st H) as [Ho He].
        split; [exact Ho|]. rewrite He. exact H.
      - destruct (timers st !! id) as [[d t]|]; [|discriminate].
        destruct (d <=? now st); [|discriminate]. injection Hs as <-.
        simpl. split; [reflexivity|].
        apply Forall_alter; [exact H|]. intros x _ Hx. exact Hx.
      - injection Hs as <-. simpl. auto. }
    destruct Hst1 as [Ho H1]. rewrite <- Ho. apply (IH st1 st' H1 Hr).
Qed.

(** C6, on the main script: the second of two cards is observed, scrolls
    into view and is revealed after its delay of 100 ms; afterwards the
    observer still observes it, and a further intersection report for it
    arms another reveal timer. *)
Theorem main_reveal_keeps_observing :
  observed (initScrollAnimations [card; card] false false) = {[0%nat; 1%nat]}
  /\ (run (initScrollAnimations [card; card] false false) reveal_trace
      ≫= fun st => opacity <$> elements st !! 1%nat) = Some (Some "1")
  /\ (observed <$> run (initScrollAnimations [card; card] false false)
                     reveal_trace) = Some {[0%nat; 1%nat]}
  /\ (timers <$> run (initScrollAnimations [card; card] false false)
                   (reveal_trace ++ [Intersect [(1%nat, true)]]))
     = Some {[2%nat := (200, 1%nat)]}.
Proof. vm_compute. repeat split. Qed.

End MainAnimFacts.

Module OptOutFacts.

(** C7 (amended).  While the opt-out signal is active (the page-level
    marker is present, or reduced motion is requested and is not switched
    off again) the reveal animations do nothing.  In [js/animations.js],
    whatever events occur, the module stays uninitialised with no observer
    and no timer, and every element keeps the classes and attributes it had.
    In the main script, where the signal is read once at initialisation,
    nothing is ever observed or scheduled and every element keeps its
    style. *)
Theorem opt_out_keeps_animations_idle
    (els : list Animations.Element) (els' : list MainAnim.Element)
    (marker reduced : bool)
    (es : list Animations.Event) (es' : list MainAnim.Event) :
  Animations.signal_stays_active marker reduced es = true ->
  (forall st,
     Animations.run (Animations.script_loaded els marker reduced) es = Some st ->
     Animations.elements st = els /\ Animations.idle st)
  /\ (forall st,
       MainAnim.run (MainAnim.initScrollAnimations els' marker reduced) es'
         = Some st ->
       MainAnim.elements st = els'
       /\ MainAnim.observer_created st = false
       /\ MainAnim.timers st = ∅).
Proof.
  intros Hsig. split.
  - intros st Hr.
    destruct (AnimationsFacts.idle_run es
                (Animations.script_loaded els marker reduced) st) as [Hi He];
      auto.
    repeat split; reflexivity.
  - intros st Hr.
    assert (Hd : MainAnim.shouldDisableAnimations marker reduced = true).
    { unfold Animations.signal_stays_active in Hsig.
      unfold MainAnim.shouldDisableAnimations.
      destruct marker; [reflexivity|]. simpl in *.
      apply andb_true_iff in Hsig as [-> _]. reflexivity. }
    unfold MainAnim.initScrollAnimations in Hr. rewrite Hd in Hr.
    apply MainAnimFacts.dormant_run in Hr as (He & Ho & Ht & _);
      [|reflexivity|reflexivity].
    auto.
Qed.

(** The premise holds with reduced motion requested and kept: the cards of
    both scripts stay as the markup has them through document-ready, a
    repeated preference notification and the passing of time. *)
Lemma opt_out_keeps_animations_idle_witness :
  (Animations.elements
     <$> Animations.run (Animations.script_loaded Animations.two_cards false true)
           [Animations.DomReady; Animations.PreferenceChange true;
            Animations.Elapse 5000])
  = Some Animations.two_cards
  /\ (MainAnim.elements
        <$> MainAnim.run
              (MainAnim.initScrollAnimations [MainAnim.card; MainAnim.card]
                 false true)
              [MainAnim.Elapse 5000])
     = Some [MainAnim.card; MainAnim.card].
Proof.
  destruct (opt_out_keeps_animations_idle
              Animations.two_cards [MainAnim.card; MainAnim.card] false true
              [Animations.DomReady; Animations.PreferenceChange true;
               Animations.Elapse 5000]
              [MainAnim.Elapse 5000] eq_refl) as [Ha Hm].
  split.
  - destruct (Animations.run _ _) as [st|] eqn:Hr;
      [|vm_compute in Hr; discriminate].
    destruct (Ha st eq_refl) as [He _]. simpl. rewrite He. reflexivity.
  - destruct (MainAnim.run _ _) as [st|] eqn:Hr;
      [|vm_compute in Hr; discriminate].
    destruct (Hm st eq_refl) as [He _]. simpl. rewrite He. reflexivity.
Defined.

End OptOutFacts.

(* ===================================================================== *)
(** ** Further properties of the main script's form *)
(* ===================================================================== *)

Module MainFormExtra.
Import JsString JsStringFacts MainForm MainFormFacts MainFormEvents.

(** *** Whole-form validation *)

Lemma accepted_iff c : accepted c = true <-> c = Returned true.
Proof. destruct c as [[|]|]; simpl; split; congruence. Qed.

Lemma validate_inputs_length fs : forall errs,
  length (validate_inputs fs errs).2.1 = length fs.
Proof.
  induction fs as [|f rest IH]; intros errs; [reflexivity|].
  rewrite validate_inputs_cons.
  destruct (is_required_input f); cbv zeta.
  - destruct ((validateField f errs).1); [|reflexivity].
    simpl. rewrite IH. reflexivity.
  - simpl. rewrite IH. reflexivity.
Qed.

Lemma validateForm_length fm :
  length (fields (validateForm fm).2) = length (fields fm).
Proof.
  unfold validateForm.
  pose proof (validate_inputs_length (fields fm) (field_errors fm)) as Hl.
  destruct (validate_inputs (fields fm) (field_errors fm)) as [ok [fs es]].
  exact Hl.
Qed.

(** The [forEach] of [validateForm] as a map and a fold over the controls
    it reaches. *)
Lemma validate_inputs_spec fs : forall errs,
  accepted (validate_inputs fs errs).1
  = forallb (fun f => negb (is_required_input f) || field_ok f) fs
  /\ ((validate_inputs fs errs).1 = Threw <-> (reached fs < length fs)%nat)
  /\ (validate_inputs fs errs).2.1
     = (validate_one <$> take (reached fs) fs) ++ drop (reached fs) fs
  /\ (validate_inputs fs errs).2.2
     = foldl (fun es f => (validateField f es).2.2) errs
         (filter (fun f => is_required_input f = true) (take (reached fs) fs)).
Proof.
  induction fs as [|f rest IH]; intros errs.
  { simpl. repeat split; try reflexivity; [discriminate | lia]. }
  rewrite validate_inputs_cons. cbn [forallb reached length].
  unfold field_ok at 1. unfold field_throws.
  destruct (validateField_verdict_errs f errs []) as [Hv Hf].
  destruct (is_required_input f) eqn:Hsel; cbv zeta; cbn [negb orb andb].
  - rewrite <- Hv. destruct ((validateField f errs).1) as [ok|] eqn:E.
    + destruct (IH (validateField f errs).2.2) as (I1 & I2 & I3 & I4).
      cbn [fst snd take drop fmap list_fmap app]. rewrite filter_cons.
      destruct (decide (is_required_input f = true)) as [_|Hn];
        [|congruence].
      cbn [foldl]. repeat split.
      * rewrite <- I1.
        destruct ((validate_inputs rest _).1) as [oks|]; simpl;
          destruct ok; try destruct oks; reflexivity.
      * intros Ht.
        assert (reached rest < length rest)%nat; [|lia].
        apply I2.
        destruct ((validate_inputs rest _).1); [discriminate | reflexivity].
      * intros Hlt.
        assert (Hr : (validate_inputs rest (validateField f errs).2.2).1
                     = Threw) by (apply I2; lia).
        rewrite Hr. reflexivity.
      * unfold validate_one at 1. rewrite Hsel. unfold validated.
        rewrite <- Hf, I3. reflexivity.
      * exact I4.
    + cbn [fst snd take drop fmap list_fmap app foldl]. repeat split.
      lia.
  - destruct (IH errs) as (I1 & I2 & I3 & I4).
    cbn [fst snd take drop fmap list_fmap app]. rewrite filter_cons.
    destruct (decide (is_required_input f = true)) as [Hy|_]; [congruence|].
    repeat split.
    + exact I1.
    + intros Ht. assert (reached rest < length rest)%nat; [|lia].
      apply I2, Ht.
    + intros Hlt. apply I2. lia.
    + unfold validate_one at 1. rewrite Hsel, I3. reflexivity.
    + exact I4.
Qed.

(** X1.  [validateForm] runs [validateField] on every input and textarea
    that carries the [required] attribute, in document order and without
    stopping at a control that fails: the controls it returns are the
    validated ones, the errors on display are those the calls leave one
    after the other, and it returns [true] exactly when every required
    control passes.  Only an exception ends the loop (a required control
    with an empty value whose [labels] are [null]): the controls before
    the throwing one are validated, those from it on are left as they
    were, and [validateForm] throws.  Controls without the attribute and
    the form-level banners stay as they were. *)
Theorem validateForm_checks_every_required (fm : Form) :
  accepted (validateForm fm).1
  = forallb (fun f => negb (is_required_input f) || field_ok f) (fields fm)
  /\ ((validateForm fm).1 = Threw
      <-> (reached (fields fm) < length (fields fm))%nat)
  /\ fields (validateForm fm).2
     = (validate_one <$> take (reached (fields fm)) (fields fm))
       ++ drop (reached (fields fm)) (fields fm)
  /\ field_errors (validateForm fm).2
     = foldl (fun es f => (validateField f es).2.2) (field_errors fm)
         (filter (fun f => is_required_input f = true)
            (take (reached (fields fm)) (fields fm)))
  /\ form_errors (validateForm fm).2 = form_errors fm.
Proof.
  unfold validateForm.
  destruct (validate_inputs_spec (fields fm) (field_errors fm))
    as (H1 & H2 & H3 & H4).
  destruct (validate_inputs (fields fm) (field_errors fm)) as [ok [fs es]].
  simpl in *. auto.
Qed.

(** On a form whose second required control is a hidden input without
    value, the loop validates the one-letter name, throws at the hidden
    input and never reaches the message. *)
Lemma hidden_required_input_ends_loop :
  let fm := {| fields := [control TInput "name" (js "A") true 0 "Name";
                          hidden_email "";
                          control TTextarea "message" (js "short") true 3
                            "Message"];
               field_errors := []; form_errors := [] |} in
  (validateForm fm).1 = Threw
  /\ reached (fields fm) = 1%nat
  /\ field_errors (validateForm fm).2
     = [(0%nat, "Must be at least 2 characters")]
  /\ drop 1 (fields (validateForm fm).2) = drop 1 (fields fm).
Proof. vm_compute. repeat split. Qed.

(** *** One inline error per form group *)

Lemma errors_in_app g e1 e2 :
  errors_in g (e1 ++ e2) = (errors_in g e1 + errors_in g e2)%nat.
Proof.
  unfold errors_in. rewrite filter_app, length_app.
  reflexivity.
Qed.

Lemma errors_in_cons g h m errs :
  errors_in g ((h, m) :: errs)
  = ((if decide (h = g) then 1 else 0) + errors_in g errs)%nat.
Proof.
  unfold errors_in. rewrite filter_cons. simpl.
  destruct (decide (h = g)); reflexivity.
Qed.

Lemma errors_in_remove_first g g' errs :
  errors_in g (remove_first_error g' errs)
  = if decide (g' = g) then pred (errors_in g errs) else errors_in g errs.
Proof.
  induction errs as [|[h m] errs IH]; simpl.
  - destruct (decide (g' = g)); reflexivity.
  - destruct (Nat.eqb_spec g' h) as [->|Hne].
    + rewrite errors_in_cons.
      destruct (decide (h = g)); simpl; reflexivity.
    + rewrite !errors_in_cons, IH.
      destruct (decide (g' = g)) as [->|]; [|reflexivity].
      destruct (decide (h = g)); [congruence|]. reflexivity.
Qed.

Lemma errors_in_show f msg errs g :
  errors_in g (showFieldError f msg errs).2
  = if decide (f_group f = Some g) then S (pred (errors_in g errs))
    else errors_in g errs.
Proof.
  unfold showFieldError. destruct (f_group f) as [h|]; cbn [snd].
  - rewrite errors_in_app, errors_in_remove_first, errors_in_cons.
    change (errors_in g []) with 0%nat.
    destruct (decide (h = g)) as [->|Hne];
      destruct (decide (Some _ = Some g)) as [E|E]; try congruence; lia.
  - destruct (decide (None = Some g)); [discriminate | reflexivity].
Qed.

Lemma errors_in_clear f errs g :
  errors_in g (clearFieldError f errs).2
  = if decide (f_group f = Some g) then pred (errors_in g errs)
    else errors_in g errs.
Proof.
  unfold clearFieldError. destruct (f_group f) as [h|]; cbn [snd].
  - rewrite errors_in_remove_first.
    destruct (decide (h = g)) as [->|Hne];
      destruct (decide (Some _ = Some g)) as [E|E]; try congruence;
      reflexivity.
  - destruct (decide (None = Some g)); [discriminate | reflexivity].
Qed.

Lemma tidy_show f msg errs : tidy errs -> tidy (showFieldError f msg errs).2.
Proof.
  intros H g. rewrite errors_in_show. specialize (H g).
  destruct (decide _); lia.
Qed.

Lemma tidy_clear f errs : tidy errs -> tidy (clearFieldError f errs).2.
Proof.
  intros H g. rewrite errors_in_clear. specialize (H g).
  destruct (decide _); lia.
Qed.

Lemma tidy_validateField f errs : tidy errs -> tidy (validateField f errs).2.2.
Proof.
  intros H. unfold validateField.
  destruct (lookup_rules (f_name f)) as [rules|]; [|exact H].
  repeat match goal with |- context [if ?b then _ else _] => destruct b end;
    try destruct (required_message f);
    simpl; auto using tidy_show, tidy_clear.
Qed.

Lemma tidy_validate_inputs fs : forall errs,
  tidy errs -> tidy (validate_inputs fs errs).2.2.
Proof.
  induction fs as [|f rest IH]; intros errs H; [exact H|].
  rewrite validate_inputs_cons. destruct (is_required_input f); cbv zeta.
  - pose proof (tidy_validateField f errs H) as Ht.
    destruct ((validateField f errs).1); [|exact H].
    simpl. apply IH, Ht.
  - simpl. apply IH, H.
Qed.

Lemma tidy_nil : tidy [].
Proof. intros g. unfold errors_in. simpl. lia. Qed.

Section Browser.

Context `{HtmlText}.

Lemma handleFormSubmit_field_errors st :
  field_errors (form (handleFormSubmit st))
  = (validate_inputs (clear_field_marks <$> fields (form st)) []).2.2.
Proof.
  unfold handleFormSubmit, validateForm, clearAllErrors. simpl.
  destruct (validate_inputs _ _) as [[[|]|] [fs es]]; reflexivity.
Qed.

Lemma run_callback_field_errors cb rnd st :
  field_errors (form (run_callback cb rnd st)) = field_errors (form st).
Proof. destruct cb, rnd; reflexivity. Qed.

Lemma tidy_form_step st e st' :
  tidy (field_errors (form st)) -> form_step st e = Some st' ->
  tidy (field_errors (form st')).
Proof.
  intros Ht0. destruct e as [[|id rnd|dt]|i|i v]; simpl.
  - intros [= <-]. rewrite handleFormSubmit_field_errors.
    apply tidy_validate_inputs, tidy_nil.
  - destruct (timers st !! id) as [t|]; [|discriminate].
    destruct (due t <=? now st); [|discriminate]. intros [= <-].
    rewrite run_callback_field_errors. exact Ht0.
  - intros [= <-]. exact Ht0.
  - intros [= <-]. simpl. unfold on_blur.
    destruct (fields (form st) !! i) as [f|]; [|exact Ht0].
    pose proof (tidy_validateField f _ Ht0) as Ht.
    destruct (validateField f (field_errors (form st))) as [[ok|] [f' errs]];
      [exact Ht | exact Ht0].
  - intros [= <-]. simpl. unfold on_input.
    destruct (fields (form st) !! i) as [f|]; [|exact Ht0].
    pose proof (tidy_clear (with_value f v) _ Ht0) as Ht.
    destruct (clearFieldError (with_value f v) (field_errors (form st)))
      as [f' errs].
    exact Ht.
Qed.

(** X2.  No form group ever holds more than one inline error element:
    starting from a form where that is so, it stays so through any
    sequence of submits, timer callbacks, blur validations and input
    events, because [showFieldError] removes the group's error before it
    appends the new one. *)
Theorem one_error_per_group
    (st : State) (es : list FormEvent) (st' : State) :
  tidy (field_errors (form st)) -> form_run st es = Some st' ->
  tidy (field_errors (form st')).
Proof.
  revert st. induction es as [|e es IH]; simpl; intros st Ht.
  - intros [= <-]. exact Ht.
  - destruct (form_step st e) as [st1|] eqn:Hs; [|discriminate].
    apply IH. exact (tidy_form_step st e st1 Ht Hs).
Qed.

End Browser.

(** The premise holds on the filled page: blurring an invalid name twice
    and then submitting leaves at most one error in the name's group. *)
Lemma one_error_per_group_witness :
  exists st, form_run (H := span_text) filled_page
               [Input 0 (js "A"); Blur 0; Blur 0; Page Submit] = Some st
    /\ (errors_in 0 (field_errors (form st)) <= 1)%nat.
Proof.
  destruct (form_run (H := span_text) filled_page
              [Input 0 (js "A"); Blur 0; Blur 0; Page Submit]) as [st|] eqn:Hr.
  - exists st. split; [reflexivity|].
    apply (one_error_per_group (H := span_text) filled_page _ st tidy_nil Hr).
  - vm_compute in Hr. discriminate.
Defined.

(** X3.  Typing into a control clears its error without validating again:
    when the control lies in a form group with at most one error element,
    then after the input event the group shows no error and the control
    carries neither the error class nor [aria-invalid], whatever the new
    value is; the errors of other groups stay. *)
Theorem input_clears_error
    (fm : Form) (i : nat) (f : Field) (g : nat) (v : jsstring) :
  fields fm !! i = Some f -> f_group f = Some g ->
  (errors_in g (field_errors fm) <= 1)%nat ->
  errors_in g (field_errors (on_input i v fm)) = 0%nat
  /\ (forall g', g' <> g ->
        errors_in g' (field_errors (on_input i v fm))
        = errors_in g' (field_errors fm))
  /\ exists f', fields (on_input i v fm) !! i = Some f'
       /\ f_value f' = v /\ f_name f' = f_name f
       /\ f_error f' = false /\ f_aria_invalid f' = None.
Proof.
  intros Hi Hg Hle. unfold on_input. rewrite Hi.
  pose proof (errors_in_clear (with_value f v) (field_errors fm)) as Hc.
  unfold clearFieldError in *. simpl in *. rewrite Hg in *. simpl in *.
  split; [|split].
  - rewrite Hc, decide_True by reflexivity. lia.
  - intros g' Hne. rewrite Hc, decide_False by congruence. reflexivity.
  - eexists. split.
    + apply list_lookup_insert_eq. apply lookup_lt_Some in Hi. exact Hi.
    + repeat split.
Qed.

(** The premises hold after a blur has rejected the one-letter name: the
    next keystroke, still leaving an invalid name, removes the error. *)
Lemma input_clears_error_witness :
  let fm := on_blur 0 (contact_form "A" "a@b.co" "" "Hello, hi there!") in
  errors_in 0 (field_errors fm) = 1%nat
  /\ errors_in 0 (field_errors (on_input 0 (js "B") fm)) = 0%nat.
Proof.
  intros fm. split; [reflexivity|].
  apply (input_clears_error fm 0
           (match fields fm !! 0%nat with Some f => f | None => ungrouped_name "" end)
           0 (js "B")); [reflexivity | reflexivity | vm_compute; lia].
Defined.

(** *** What each rule accepts *)

Lemma plus_class_matches p s :
  Matches (Plus (Class p)) s <-> s <> [] /\ forallb p s = true.
Proof. rewrite <- test_spec. apply plus_class_test. Qed.

Lemma chr_matches c s : Matches (Chr c) s <-> s = [c].
Proof.
  unfold Chr. split.
  - intros H. apply Matches_class_inv in H as (d & -> & Hd).
    apply N.eqb_eq in Hd. congruence.
  - intros ->. apply MClass. apply N.eqb_refl.
Qed.

(** The strings the email pattern matches: local part, [@], domain, a dot
    and a final part, each non-empty and free of white space and [@]. *)
Lemma email_matches_shape s :
  test email_pattern s = true <->
  exists a b c,
    s = a ++ [64] ++ b ++ [46] ++ c
    /\ a <> [] /\ b <> [] /\ c <> []
    /\ forallb email_class a = true /\ forallb email_class b = true
    /\ forallb email_class c = true.
Proof.
  rewrite test_spec. unfold email_pattern. split.
  - intros H.
    apply Matches_cat_inv in H as (a & r1 & -> & Ha & H).
    apply Matches_cat_inv in H as (at_ & r2 & -> & Hat & H).
    apply Matches_cat_inv in H as (b & r3 & -> & Hb & H).
    apply Matches_cat_inv in H as (dot & c & -> & Hdot & Hc).
    apply chr_matches in Hat as ->. apply chr_matches in Hdot as ->.
    apply plus_class_matches in Ha as [Ha1 Ha2].
    apply plus_class_matches in Hb as [Hb1 Hb2].
    apply plus_class_matches in Hc as [Hc1 Hc2].
    exists a, b, c. repeat split; assumption.
  - intros (a & b & c & -> & Ha1 & Hb1 & Hc1 & Ha2 & Hb2 & Hc2).
    apply MCat; [apply plus_class_matches; auto|].
    apply MCat; [apply chr_matches; reflexivity|].
    apply MCat; [apply plus_class_matches; auto|].
    apply MCat; [apply chr_matches; reflexivity|].
    apply plus_class_matches; auto.
Qed.

Lemma email_class_no_at s :
  forallb email_class s = true ->
  count_occ N.eq_dec s 64 = 0%nat
  /\ forallb (fun c => negb (is_white_space c)) s = true.
Proof.
  induction s as [|c s IH]; simpl; [auto|].
  intros H. apply andb_true_iff in H as [Hc Hs].
  destruct (IH Hs) as [IH1 IH2]. unfold email_class in Hc.
  apply negb_true_iff, orb_false_iff in Hc as [Hw Hat].
  apply N.eqb_neq in Hat. rewrite Hw, IH2. simpl.
  destruct (N.eq_dec c 64); [congruence|]. auto.
Qed.

(** X4.  The email pattern accepts exactly the strings of the form
    local@domain.tld with three non-empty parts that contain neither
    white space nor [@] (dots are allowed inside the parts).  An accepted
    address therefore has exactly one [@] and no white-space character. *)
Theorem email_pattern_shape (s : jsstring) :
  (test email_pattern s = true <->
   exists a b c,
     s = a ++ [64] ++ b ++ [46] ++ c
     /\ a <> [] /\ b <> [] /\ c <> []
     /\ forallb email_class a = true /\ forallb email_class b = true
     /\ forallb email_class c = true)
  /\ (test email_pattern s = true ->
      count_occ N.eq_dec s 64 = 1%nat
      /\ forallb (fun c => negb (is_white_space c)) s = true).
Proof.
  split; [apply email_matches_shape|].
  intros H. apply email_matches_shape in H
    as (a & b & c & -> & _ & _ & _ & Ha & Hb & Hc).
  destruct (email_class_no_at a Ha) as [Ha1 Ha2].
  destruct (email_class_no_at b Hb) as [Hb1 Hb2].
  destruct (email_class_no_at c Hc) as [Hc1 Hc2].
  split.
  - rewrite !count_occ_app, Ha1, Hb1, Hc1. reflexivity.
  - rewrite !forallb_app, Ha2, Hb2, Hc2. reflexivity.
Qed.

(** The shape is met by "jane.doe@mail.example.org", which is accepted
    and has one [@]. *)
Lemma email_pattern_shape_witness :
  count_occ N.eq_dec (js "jane.doe@mail.example.org") 64 = 1%nat.
Proof.
  apply (proj2 (email_pattern_shape (js "jane.doe@mail.example.org"))).
  reflexivity.
Defined.

Lemma verdict_of f errs n v rules :
  lookup_rules n = Some rules ->
  ((validateField (with_input f n v) errs).1 = Returned true
   <-> negb (violates_rule rules v) = true).
Proof.
  intros Hr. rewrite <- accepted_iff.
  rewrite (validateField_verdict (with_input f n v) errs rules Hr).
  reflexivity.
Qed.

Lemma length_ltb_N (s : jsstring) (n : nat) :
  (N.of_nat (length s) <? N.of_nat n) = negb (n <=? length s)%nat.
Proof.
  destruct (Nat.leb_spec n (length s)); simpl.
  - apply N.ltb_ge. lia.
  - apply N.ltb_lt. lia.
Qed.

Lemma plus_class_test_cons p c t :
  test (Plus (Class p)) (c :: t) = forallb p (c :: t).
Proof.
  destruct (test (Plus (Class p)) (c :: t)) eqn:Ht.
  - apply plus_class_test in Ht as [_ Ht]. symmetry. exact Ht.
  - destruct (forallb p (c :: t)) eqn:Hf; [|reflexivity].
    assert (test (Plus (Class p)) (c :: t) = true) as Ht'
      by (apply plus_class_test; split; [discriminate | exact Hf]).
    congruence.
Qed.

Lemma name_acceptance f errs v :
  (validateField (with_input f "name" v) errs).1 = Returned true <->
  (2 <= length (trim v))%nat /\ forallb name_class (trim v) = true.
Proof.
  rewrite (verdict_of f errs "name" v name_rules eq_refl).
  unfold violates_rule, too_short, pattern_fails. simpl.
  change 2 with (N.of_nat 2). rewrite length_ltb_N.
  destruct (trim v) as [|c t]; simpl is_empty; cbv iota.
  - simpl. split; [discriminate | intros [Hl _]; lia].
  - unfold name_pattern. rewrite plus_class_test_cons.
    destruct (Nat.leb_spec 2 (length (c :: t))) as [Hl|Hl];
      destruct (forallb name_class (c :: t)); simpl in *; split;
      try discriminate; try (intros [? ?]; first [lia | discriminate]); auto.
Qed.

Lemma email_acceptance f errs v :
  (validateField (with_input f "email" v) errs).1 = Returned true <->
  test email_pattern (trim v) = true.
Proof.
  rewrite (verdict_of f errs "email" v email_rules eq_refl).
  unfold violates_rule, too_short, pattern_fails. simpl.
  destruct (trim v) as [|c t]; simpl is_empty; cbv iota.
  - split; discriminate.
  - destruct (test email_pattern (c :: t)); simpl; split; auto.
Qed.

Lemma phone_acceptance f errs v :
  (validateField (with_input f "phone" v) errs).1 = Returned true <->
  trim v = [] \/ forallb phone_class (trim v) = true.
Proof.
  rewrite (verdict_of f errs "phone" v phone_rules eq_refl).
  unfold violates_rule, too_short, pattern_fails. simpl.
  destruct (trim v) as [|c t]; simpl is_empty; cbv iota.
  - split; auto.
  - unfold phone_pattern. rewrite plus_class_test_cons.
    destruct (forallb phone_class (c :: t)); simpl; split; auto;
      try discriminate; intros [H|H]; discriminate.
Qed.

Lemma message_acceptance f errs v :
  (validateField (with_input f "message" v) errs).1 = Returned true <->
  (10 <= length (trim v))%nat.
Proof.
  rewrite (verdict_of f errs "message" v message_rules eq_refl).
  unfold violates_rule, too_short, pattern_fails. simpl.
  change 10 with (N.of_nat 10). rewrite length_ltb_N.
  destruct (trim v) as [|c t]; simpl is_empty; cbv iota.
  - simpl. split; [discriminate | lia].
  - destruct (Nat.leb_spec 10 (length (c :: t))) as [Hl|Hl]; simpl in *;
      split; try discriminate; auto; lia.
Qed.

(** X5.  What [validateField] accepts for the four named fields, in terms
    of the trimmed value: a name of at least two characters, all of them
    letters, blanks, apostrophes or hyphens; an email matching the pattern;
    a phone number that is empty or made of digits, blanks, parentheses,
    plus and hyphen; a message of at least ten characters. *)
Theorem field_acceptance (f : Field) (errs : FieldErrors) (v : jsstring) :
  ((validateField (with_input f "name" v) errs).1 = Returned true <->
   (2 <= length (trim v))%nat /\ forallb name_class (trim v) = true)
  /\ ((validateField (with_input f "email" v) errs).1 = Returned true <->
      test email_pattern (trim v) = true)
  /\ ((validateField (with_input f "phone" v) errs).1 = Returned true <->
      trim v = [] \/ forallb phone_class (trim v) = true)
  /\ ((validateField (with_input f "message" v) errs).1 = Returned true <->
      (10 <= length (trim v))%nat).
Proof.
  split; [apply name_acceptance|]. split; [apply email_acceptance|].
  split; [apply phone_acceptance | apply message_acceptance].
Qed.

Lemma VALIDATION_RULES_keys n rules :
  VALIDATION_RULES !! n = Some rules ->
  n = "name" \/ n = "email" \/ n = "phone" \/ n = "message".
Proof.
  unfold VALIDATION_RULES.
  intros [[<- _]|[_ [[<- _]|[_ [[<- _]|[_ [[<- _]|[_ H]]%lookup_insert_Some]]%lookup_insert_Some]]%lookup_insert_Some]]%lookup_insert_Some;
    auto.
  rewrite lookup_empty in H. discriminate.
Qed.

(** X6.  A control whose name is none of name, email, phone and message
    is never rejected, whatever it holds; unless the name is one that
    [Object.prototype] defines, the control and the errors on display are
    left exactly as they were. *)
Theorem unnamed_fields_always_valid (f : Field) (errs : FieldErrors) :
  f_name f <> "name" -> f_name f <> "email" ->
  f_name f <> "phone" -> f_name f <> "message" ->
  (validateField f errs).1 = Returned true
  /\ (f_name f ∉ object_prototype_keys ->
      validateField f errs = (Returned true, (f, errs))).
Proof.
  intros H1 H2 H3 H4.
  assert (Hnone : VALIDATION_RULES !! f_name f = None).
  { destruct (VALIDATION_RULES !! f_name f) as [r|] eqn:E; [|reflexivity].
    apply VALIDATION_RULES_keys in E as [E|[E|[E|E]]]; congruence. }
  split.
  - unfold validateField, lookup_rules. rewrite Hnone.
    destruct (bool_decide _); [|reflexivity].
    simpl. destruct (is_empty (trim (f_value f))); reflexivity.
  - intros Hk. unfold validateField, lookup_rules. rewrite Hnone.
    rewrite bool_decide_eq_false_2 by exact Hk. reflexivity.
Qed.

(** The premises hold for a "subject" control holding a single blank. *)
Lemma unnamed_fields_always_valid_witness :
  (validateField (control TInput "subject" (js " ") true 4 "Subject") []).1
  = Returned true.
Proof.
  apply (unnamed_fields_always_valid
           (control TInput "subject" (js " ") true 4 "Subject") []);
    discriminate.
Defined.

(** *** The button's text *)

Lemma length_append_span (text : string) :
  String.length (text +:+ "</span>") = (String.length text + 7)%nat.
Proof. induction text as [|c text IH]; simpl; [reflexivity | rewrite IH; reflexivity]. Qed.

Lemma before_suffix_append (text : string) :
  before_suffix "</span>" (text +:+ "</span>") = text.
Proof.
  induction text as [|c text IH]; [reflexivity|].
  change (String c text +:+ "</span>") with (String c (text +:+ "</span>")).
  cbn [before_suffix].
  assert (Hne : String.eqb (String c (text +:+ "</span>")) "</span>" = false).
  { apply String.eqb_neq. intros E.
    apply (f_equal String.length) in E.
    cbn [String.length] in E. rewrite length_append_span in E. lia. }
  rewrite Hne, IH. reflexivity.
Qed.

(** The reader returns whatever stands between the tags. *)
Lemma span_text_reads : reads_plain_spans (H := span_text).
Proof. intros text _. apply before_suffix_append. Qed.

Section Browser.

Context `{HtmlText}.

Lemma setButtonState_some b state :
  exists b', setButtonState (Some b) state = Some b'
    /\ b_original_text b'
       = Some (match b_original_text b with
               | Some t => t
               | None => original_text b
               end)
    /\ (state = BDefault ->
        b_content b' = Assigned ("<span>" +:+ original_text b +:+ "</span>")
        /\ b_disabled b' = false /\ b_loading b' = false
        /\ b_success b' = false /\ b_error b' = false).
Proof.
  unfold setButtonState.
  destruct b as [? ? ? ? ? [t|]]; destruct state;
    eexists; (split; [reflexivity|]); split;
    try reflexivity; intros; try discriminate; repeat split.
Qed.

(** Once captured, the original text survives every state change. *)
Lemma setButtonState_keeps_original b state b' :
  b_original_text b <> Some "" -> original_text b <> "" ->
  setButtonState (Some b) state = Some b' ->
  b_original_text b' = Some (original_text b)
  /\ original_text b' = original_text b.
Proof.
  intros Ha Ho Hs.
  destruct (setButtonState_some b state) as (b1 & E & Hattr & _).
  rewrite E in Hs. injection Hs as <-.
  assert (Hnew : b_original_text b1 = Some (original_text b)).
  { rewrite Hattr. unfold original_text.
    destruct (b_original_text b) as [[|a t]|]; [congruence | | ]; reflexivity. }
  split; [exact Hnew|].
  unfold original_text at 1. rewrite Hnew.
  destruct (original_text b) as [|a t]; [congruence | reflexivity].
Qed.

Lemma set_states_keeps_original ss : forall b,
  b_original_text b <> Some "" -> original_text b <> "" ->
  exists b', set_states ss (Some b) = Some b'
    /\ b_original_text b' <> Some ""
    /\ original_text b' = original_text b.
Proof.
  unfold set_states.
  induction ss as [|state ss IH]; intros b Ha Ho; cbn [foldl].
  - exists b. auto.
  - destruct (setButtonState_some b state) as (b1 & E & _).
    destruct (setButtonState_keeps_original b state b1 Ha Ho E) as [Ha1 Ho1].
    rewrite E. destruct (IH b1) as (b' & E' & Ha' & Ho').
    + rewrite Ha1. congruence.
    + congruence.
    + exists b'. repeat split; congruence.
Qed.

(** X7.  [setButtonState(button, 'default')] restores the button's
    original text after any sequence of state changes.  The original text
    is the button's [data-original-text] attribute when the page gives it
    one, and the text the button had before the first call otherwise.
    Provided that text is not empty and free of markup characters, and
    the attribute is not present and empty, the button ends up enabled,
    without state class, holding the markup of a [span] around the
    original text, which a parser that keeps plain text reads back as the
    original text. *)
Theorem default_restores_original_text
    (b : Button) (ss : list ButtonState) :
  reads_plain_spans ->
  b_original_text b <> Some "" -> original_text b <> "" ->
  markup_free (original_text b) = true ->
  exists b', setButtonState (set_states ss (Some b)) BDefault = Some b'
    /\ b_content b' = Assigned ("<span>" +:+ original_text b +:+ "</span>")
    /\ textContent b' = original_text b
    /\ (b_original_text b = None -> textContent b' = textContent b)
    /\ (forall t, b_original_text b = Some t -> textContent b' = t)
    /\ b_disabled b' = false /\ b_loading b' = false
    /\ b_success b' = false /\ b_error b' = false.
Proof.
  intros Hp Ha Ho Hm.
  destruct (set_states_keeps_original ss b Ha Ho) as (b1 & E & _ & Ho1).
  rewrite E.
  destruct (setButtonState_some b1 BDefault) as (b' & E' & _ & Hd).
  destruct (Hd eq_refl) as (Hc & H1 & H2 & H3 & H4).
  rewrite Ho1 in Hc.
  assert (Ht : textContent b' = original_text b).
  { unfold textContent. rewrite Hc. apply Hp, Hm. }
  exists b'. split; [exact E'|]. split; [exact Hc|]. split; [exact Ht|].
  split; [|split; [|auto]].
  - intros Hn. rewrite Ht. unfold original_text. rewrite Hn. reflexivity.
  - intros t Hs. rewrite Ht. unfold original_text. rewrite Hs.
    destruct t; [congruence | reflexivity].
Qed.

End Browser.

(** The premises hold for the page's send button taken through loading,
    error, loading and success, and for a button whose attribute "Send"
    differs from its text "Submit": that one ends up showing "Send". *)
Lemma default_restores_original_text_witness :
  (exists b',
     setButtonState (H := span_text)
       (set_states (H := span_text) [BLoading; BError; BLoading; BSuccess]
          (Some send_button))
       BDefault = Some b'
     /\ textContent (H := span_text) b' = "Send Message")
  /\ (exists b',
        setButtonState (H := span_text)
          (set_states (H := span_text) [BLoading] (Some preset_send_button))
          BDefault = Some b'
        /\ textContent (H := span_text) b' = "Send").
Proof.
  split.
  - destruct (default_restores_original_text (H := span_text) send_button
                [BLoading; BError; BLoading; BSuccess] span_text_reads)
      as (b' & E & _ & Ht & _);
      [discriminate | discriminate | reflexivity |].
    exists b'. split; [exact E | exact Ht].
  - destruct (default_restores_original_text (H := span_text)
                preset_send_button [BLoading] span_text_reads)
      as (b' & E & _ & Ht & _);
      [discriminate | discriminate | reflexivity |].
    exists b'. split; [exact E | exact Ht].
Defined.

(** *** A submission from start to finish *)

Section Browser.

Context `{HtmlText}.

Lemma handleFormSubmit_valid fm b fmv :
  validateForm (clearAllErrors fm) = (Returned true, fmv) ->
  handleFormSubmit (page_loaded fm (Some b))
  = {| form := fmv;
       button := setButtonState (Some (clear_button_error b)) BLoading;
       now := 0;
       timers := {[1%nat := {| due := SIMULATED_LATENCY; callback := SimSettle |}]};
       next_timer := 2%nat; sim_calls := 1%nat |}.
Proof.
  intros E. unfold handleFormSubmit. simpl. rewrite E. reflexivity.
Qed.

Lemma success_run fm b fmv :
  validateForm (clearAllErrors fm) = (Returned true, fmv) ->
  run (page_loaded fm (Some b)) success_trace
  = Some {| form := form_reset fmv;
            button := setButtonState
                        (set_states [BLoading; BSuccess]
                           (Some (clear_button_error b))) BDefault;
            now := 5000; timers := ∅; next_timer := 3%nat;
            sim_calls := 1%nat |}.
Proof.
  intros E. unfold success_trace. cbn [run step].
  rewrite (handleFormSubmit_valid fm b fmv E).
  destruct b as [? ? ? ? ? [[|? ?]|]]; vm_compute; reflexivity.
Qed.

(** X8.  A submission of a valid form on the freshly loaded page that the
    simulated call resolves runs to completion: after the 2000 ms of the
    call and the 3000 ms of the success display exactly one simulated call
    has been made, no timer is left pending, every control holds its
    default value again, and the button is enabled without any state
    class. *)
Theorem successful_submission_completes (fm : Form) (b : Button) :
  (validateForm (clearAllErrors fm)).1 = Returned true ->
  exists st, run (page_loaded fm (Some b)) success_trace = Some st
    /\ sim_calls st = 1%nat /\ timers st = ∅
    /\ length (fields (form st)) = length (fields fm)
    /\ (forall i f, fields (form st) !! i = Some f -> f_value f = f_default f)
    /\ exists b', button st = Some b'
         /\ b_disabled b' = false /\ b_loading b' = false
         /\ b_success b' = false /\ b_error b' = false.
Proof.
  intros Hv.
  destruct (validateForm (clearAllErrors fm)) as [ok fmv] eqn:E.
  simpl in Hv. subst ok.
  eexists. split; [apply (success_run fm b fmv E)|]. simpl.
  split; [reflexivity|]. split; [reflexivity|]. split; [|split].
  - rewrite length_fmap.
    pose proof (validateForm_length (clearAllErrors fm)) as Hl.
    rewrite E in Hl. simpl in Hl. rewrite Hl. apply length_fmap.
  - intros i f. rewrite list_lookup_fmap.
    destruct (fields fmv !! i) as [f0|]; [|discriminate].
    intros [= <-]. reflexivity.
  - destruct (setButtonState_some
                (match set_states [BLoading; BSuccess]
                         (Some (clear_button_error b)) with
                 | Some x => x | None => b end) BDefault)
      as (b' & E' & _ & Hd).
    exists b'. split.
    + rewrite <- E'. unfold set_states. simpl. reflexivity.
    + destruct (Hd eq_refl) as (_ & H1 & H2 & H3 & H4). auto.
Qed.

End Browser.

(** The premise holds on the page with the form filled in correctly. *)
Lemma successful_submission_completes_witness :
  exists st, run (H := span_text) filled_page success_trace = Some st
    /\ sim_calls st = 1%nat /\ timers st = ∅.
Proof.
  destruct (successful_submission_completes (H := span_text)
              (contact_form "Jane Doe" "a@b.co" "+1 (555) 010-9999"
                 "Hello, hi there!") send_button eq_refl)
    as (st & Hr & Hs & Ht & _).
  exists st. auto.
Defined.

End MainFormExtra.

(* ===================================================================== *)
(** ** Further properties of the main script's page *)
(* ===================================================================== *)

Module MainPageExtra.
Import MainPage.

(** *** Smooth scroll *)

Lemma find_id_first id els : forall k i e,
  els !! i = Some e -> MainScroll.el_id e = id ->
  (forall j e', (j < i)%nat -> els !! j = Some e' -> MainScroll.el_id e' <> id) ->
  MainScroll.find_id id k els = Some ((k + i)%nat, e).
Proof.
  induction els as [|e0 rest IH]; intros k i e Hi Hid Hfirst; [discriminate|].
  simpl. destruct i as [|i]; simpl in Hi.
  - injection Hi as ->. rewrite Hid, String.eqb_refl.
    rewrite Nat.add_0_r. reflexivity.
  - assert (Hne : MainScroll.el_id e0 <> id)
      by (apply (Hfirst 0%nat e0); [lia | reflexivity]).
    apply String.eqb_neq in Hne. rewrite Hne.
    rewrite (IH (S k) i e Hi Hid).
    + f_equal. f_equal. lia.
    + intros j e' Hj He'. apply (Hfirst (S j) e'); [lia | exact He'].
Qed.

(** X9.  A click on a link to [#target] acts on the first element of the
    document whose id is [target]: it requests a smooth scroll to 80
    pixels above that element, pushes the fragment onto the history when
    [pushState] exists, makes the element focusable with tabindex -1 and
    moves focus to it; every other element stays as it was. *)
Theorem click_scrolls_to_first_match
    (p : MainScroll.Page) (target : string) (i : nat) (e : MainScroll.Element) :
  target <> "" ->
  MainScroll.elements p !! i = Some e -> MainScroll.el_id e = target ->
  (forall j e', (j < i)%nat -> MainScroll.elements p !! j = Some e' ->
                MainScroll.el_id e' <> target) ->
  let r := MainScroll.handleSmoothScroll (Some ("#" +:+ target)) p in
  r.1 = true
  /\ MainScroll.scroll_requests r.2
     = (MainScroll.el_top e - 80)%Z :: MainScroll.scroll_requests p
  /\ MainScroll.pushed r.2
     = (if MainScroll.has_pushState p
        then ("#" +:+ target) :: MainScroll.pushed p
        else MainScroll.pushed p)
  /\ MainScroll.focused r.2 = Some i
  /\ MainScroll.elements r.2 !! i
     = Some {| MainScroll.el_id := target;
               MainScroll.el_top := MainScroll.el_top e;
               MainScroll.el_tabindex := Some "-1" |}
  /\ forall j, j <> i ->
       MainScroll.elements r.2 !! j = MainScroll.elements p !! j.
Proof.
  intros Hne Hi Hid Hfirst r.
  assert (Hg : MainScroll.getElementById target p = Some (i, e)).
  { unfold MainScroll.getElementById.
    destruct target as [|a t]; [congruence|].
    exact (find_id_first _ _ 0%nat i e Hi Hid Hfirst). }
  unfold r, MainScroll.handleSmoothScroll.
  change ("#" +:+ target) with (String "#" target). cbv beta iota.
  rewrite Hg. simpl. rewrite Hid.
  repeat split.
  - apply list_lookup_insert_eq. apply lookup_lt_Some in Hi. exact Hi.
  - intros j Hj. apply list_lookup_insert_ne. congruence.
Qed.

(** The premises hold for the link to "#contact" on the two-section page. *)
Lemma click_scrolls_to_first_match_witness :
  MainScroll.scroll_requests
    (MainScroll.handleSmoothScroll (Some "#contact") MainScroll.two_sections).2
  = [2320%Z].
Proof.
  destruct (click_scrolls_to_first_match MainScroll.two_sections "contact" 1
              {| MainScroll.el_id := "contact"; MainScroll.el_top := 2400;
                 MainScroll.el_tabindex := None |})
    as (_ & Hs & _).
  - discriminate.
  - reflexivity.
  - reflexivity.
  - intros j e' Hj He'. destruct j as [|j]; [|lia].
    injection He' as <-. discriminate.
  - exact Hs.
Defined.

(** *** The mobile menu *)

Lemma toggle_class_mem c cs :
  bool_decide (c ∈ toggle_class c cs) = negb (bool_decide (c ∈ cs)).
Proof.
  unfold toggle_class. destruct (bool_decide (c ∈ cs)) eqn:E; simpl.
  - apply bool_decide_eq_false. intros H.
    apply list_elem_of_filter in H as [H _]. congruence.
  - apply bool_decide_eq_true. apply elem_of_app. right.
    apply list_elem_of_here.
Qed.

Lemma menu_click_flips m :
  expanded (menu_click m) = negb (expanded m)
  /\ menu_open (menu_click m) = negb (menu_open m).
Proof.
  unfold expanded, menu_open, menu_click. simpl. split.
  - destruct (bool_decide (aria_expanded m = Some "true")); reflexivity.
  - apply toggle_class_mem.
Qed.

(** X10.  Each click on the menu toggle flips both the [aria-expanded]
    state and the presence of the [active] class on the menu: after [n]
    clicks each of them has changed exactly when [n] is odd.  A menu whose
    class and attribute agree at the start therefore keeps them in
    agreement. *)
Theorem menu_clicks_flip (m : Menu) (n : nat) :
  expanded (clicks n m) = xorb (expanded m) (Nat.odd n)
  /\ menu_open (clicks n m) = xorb (menu_open m) (Nat.odd n).
Proof.
  revert m. induction n as [|n IH]; intros m.
  - simpl. rewrite !xorb_false_r. auto.
  - cbn [clicks]. destruct (IH (menu_click m)) as [H1 H2].
    destruct (menu_click_flips m) as [F1 F2].
    rewrite H1, H2, F1, F2, Nat.odd_succ, <- Nat.negb_odd.
    destruct (expanded m), (menu_open m), (Nat.odd n); auto.
Qed.

End MainPageExtra.

(* ===================================================================== *)
(** ** The stagger of the main script's scroll animations *)
(* ===================================================================== *)

Module MainStaggerExtra.
Import MainAnim MainPage.

Lemma rank_cons_S e rest j :
  rank (e :: rest) (S j)
  = ((if is_animated_element e then 1 else 0) + rank rest j)%nat.
Proof.
  unfold rank. rewrite firstn_cons, filter_cons.
  destruct (decide (is_animated_element e = true)) as [E|E].
  - rewrite E. reflexivity.
  - apply not_true_is_false in E. rewrite E. reflexivity.
Qed.

Lemma hide_from_spec els : forall i index,
  (forall j e, els !! j = Some e ->
     (hide_from i index els).1 !! j
     = Some (if is_animated_element e
             then hidden e (index + rank els j) else e))
  /\ (forall t, t ∈ (hide_from i index els).2 <->
        exists j e, t = (i + j)%nat /\ els !! j = Some e
                    /\ is_animated_element e = true).
Proof.
  induction els as [|e0 rest IH]; intros i index.
  { simpl. split; [discriminate|]. intros t. split.
    - intros H. inversion H.
    - intros (j & e & _ & H & _). discriminate. }
  simpl. destruct (is_animated_element e0) eqn:E0.
  - destruct (IH (S i) (S index)) as [IH1 IH2].
    destruct (hide_from (S i) (S index) rest) as [rest' ts]. simpl in *.
    split.
    + intros [|j] e Hj; simpl in Hj.
      * injection Hj as <-. rewrite E0. simpl. unfold rank. simpl.
        rewrite Nat.add_0_r. reflexivity.
      * simpl. rewrite (IH1 j e Hj), rank_cons_S, E0.
        replace (index + (1 + rank rest j))%nat
          with (S index + rank rest j)%nat by lia.
        reflexivity.
    + intros t. rewrite elem_of_cons, IH2. split.
      * intros [->|(j & e & -> & Hj & He)].
        -- exists 0%nat, e0. rewrite Nat.add_0_r. auto.
        -- exists (S j), e. split; [lia | auto].
      * intros ([|j] & e & -> & Hj & He).
        -- left. lia.
        -- right. exists j, e. split; [lia | auto].
  - destruct (IH (S i) index) as [IH1 IH2].
    destruct (hide_from (S i) index rest) as [rest' ts]. simpl in *.
    split.
    + intros [|j] e Hj; simpl in Hj.
      * injection Hj as <-. rewrite E0. reflexivity.
      * simpl. rewrite (IH1 j e Hj), rank_cons_S, E0. reflexivity.
    + intros t. rewrite IH2. split.
      * intros (j & e & -> & Hj & He).
        exists (S j), e. split; [lia | auto].
      * intros ([|j] & e & -> & Hj & He).
        -- simpl in Hj. injection Hj as <-. congruence.
        -- exists j, e. split; [lia | auto].
Qed.

(** X11.  When animations are enabled, [initScrollAnimations] hides exactly
    the elements that match the animated selectors and observes exactly
    those: the matched element at any position gets opacity 0, the 20px
    offset, the transition, and as its delay 100 ms times the number of
    matched elements before it; an unmatched element is left as it was and
    is not observed. *)
Theorem stagger_follows_rank (els : list Element) (i : nat) (e : Element) :
  els !! i = Some e ->
  let st := initScrollAnimations els false false in
  elements st !! i
  = Some (if is_animated_element e then hidden e (rank els i) else e)
  /\ (i ∈ observed st <-> is_animated_element e = true).
Proof.
  intros Hi st.
  destruct (hide_from_spec els 0 0) as [H1 H2].
  assert (Hobs : forall t, t ∈ (hide_from 0 0 els).2 <->
                   exists e', els !! t = Some e'
                              /\ is_animated_element e' = true).
  { intros t. rewrite H2. split.
    - intros (j & e' & -> & Hj & He'). exists e'. auto.
    - intros (e' & Hj & He'). exists t, e'. auto. }
  unfold st, initScrollAnimations. simpl.
  destruct (hide_from 0 0 els) as [els' ts] eqn:Eh. simpl in *.
  destruct ts as [|t0 ts].
  - simpl. split.
    + destruct (is_animated_element e) eqn:E; [|exact Hi].
      exfalso. assert (Hin : i ∈ @nil nat) by (apply Hobs; eauto).
      inversion Hin.
    + split; [intros H; apply elem_of_empty in H; contradiction|].
      intros E. exfalso.
      assert (Hin : i ∈ @nil nat) by (apply Hobs; eauto). inversion Hin.
  - simpl. split; [exact (H1 i e Hi)|].
    change ({[t0]} ∪ list_to_set ts : gset nat)
      with (list_to_set (C:=gset nat) (t0 :: ts)).
    rewrite elem_of_list_to_set, Hobs. split.
    + intros (e' & He' & E). congruence.
    + intros E. eauto.
Qed.

(** The second of two cards has one matched element before it. *)
Lemma stagger_follows_rank_witness :
  (delay_attr <$> elements (initScrollAnimations [card; card] false false)
                    !! 1%nat) = Some (Some 100).
Proof.
  destruct (stagger_follows_rank [card; card] 1 card) as [He _].
  - reflexivity.
  - rewrite He. reflexivity.
Defined.

End MainStaggerExtra.

(* ===================================================================== *)
(** ** [debounce] *)
(* ===================================================================== *)

Module DebounceFacts.
Import Debounce.

Section Debounced.

Context {A : Type}.
Variable wait : N.

Lemma Inv_fresh : Inv wait (fresh : State A).
Proof.
  split; simpl.
  - intros id t H. rewrite lookup_empty in H. discriminate.
  - discriminate.
  - intros id due args H. rewrite lookup_empty in H. discriminate.
  - rewrite map_size_empty. lia.
Qed.

Lemma cleared_lookup (st : State A) id t :
  cleared st !! id = Some t -> timers st !! id = Some t /\ timeout st <> Some id.
Proof.
  unfold cleared. destruct (timeout st) as [h|].
  - intros H. apply lookup_delete_Some in H as [Hne H]. split; congruence.
  - intros H. split; [exact H | discriminate].
Qed.

(** Under the invariant [clearTimeout(timeout)] leaves no timer pending. *)
Lemma cleared_empty (st : State A) : Inv wait st -> cleared st = ∅.
Proof.
  intros I. apply map_empty. intros id.
  destruct (cleared st !! id) as [[due args]|] eqn:E; [|reflexivity].
  apply cleared_lookup in E as [E Hne].
  destruct (inv_pending wait st I id due args E) as [Hh _]. contradiction.
Qed.

Lemma Inv_call (st : State A) args :
  Inv wait st -> Inv wait (executedFunction wait args st).
Proof.
  intros I. pose proof (cleared_empty st I) as Hc.
  split; unfold executedFunction; simpl; rewrite ?Hc.
  - intros id t H. apply lookup_insert_Some in H as [[<- _]|[_ H]]; [lia|].
    rewrite lookup_empty in H. discriminate.
  - intros id [= <-]. lia.
  - intros id due a H. apply lookup_insert_Some in H as [[<- H]|[_ H]].
    + injection H as <- <-. split; [reflexivity|].
      exists (now st). repeat split. lia.
    + rewrite lookup_empty in H. discriminate.
  - rewrite map_size_insert_None by apply lookup_empty.
    rewrite map_size_empty. pose proof (inv_count wait st I). lia.
Qed.

Lemma later_timers (st : State A) id due args :
  Inv wait st -> timers st !! id = Some (due, args) ->
  timers (later id args st) = ∅.
Proof.
  intros I H. apply map_empty. intros id'.
  destruct (timers (later id args st) !! id') as [[d a]|] eqn:E; [|reflexivity].
  unfold later in E. simpl in E.
  apply (cleared_lookup
           {| timeout := timeout st; now := now st;
              timers := delete id (timers st); next_timer := next_timer st;
              calls := calls st; invoked := invoked st |}) in E as [E _].
  simpl in E. apply lookup_delete_Some in E as [Hne E].
  destruct (inv_pending wait st I id due args H) as [H1 _].
  destruct (inv_pending wait st I id' d a E) as [H2 _]. congruence.
Qed.

Lemma Inv_fire (st : State A) id due args :
  Inv wait st -> timers st !! id = Some (due, args) ->
  Inv wait (later id args st).
Proof.
  intros I H. pose proof (later_timers st id due args I H) as Ht.
  split.
  - intros id' t E. rewrite Ht, lookup_empty in E. discriminate.
  - intros id' E. simpl in E. apply (inv_handle wait st I id' E).
  - intros id' d a E. rewrite Ht, lookup_empty in E. discriminate.
  - rewrite Ht, map_size_empty. simpl.
    pose proof (inv_count wait st I) as Hc.
    assert (size (timers st) <> 0)%nat.
    { intros Hz. apply map_size_empty_inv in Hz.
      rewrite Hz, lookup_empty in H. discriminate. }
    lia.
Qed.

Lemma Inv_event (st st' : State A) (e : Event A) :
  Inv wait st -> step wait st e = Some st' -> Inv wait st'.
Proof.
  intros I. destruct e as [args|id|dt]; simpl.
  - intros [= <-]. apply Inv_call, I.
  - destruct (timers st !! id) as [[due args]|] eqn:E; [|discriminate].
    destruct (due <=? now st); [|discriminate].
    intros [= <-]. apply (Inv_fire st id due args I E).
  - intros [= <-]. split; simpl.
    + apply (inv_fresh wait st I).
    + apply (inv_handle wait st I).
    + intros id due args H.
      destruct (inv_pending wait st I id due args H) as (Hh & t & Hc & Hd & Hn).
      split; [exact Hh|]. exists t. repeat split; auto. lia.
    + apply (inv_count wait st I).
Qed.

Lemma Inv_events (es : list (Event A)) : forall st st' : State A,
  Inv wait st -> run wait st es = Some st' -> Inv wait st'.
Proof.
  induction es as [|e es IH]; simpl; intros st st' I.
  - intros [= <-]. exact I.
  - destruct (step wait st e) as [st1|] eqn:Hs; [|discriminate].
    apply IH. apply (Inv_event st st1 e I Hs).
Qed.

Lemma run_app (es1 es2 : list (Event A)) : forall st : State A,
  run wait st (es1 ++ es2)
  = match run wait st es1 with
    | Some st1 => run wait st1 es2
    | None => None
    end.
Proof.
  induction es1 as [|e es1 IH]; simpl; intros st; [reflexivity|].
  destruct (step wait st e); [apply IH | reflexivity].
Qed.

(** X12.  In every state a debounced function can reach, at most one timer
    is pending; when a timer runs, [func] is invoked with the arguments of
    the most recent call, no earlier than [wait] after that call, and no
    timer is left pending; [func] has never been invoked more often than
    the debounced function has been called. *)
Theorem debounce_invokes_latest_call (es : list (Event A)) (st : State A) :
  run wait fresh es = Some st ->
  (size (timers st) <= 1)%nat
  /\ (length (invoked st) <= length (calls st))%nat
  /\ forall id st', step wait st (Fire id) = Some st' ->
       exists t args,
         head (calls st) = Some (t, args)
         /\ t + wait <= now st
         /\ invoked st' = (now st, args) :: invoked st
         /\ calls st' = calls st
         /\ timers st' = ∅.
Proof.
  intros Hr. pose proof (Inv_events es fresh st Inv_fresh Hr) as I.
  repeat split.
  - destruct (timeout st) as [h|] eqn:Eh.
    + destruct (timers st !! h) as [x|] eqn:E.
      * assert (Ht : timers st = {[h := x]}).
        { apply map_eq. intros i. destruct (decide (i = h)) as [->|Hne].
          - rewrite lookup_singleton_eq. exact E.
          - rewrite lookup_singleton_ne by congruence.
            destruct (timers st !! i) as [[d a]|] eqn:Ei; [|reflexivity].
            destruct (inv_pending wait st I i d a Ei) as [Hh _]. congruence. }
        rewrite Ht, map_size_singleton. lia.
      * assert (Ht : timers st = ∅).
        { apply map_empty. intros i.
          destruct (timers st !! i) as [[d a]|] eqn:Ei; [|reflexivity].
          destruct (inv_pending wait st I i d a Ei) as [Hh _]. congruence. }
        rewrite Ht, map_size_empty. lia.
    + assert (Ht : timers st = ∅).
      { apply map_empty. intros i.
        destruct (timers st !! i) as [[d a]|] eqn:Ei; [|reflexivity].
        destruct (inv_pending wait st I i d a Ei) as [Hh _]. congruence. }
      rewrite Ht, map_size_empty. lia.
  - pose proof (inv_count wait st I). lia.
  - intros id st'. simpl.
    destruct (timers st !! id) as [[due args]|] eqn:E; [|discriminate].
    destruct (due <=? now st) eqn:Hd; [|discriminate].
    intros [= <-]. apply N.leb_le in Hd.
    destruct (inv_pending wait st I id due args E) as (_ & t & Hc & -> & _).
    exists t, args. repeat split; auto.
    apply (later_timers st id (t + wait) args I E).
Qed.

Lemma run_burst (l : list (A * N)) : forall st : State A,
  exists st', run wait st (burst l) = Some st'
    /\ now st' = now st + span l
    /\ next_timer st' = (next_timer st + length l)%nat
    /\ invoked st' = invoked st.
Proof.
  induction l as [|[a dt] l IH]; intros st.
  - exists st. simpl. repeat split; [lia | lia].
  - cbn [burst flat_map app run step fst snd].
    match goal with |- context [run wait ?s (flat_map _ l)] =>
      destruct (IH s) as (st' & Hr & Hn & Hk & Hi) end.
    exists st'. split; [exact Hr|]. simpl in *.
    repeat split; [lia | lia | exact Hi].
Qed.

Lemma not_due (st : State A) id :
  (forall due args, timers st !! id = Some (due, args) -> now st < due) ->
  step wait st (Fire id) = None.
Proof.
  intros H. cbn [step].
  destruct (timers st !! id) as [[due args]|]; [|reflexivity].
  specialize (H due args eq_refl). apply N.leb_gt in H. rewrite H.
  reflexivity.
Qed.

Lemma quiet_burst (l : list (A * N)) : forall (st : State A) p,
  Forall (fun c => c.2 < wait) l ->
  Inv wait st -> quiet wait st -> p `prefix_of` burst l ->
  exists st', run wait st p = Some st' /\ quiet wait st'.
Proof.
  induction l as [|[a dt] l IH]; intros st p Hl I Hq Hp.
  - simpl in Hp. apply prefix_nil_inv in Hp as ->. exists st. auto.
  - apply Forall_cons in Hl as [Hdt Hl]. simpl in Hdt.
    cbn [burst flat_map app fst snd] in Hp.
    pose proof (Inv_call st a I) as I1.
    set (st1 := executedFunction wait a st) in *.
    assert (Hpend : forall id due args,
              timers st1 !! id = Some (due, args) -> due = now st + wait).
    { intros id due args H.
      destruct (inv_pending wait st1 I1 id due args H) as (_ & t & Hc & -> & _).
      simpl in Hc. injection Hc as <- _. reflexivity. }
    assert (Hq1 : quiet wait st1).
    { intros id. apply not_due. intros due args E.
      rewrite (Hpend id due args E). simpl. lia. }
    destruct p as [|e1 p]; [exists st; auto|].
    apply prefix_cons_inv_1 in Hp as He1. apply prefix_cons_inv_2 in Hp.
    subst e1. cbn [run step]. fold st1.
    destruct p as [|e2 p]; [exists st1; auto|].
    apply prefix_cons_inv_1 in Hp as He2. apply prefix_cons_inv_2 in Hp.
    subst e2. cbn [run step].
    match goal with |- context [run wait ?s p] => set (st2 := s) end.
    assert (I2 : Inv wait st2)
      by (apply (Inv_event st1 st2 (Elapse dt) I1); reflexivity).
    apply (IH st2 p Hl I2); [|exact Hp].
    intros id. apply not_due. intros due args E.
    change (timers st2) with (timers st1) in E.
    rewrite (Hpend id due args E). simpl. lia.
Qed.

(** X13.  A burst of calls of a freshly debounced function, each followed
    by less than [wait] before the next, invokes [func] exactly once: no
    timer is due at any point of the burst, and the timer of the call that
    ends the burst runs [wait] after it and invokes [func] with that call's
    arguments, leaving nothing pending. *)
Theorem burst_invokes_once (l : list (A * N)) (a : A) :
  Forall (fun c => c.2 < wait) l ->
  (forall p, p `prefix_of` burst l ->
     exists st : State A, run wait fresh p = Some st /\ quiet wait st)
  /\ exists st : State A,
       run wait fresh (burst l ++ [Call a; Elapse wait; Fire (S (length l))])
       = Some st
       /\ invoked st = [(span l + wait, a)]
       /\ timers st = ∅.
Proof.
  intros Hl. split.
  - intros p Hp. apply (quiet_burst l fresh p Hl Inv_fresh); [|exact Hp].
    intros id. simpl. rewrite lookup_empty. reflexivity.
  - destruct (run_burst l fresh) as (st & Hr & Hn & Hk & Hi).
    pose proof (Inv_events _ _ _ Inv_fresh Hr) as I.
    simpl in Hn, Hk, Hi.
    set (st1 := executedFunction wait a st).
    set (st2 := {| timeout := timeout st1; now := now st1 + wait;
                   timers := timers st1; next_timer := next_timer st1;
                   calls := calls st1; invoked := invoked st1 |}).
    assert (E : timers st2 !! S (length l) = Some (now st + wait, a)).
    { unfold st2, st1, executedFunction. simpl. rewrite Hk.
      apply lookup_insert_eq. }
    pose proof (Inv_call st a I) as I1. fold st1 in I1.
    assert (I2 : Inv wait st2)
      by (apply (Inv_event st1 st2 (Elapse wait) I1); reflexivity).
    assert (Hs : step wait st2 (Fire (S (length l)))
                 = Some (later (S (length l)) a st2)).
    { cbn [step]. rewrite E. change (now st2) with (now st + wait).
      rewrite N.leb_refl. reflexivity. }
    exists (later (S (length l)) a st2). split.
    + rewrite run_app, Hr.
      transitivity (match step wait st2 (Fire (S (length l))) with
                    | Some s => Some s
                    | None => None
                    end); [reflexivity|].
      rewrite Hs. reflexivity.
    + split.
      * simpl. rewrite Hi, Hn. reflexivity.
      * apply (later_timers st2 _ _ a I2 E).
Qed.

End Debounced.

(** Three calls 100 ms apart of a function debounced by 250 ms. *)
Lemma debounce_invokes_latest_call_witness :
  invoked <$> (run 250 fresh [Call "a"; Elapse 100; Call "b"; Elapse 250]
               ≫= fun st => step 250 st (Fire 2))
  = Some [(350, "b" : string)].
Proof.
  destruct (run 250 fresh [Call ("a" : string); Elapse 100; Call "b"; Elapse 250])
    as [st|] eqn:Hr; [|discriminate].
  destruct (debounce_invokes_latest_call 250 _ st Hr) as (_ & _ & H).
  injection Hr as <-.
  destruct (H 2%nat _ eq_refl) as (t & args & Hc & _ & Hi & _).
  reflexivity.
Defined.

(** Two calls 100 ms apart of a function debounced by 250 ms. *)
Lemma burst_invokes_once_witness :
  exists st : State string,
    run 250 fresh [Call "a"; Elapse 100; Call "b"; Elapse 250; Fire 2]
    = Some st
    /\ invoked st = [(350, "b" : string)] /\ timers st = ∅.
Proof.
  destruct (burst_invokes_once 250 [("a" : string, 100)] "b") as [_ H].
  - repeat constructor.
  - exact H.
Defined.

End DebounceFacts.

(* ===================================================================== *)
(** ** [js/interactions.js]: what the page shows in every reachable state *)
(* ===================================================================== *)

Module InteractionsExtra.
Import Interactions InteractionsFacts InteractionsPage.

(** *** The look of the button *)

Lemma appearance_idem s b c :
  appearance s (appearance s b c) c = appearance s b c.
Proof. destruct b, s; reflexivity. Qed.

Lemma appearance_static s b1 b2 c :
  cls_morphing b1 = cls_morphing b2 ->
  data_original_content b1 = data_original_content b2 ->
  appearance s b1 c = appearance s b2 c.
Proof.
  destruct b1, b2. cbn [cls_morphing data_original_content].
  intros -> ->. reflexivity.
Qed.

Lemma setState_banners state o st :
  banners (setState state o st) = banners st.
Proof. setState_cases st state. Qed.

Lemma setState_dispatched state o st :
  dispatched (setState state o st) = dispatched st.
Proof. setState_cases st state. Qed.

Lemma to_idle_page st :
  button (setState IDLE no_options st)
  = appearance IDLE (button st) (originalContent st).
Proof.
  destruct st as [? ? ? [[|?]|] ? ? ? ? ? ? ? ? ? ?]; vm_compute; reflexivity.
Qed.

Lemma handleSubmit_page j st :
  isSubmitting st || isLoading st = false ->
  let st' := handleSubmit j st in
  button st' = appearance LOADING (button st) (originalContent st)
  /\ originalContent st' = originalContent st
  /\ banners st' = banners st
  /\ dispatched st' = dispatched st.
Proof.
  intros H. unfold handleSubmit. rewrite H. clear H.
  destruct st as [? ? ? [[|?]|] ? ? ? ? ? ? ? ? ? ?];
    repeat split; vm_compute; reflexivity.
Qed.

Lemma finish_success_page st :
  let st' := set_isSubmitting false (handleSuccess st) in
  button st' = appearance SUCCESS (button st) (originalContent st)
  /\ originalContent st' = originalContent st
  /\ banners st' = banners st
  /\ dispatched st' = "formSubmitSuccess" :: dispatched st.
Proof.
  destruct st as [? ? ? [[|?]|] ? ? ? ? ? ? ? ? ? ?];
    repeat split; vm_compute; reflexivity.
Qed.

Lemma finish_error_page msg st :
  let st' := set_isSubmitting false (handleError msg st) in
  button st' = appearance ERROR (button st) (originalContent st)
  /\ originalContent st' = originalContent st
  /\ banners st' = (next_banner st, msg) :: tail (banners st)
  /\ dispatched st' = "formSubmitError" :: dispatched st.
Proof.
  destruct st as [? ? ? [[|?]|] ? ? ? ? ? ? ? ? ? ?];
    repeat split; vm_compute; reflexivity.
Qed.

Lemma construct_page b :
  let st := construct b in
  button st = appearance IDLE (button st) (originalContent st)
  /\ banners st = [] /\ dispatched st = [].
Proof.
  destruct b as [? ? ? ? ? ? ? ? ? [?|]];
    repeat split; vm_compute; reflexivity.
Qed.

(** *** The invariant *)

Lemma Shown_construct b : Shown (construct b).
Proof.
  destruct (construct_view b) as (Hc & Hto & Ht & Hn & Hs & Hl & Hsim & _).
  destruct (construct_page b) as (Hb & Hban & Hd).
  constructor.
  - rewrite Hc at 1. exact Hb.
  - rewrite Hsim, Hd. unfold isLoading. rewrite Hc. reflexivity.
  - rewrite Hban. simpl. lia.
  - intros k msg. rewrite Hban. intros H. inversion H.
  - rewrite Hc. intros [E|E]; discriminate.
  - intros id t. rewrite Ht, lookup_empty. discriminate.
Qed.

(** A timer other than the recorded state-display timer is still pending
    once another timer has run and [setState] has cancelled the recorded
    one. *)
Lemma pending_after_fire_keeps st id t i u :
  Inv st -> timers st !! id = Some t -> timers st !! i = Some u ->
  callback u <> ToIdle -> callback u <> callback t ->
  pending_after_clear (clearTimeout id st) !! i = Some u.
Proof.
  intros I Hid Hp Hnd Hne.
  apply pending_after_clear_keeps; [| |exact Hnd].
  - intros h w E Hw. unfold clearTimeout in Hw. simpl in Hw.
    apply lookup_delete_Some in Hw as [_ Hw].
    exact (inv_handle_display st I h w E Hw).
  - unfold clearTimeout. simpl. apply lookup_delete_Some. split; [|exact Hp].
    intros <-. rewrite Hid in Hp. injection Hp as <-. congruence.
Qed.

Lemma Shown_handleSubmit j st :
  j < 2000 -> Inv st -> Shown st -> Shown (handleSubmit j st).
Proof.
  intros Hj I Sh. destruct (isSubmitting st || isLoading st) eqn:G.
  { rewrite handleSubmit_blocked; auto. }
  destruct (handleSubmit_accepted j st G)
    as (Hc & _ & Ht & _ & _ & _ & Hsim & Hnow).
  destruct (handleSubmit_page j st G) as (Hb & Ho & Hban & Hd).
  apply orb_false_iff in G as [_ G2].
  set (st' := handleSubmit j st) in *. clearbody st'.
  constructor.
  - rewrite Hc, Ho, Hb. symmetry. apply appearance_idem.
  - rewrite Hsim, Hd. unfold isLoading at 1. rewrite Hc.
    pose proof (sh_answered st Sh) as H. rewrite G2 in H. lia.
  - rewrite Hban. apply (sh_one_banner st Sh).
  - rewrite Hban. intros k msg Hin.
    destruct (sh_banner_timer st Sh k msg Hin) as (i & u & Hp & Hcb).
    exists i, u. split; [|exact Hcb]. rewrite Ht.
    apply lookup_insert_Some. right. split.
    + pose proof (inv_ids st I i u Hp). lia.
    + apply pending_after_clear_keeps;
        [exact (inv_handle_display st I) | exact Hp | congruence].
  - rewrite Hc. intros [E|E]; discriminate.
  - intros i u. rewrite Ht, Hnow.
    intros [[<- <-]|[_ Hp]]%lookup_insert_Some.
    + simpl. lia.
    + apply pending_after_clear_sub in Hp. exact (sh_timely st Sh i u Hp).
Qed.

(** The submission in flight settles: the success or the error state goes
    on display. *)
Lemma Shown_settle st id t st' state T1 T2 :
  Inv st -> Shown st ->
  timers st !! id = Some t -> is_flight (callback t) = true ->
  state = SUCCESS \/ state = ERROR ->
  currentState st' = state ->
  button st' = appearance state (button st) (originalContent st) ->
  originalContent st' = originalContent st ->
  timers st' =
    <[S (next_timer st) := T2]>
      (<[next_timer st := T1]> (pending_after_clear (clearTimeout id st))) ->
  callback T1 = ToIdle ->
  due T1 <= now st + 3000 -> due T2 <= now st + 3000 ->
  stateTimeout st' = Some (next_timer st) ->
  now st' = now st -> sim_calls st' = sim_calls st ->
  length (dispatched st') = S (length (dispatched st)) ->
  (banners st' = banners st
   \/ exists msg, banners st' = (next_banner st, msg) :: tail (banners st)
                  /\ callback T2 = RemoveBanner (next_banner st)) ->
  Shown st'.
Proof.
  intros I Sh Hid Hf Hstate Hc Hb Ho Ht HT1 Hd1 Hd2 Hto Hnow Hsim Hlen Hban.
  destruct (inv_flight st I id t Hid Hf) as [Hload _].
  pose proof (sh_one_banner st Sh) as Hone.
  constructor.
  - rewrite Hc, Ho, Hb. symmetry. apply appearance_idem.
  - rewrite Hsim, Hlen. unfold isLoading at 1. rewrite Hc.
    pose proof (sh_answered st Sh) as H. unfold isLoading in H.
    rewrite Hload in H. destruct Hstate as [-> | ->]; lia.
  - destruct Hban as [-> | (msg & -> & _)]; [exact Hone|].
    destruct (banners st) as [|x [|y r]]; simpl in *; lia.
  - intros k msg Hin.
    assert (Hold : (k, msg) ∈ banners st ->
              exists i u, timers st' !! i = Some u /\ callback u = RemoveBanner k).
    { intros Hin'.
      destruct (sh_banner_timer st Sh k msg Hin') as (i & u & Hp & Hcb).
      exists i, u. split; [|exact Hcb]. rewrite Ht.
      pose proof (inv_ids st I i u Hp).
      rewrite lookup_insert_ne by lia. rewrite lookup_insert_ne by lia.
      apply (pending_after_fire_keeps st id t i u I Hid Hp).
      - congruence.
      - intros E. rewrite <- E, Hcb in Hf. discriminate. }
    destruct Hban as [E | (msg' & E & HT2)].
    + rewrite E in Hin. exact (Hold Hin).
    + rewrite E in Hin. apply elem_of_cons in Hin as [Heq | Hin].
      * injection Heq as -> ->. exists (S (next_timer st)), T2.
        split; [|exact HT2]. rewrite Ht. apply lookup_insert_eq.
      * destruct (banners st) as [|x [|y r]]; simpl in *;
          [inversion Hin | inversion Hin | lia].
  - intros _. exists (next_timer st), T1. split; [exact Hto|].
    split; [|exact HT1]. rewrite Ht.
    rewrite lookup_insert_ne by lia. apply lookup_insert_eq.
  - intros i u. rewrite Ht, Hnow.
    intros [[<- <-]|[_ [[<- <-]|[_ Hp]]%lookup_insert_Some]]%lookup_insert_Some;
      [exact Hd2 | exact Hd1 |].
    apply pending_after_fire in Hp as [_ Hp]. exact (sh_timely st Sh i u Hp).
Qed.

Lemma Shown_success st id t :
  Inv st -> Shown st ->
  timers st !! id = Some t -> is_flight (callback t) = true ->
  Shown (set_isSubmitting false (handleSuccess (clearTimeout id st))).
Proof.
  intros I Sh Hid Hf.
  destruct (finish_success_view (clearTimeout id st))
    as (Hc & _ & Ht & _ & Hto & _ & Hsim & Hnow).
  destruct (finish_success_page (clearTimeout id st)) as (Hb & Ho & Hban & Hd).
  set (st' := set_isSubmitting false (handleSuccess (clearTimeout id st))) in *.
  clearbody st'.
  apply (Shown_settle st id t st' SUCCESS _ _ I Sh Hid Hf (or_introl eq_refl)
           Hc Hb Ho Ht eq_refl).
  - simpl. unfold SUCCESS_DISPLAY_DURATION. lia.
  - simpl. unfold SUCCESS_DISPLAY_DURATION. lia.
  - exact Hto.
  - exact Hnow.
  - exact Hsim.
  - rewrite Hd. reflexivity.
  - left. exact Hban.
Qed.

Lemma Shown_error st id t msg :
  Inv st -> Shown st ->
  timers st !! id = Some t -> is_flight (callback t) = true ->
  Shown (set_isSubmitting false (handleError msg (clearTimeout id st))).
Proof.
  intros I Sh Hid Hf.
  destruct (finish_error_view msg (clearTimeout id st))
    as (Hc & _ & Ht & _ & Hto & _ & Hsim & Hnow).
  destruct (finish_error_page msg (clearTimeout id st)) as (Hb & Ho & Hban & Hd).
  set (st' := set_isSubmitting false (handleError msg (clearTimeout id st))) in *.
  clearbody st'.
  apply (Shown_settle st id t st' ERROR _ _ I Sh Hid Hf (or_intror eq_refl)
           Hc Hb Ho Ht eq_refl).
  - simpl. unfold ERROR_DISPLAY_DURATION. lia.
  - simpl. unfold ERROR_DISPLAY_DURATION. lia.
  - exact Hto.
  - exact Hnow.
  - exact Hsim.
  - rewrite Hd. reflexivity.
  - right. exists msg. split; [exact Hban | reflexivity].
Qed.

(** The state-display timer runs. *)
Lemma Shown_to_idle st id t :
  Inv st -> Shown st -> timers st !! id = Some t -> callback t = ToIdle ->
  Shown (setState IDLE no_options (clearTimeout id st)).
Proof.
  intros I Sh Hid Hcb.
  destruct (inv_display st I id t Hid Hcb) as [_ Hstate].
  set (st0 := clearTimeout id st).
  pose proof (setState_currentState IDLE no_options st0) as Hc.
  pose proof (setState_timers IDLE no_options st0) as Ht.
  pose proof (setState_sim_calls IDLE no_options st0) as Hsim.
  pose proof (setState_now IDLE no_options st0) as Hnow.
  pose proof (setState_originalContent IDLE no_options st0) as Ho.
  pose proof (setState_banners IDLE no_options st0) as Hban.
  pose proof (setState_dispatched IDLE no_options st0) as Hd.
  pose proof (to_idle_page st0) as Hb.
  cbv beta iota in Ht.
  change (sim_calls st0) with (sim_calls st) in Hsim.
  change (now st0) with (now st) in Hnow.
  change (originalContent st0) with (originalContent st) in Ho, Hb.
  change (banners st0) with (banners st) in Hban.
  change (dispatched st0) with (dispatched st) in Hd.
  change (button st0) with (button st) in Hb.
  set (st' := setState IDLE no_options st0) in *. clearbody st'.
  constructor.
  - rewrite Hc, Ho, Hb. symmetry. apply appearance_idem.
  - rewrite Hsim, Hd. unfold isLoading at 1. rewrite Hc.
    pose proof (sh_answered st Sh) as H. unfold isLoading in H.
    destruct Hstate as [E|E]; rewrite E in H; lia.
  - rewrite Hban. apply (sh_one_banner st Sh).
  - rewrite Hban. intros k msg Hin.
    destruct (sh_banner_timer st Sh k msg Hin) as (i & u & Hp & Hu).
    exists i, u. split; [|exact Hu]. rewrite Ht.
    apply (pending_after_fire_keeps st id t i u I Hid Hp); congruence.
  - rewrite Hc. intros [E|E]; discriminate.
  - intros i u. rewrite Ht, Hnow. intros Hp.
    apply pending_after_fire in Hp as [_ Hp]. exact (sh_timely st Sh i u Hp).
Qed.

(** A timer that does not display a state runs, or the resolved submission
    waits for the minimum loading time. *)
Lemma Shown_quiet st st' id t :
  Inv st -> Shown st ->
  timers st !! id = Some t -> callback t <> ToIdle ->
  button st' = button st -> currentState st' = currentState st ->
  originalContent st' = originalContent st ->
  stateTimeout st' = stateTimeout st ->
  dispatched st' = dispatched st -> sim_calls st' = sim_calls st ->
  now st' = now st ->
  (length (banners st') <= length (banners st))%nat ->
  (forall k msg, (k, msg) ∈ banners st' ->
     (k, msg) ∈ banners st /\ callback t <> RemoveBanner k) ->
  (forall i u, timers st !! i = Some u -> i <> id -> timers st' !! i = Some u) ->
  (forall i u, timers st' !! i = Some u ->
     timers st !! i = Some u \/ due u <= now st' + 3000) ->
  Shown st'.
Proof.
  intros I Sh Hid Hnd Hb Hc Ho Hto Hd Hsim Hnow Hlen Hban Hsurv Hnew.
  assert (Hother : forall i u, timers st !! i = Some u ->
                     callback u <> callback t -> timers st' !! i = Some u).
  { intros i u Hp Hne. apply Hsurv; [exact Hp|].
    intros ->. rewrite Hid in Hp. injection Hp as <-. congruence. }
  constructor.
  - rewrite Hb, Hc, Ho. apply (sh_button st Sh).
  - rewrite Hsim, Hd. unfold isLoading. rewrite Hc. apply (sh_answered st Sh).
  - pose proof (sh_one_banner st Sh). lia.
  - intros k msg Hin. destruct (Hban k msg Hin) as [Hin' Hne].
    destruct (sh_banner_timer st Sh k msg Hin') as (i & u & Hp & Hu).
    exists i, u. split; [|exact Hu]. apply Hother; [exact Hp | congruence].
  - rewrite Hc, Hto. intros Hst.
    destruct (sh_display st Sh Hst) as (i & u & E & Hp & Hu).
    exists i, u. split; [exact E|]. split; [|exact Hu].
    apply Hother; [exact Hp | congruence].
  - intros i u Hp. destruct (Hnew i u Hp) as [Hp'|Hdue]; [|exact Hdue].
    rewrite Hnow. exact (sh_timely st Sh i u Hp').
Qed.

Lemma Shown_step st e st' :
  Inv st -> Shown st -> step st e = Some st' -> Shown st'.
Proof.
  intros I Sh. destruct e as [j|id rnd|dt]; simpl.
  - destruct (j <? 2000) eqn:Hj; [|discriminate]. intros [= <-].
    apply N.ltb_lt in Hj. apply Shown_handleSubmit; assumption.
  - destruct (timers st !! id) as [t|] eqn:Hid; [|discriminate].
    destruct (due t <=? now st); [|discriminate]. intros [= <-].
    destruct (callback t) as [|start| | |k] eqn:Hcb; simpl.
    + exact (Shown_to_idle st id t I Sh Hid Hcb).
    + assert (Hf : is_flight (callback t) = true) by (rewrite Hcb; reflexivity).
      unfold submission_settled. destruct rnd.
      * destruct (_ <? _).
        -- apply (Shown_quiet st _ id t I Sh Hid); try reflexivity.
           ++ congruence.
           ++ intros k' msg Hin. split; [exact Hin | congruence].
           ++ intros i u Hp Hne. simpl.
              pose proof (inv_ids st I i u Hp).
              rewrite lookup_insert_ne by lia.
              apply lookup_delete_Some. auto.
           ++ intros i u. simpl.
              intros [[<- <-]|[_ [_ Hp]%lookup_delete_Some]]%lookup_insert_Some;
                [right | left; exact Hp].
              simpl. unfold LOADING_MIN_DURATION. lia.
        -- exact (Shown_success st id t I Sh Hid Hf).
      * exact (Shown_error st id t _ I Sh Hid Hf).
    + assert (Hf : is_flight (callback t) = true) by (rewrite Hcb; reflexivity).
      exact (Shown_success st id t I Sh Hid Hf).
    + apply (Shown_quiet st _ id t I Sh Hid); try reflexivity.
      * congruence.
      * simpl. lia.
      * intros k' msg Hin. inversion Hin.
      * intros i u Hp Hne. simpl. apply lookup_delete_Some. auto.
      * intros i u. simpl. intros [_ Hp]%lookup_delete_Some. left. exact Hp.
    + apply (Shown_quiet st _ id t I Sh Hid); try reflexivity.
      * congruence.
      * simpl. apply length_filter.
      * intros k' msg Hin. simpl in Hin.
        apply list_elem_of_filter in Hin as [Hne Hin]. simpl in Hne.
        split; [exact Hin | congruence].
      * intros i u Hp Hne. simpl. apply lookup_delete_Some. auto.
      * intros i u. simpl. intros [_ Hp]%lookup_delete_Some. left. exact Hp.
  - intros [= <-]. constructor; simpl.
    + apply (sh_button st Sh).
    + apply (sh_answered st Sh).
    + apply (sh_one_banner st Sh).
    + apply (sh_banner_timer st Sh).
    + apply (sh_display st Sh).
    + intros i u Hp. pose proof (sh_timely st Sh i u Hp). lia.
Qed.

Lemma Shown_run es : forall st st',
  Inv st -> Shown st -> run st es = Some st' -> Shown st'.
Proof.
  induction es as [|e es IH]; simpl; intros st st' I Sh.
  - intros [= <-]. exact Sh.
  - destruct (step st e) as [st1|] eqn:Hs; [|discriminate].
    apply IH; [exact (Inv_step st e st1 I Hs) | exact (Shown_step st e st1 I Sh Hs)].
Qed.

Lemma Shown_reachable b es st : run (construct b) es = Some st -> Shown st.
Proof. apply Shown_run; [apply Inv_construct | apply Shown_construct]. Qed.

Lemma static_fields st st0 :
  static st = static st0 ->
  data_original_content (button st) = data_original_content (button st0)
  /\ cls_morphing (button st) = cls_morphing (button st0)
  /\ originalContent st = originalContent st0.
Proof. unfold static. intros [= H1 H2 H3]. auto. Qed.

(** *** The minimum loading time *)

Lemma paced_step st e st' :
  Inv st -> (forall id t, timers st !! id = Some t -> paced t) ->
  step st e = Some st' ->
  forall id t, timers st' !! id = Some t -> paced t.
Proof.
  intros I P. destruct e as [j|id rnd|dt]; simpl.
  - destruct (j <? 2000); [|discriminate]. intros [= <-].
    destruct (isSubmitting st || isLoading st) eqn:G.
    { rewrite handleSubmit_blocked; auto. }
    destruct (handleSubmit_accepted j st G) as (_ & _ & Ht & _).
    intros i u. rewrite Ht.
    intros [[<- <-]|[_ Hp]]%lookup_insert_Some.
    + unfold paced, LOADING_MIN_DURATION. simpl. lia.
    + apply pending_after_clear_sub in Hp. exact (P i u Hp).
  - destruct (timers st !! id) as [t|] eqn:Hid; [|discriminate].
    destruct (due t <=? now st) eqn:Hdue; [|discriminate]. intros [= <-].
    apply N.leb_le in Hdue. pose proof (P id t Hid) as Pt. unfold paced in Pt.
    assert (Hsettle : forall st1 T1 T2,
              timers st1
              = <[S (next_timer st) := T2]>
                  (<[next_timer st := T1]>
                     (pending_after_clear (clearTimeout id st))) ->
              paced T1 -> paced T2 ->
              forall i u, timers st1 !! i = Some u -> paced u).
    { intros st1 T1 T2 Ht P1 P2 i u. rewrite Ht.
      intros [[<- <-]|[_ [[<- <-]|[_ Hp]]%lookup_insert_Some]]%lookup_insert_Some;
        [exact P2 | exact P1 |].
      apply pending_after_fire in Hp as [_ Hp]. exact (P i u Hp). }
    destruct (callback t) as [|start| | |k] eqn:Hcb; cbn [run_callback].
    + intros i u. rewrite setState_timers. cbv beta iota. intros Hp.
      apply pending_after_fire in Hp as [_ Hp]. exact (P i u Hp).
    + unfold submission_settled. cbv zeta.
      assert (Hlate : (now (clearTimeout id st) - start <? LOADING_MIN_DURATION)
                      = false).
      { apply N.ltb_ge. change (now (clearTimeout id st)) with (now st).
        unfold LOADING_MIN_DURATION in *. lia. }
      rewrite Hlate. destruct rnd.
      * destruct (finish_success_view (clearTimeout id st))
          as (_ & _ & Ht & _).
        apply (Hsettle _ _ _ Ht); exact Logic.I.
      * destruct (finish_error_view "Network error: Unable to reach server"
                    (clearTimeout id st)) as (_ & _ & Ht & _).
        apply (Hsettle _ _ _ Ht); exact Logic.I.
    + contradiction.
    + intros i u. simpl. intros [_ Hp]%lookup_delete_Some. exact (P i u Hp).
    + intros i u. simpl. intros [_ Hp]%lookup_delete_Some. exact (P i u Hp).
  - intros [= <-]. exact P.
Qed.

Lemma paced_run es : forall st st',
  Inv st -> (forall id t, timers st !! id = Some t -> paced t) ->
  run st es = Some st' ->
  forall id t, timers st' !! id = Some t -> paced t.
Proof.
  induction es as [|e es IH]; simpl; intros st st' I P.
  - intros [= <-]. exact P.
  - destruct (step st e) as [st1|] eqn:Hs; [|discriminate].
    apply IH; [exact (Inv_step st e st1 I Hs) | exact (paced_step st e st1 I P Hs)].
Qed.

Lemma paced_reachable b es st :
  run (construct b) es = Some st ->
  forall id t, timers st !! id = Some t -> paced t.
Proof.
  apply paced_run; [apply Inv_construct|].
  destruct (construct_view b) as (_ & _ & Ht & _).
  intros id t. rewrite Ht, lookup_empty. discriminate.
Qed.

(** *** What a visitor sees *)

(** X14.  In every state the page can reach the submit button looks as its
    current state says: it carries the class of that state and of no other
    state, it is disabled exactly in the loading and the success state,
    [aria-busy] is true exactly while loading, and its content is the
    loading, success or error template or, when idle, the original
    content. *)
Theorem button_shows_its_state (b : Button) (es : list Event) (st : State) :
  run (construct b) es = Some st ->
  button st
  = appearance (currentState st) (button (construct b)) (innerHTML b)
  /\ disabled (button st)
     = match currentState st with LOADING | SUCCESS => true | _ => false end.
Proof.
  intros Hr.
  pose proof (sh_button st (Shown_reachable b es st Hr)) as Hb.
  destruct (static_fields _ _ (run_static es _ _ Hr)) as (Hd & Hm & Ho).
  destruct (construct_view b) as (_ & _ & _ & _ & _ & _ & _ & Hoc).
  rewrite Hoc in Ho.
  assert (E : button st
              = appearance (currentState st) (button (construct b))
                  (innerHTML b)).
  { rewrite Hb at 1. rewrite Ho. apply appearance_static; assumption. }
  split; [exact E|]. rewrite E. reflexivity.
Qed.

(** After a failed submission the button shows the error state. *)
Lemma button_shows_its_state_witness :
  exists st, run (construct plain_button) failure_trace = Some st
    /\ button st
       = appearance (currentState st) (button (construct plain_button))
           (Markup "Send Message").
Proof.
  destruct (run (construct plain_button) failure_trace) as [st|] eqn:Hr.
  - exists st. split; [reflexivity|].
    exact (proj1 (button_shows_its_state plain_button failure_trace st Hr)).
  - vm_compute in Hr. discriminate.
Defined.

(** X15.  Every accepted submission is answered exactly once: in every
    reachable state the number of [simulateSubmission] calls is the number
    of [formSubmitSuccess] and [formSubmitError] events dispatched so far,
    plus one while the button is loading. *)
Theorem every_submission_answered (b : Button) (es : list Event) (st : State) :
  run (construct b) es = Some st ->
  sim_calls st
  = (length (dispatched st) + (if isLoading st then 1 else 0))%nat.
Proof. intros Hr. exact (sh_answered st (Shown_reachable b es st Hr)). Qed.

(** After a failure and a second submit one call is answered, one in
    flight. *)
Lemma every_submission_answered_witness :
  exists st, run (construct plain_button) retry_trace = Some st
    /\ sim_calls st
       = (length (dispatched st) + (if isLoading st then 1 else 0))%nat.
Proof.
  destruct (run (construct plain_button) retry_trace) as [st|] eqn:Hr.
  - exists st. split; [reflexivity|].
    exact (every_submission_answered plain_button retry_trace st Hr).
  - vm_compute in Hr. discriminate.
Defined.

(** X16.  The form never shows more than one error banner, and a banner on
    display has its removal pending: a timer due within 3000 ms that, when
    it runs, leaves the form without banner. *)
Theorem banner_is_removed (b : Button) (es : list Event) (st : State) :
  run (construct b) es = Some st ->
  (length (banners st) <= 1)%nat
  /\ forall k msg, (k, msg) ∈ banners st ->
       exists id t,
         timers st !! id = Some t /\ due t <= now st + 3000
         /\ forall rnd st', step st (Fire id rnd) = Some st' ->
              banners st' = [].
Proof.
  intros Hr. pose proof (Shown_reachable b es st Hr) as Sh.
  pose proof (sh_one_banner st Sh) as Hone.
  split; [exact Hone|]. intros k msg Hin.
  destruct (sh_banner_timer st Sh k msg Hin) as (id & t & Hp & Hcb).
  exists id, t. split; [exact Hp|]. split; [exact (sh_timely st Sh id t Hp)|].
  intros rnd st'. simpl. rewrite Hp.
  destruct (due t <=? now st); [|discriminate]. intros [= <-].
  rewrite Hcb.
  change (filter (fun x : nat * string => x.1 <> k) (banners st) = []).
  destruct (banners st) as [|x [|y r]]; [reflexivity | | simpl in Hone; lia].
  apply list_elem_of_singleton in Hin as <-.
  rewrite filter_cons. simpl.
  destruct (decide (k <> k)) as [Hne|_]; [congruence | reflexivity].
Qed.

(** The banner of a failed submission. *)
Lemma banner_is_removed_witness :
  exists st, run (construct plain_button) failure_trace = Some st
    /\ (length (banners st) <= 1)%nat.
Proof.
  destruct (run (construct plain_button) failure_trace) as [st|] eqn:Hr.
  - exists st. split; [reflexivity|].
    exact (proj1 (banner_is_removed plain_button failure_trace st Hr)).
  - vm_compute in Hr. discriminate.
Defined.

(** X17.  The success and the error state never stay: whenever one of them
    is on display, the timer that ends it is pending and due within
    3000 ms, and once that time has passed its run returns the button to
    the idle state, enabled. *)
Theorem display_returns_to_idle (b : Button) (es : list Event) (st : State) :
  run (construct b) es = Some st ->
  currentState st = SUCCESS \/ currentState st = ERROR ->
  exists id t,
    timers st !! id = Some t /\ due t <= now st + 3000
    /\ forall dt rnd, due t <= now st + dt ->
         exists st', run st [Elapse dt; Fire id rnd] = Some st'
           /\ currentState st' = IDLE
           /\ disabled (button st') = false.
Proof.
  intros Hr Hst. pose proof (Shown_reachable b es st Hr) as Sh.
  destruct (sh_display st Sh Hst) as (id & t & _ & Hp & Hcb).
  exists id, t. split; [exact Hp|]. split; [exact (sh_timely st Sh id t Hp)|].
  intros dt rnd Hdue. cbn [run step].
  set (st1 := {| button := button st; currentState := currentState st;
                 originalContent := originalContent st;
                 stateTimeout := stateTimeout st;
                 isSubmitting := isSubmitting st; banners := banners st;
                 next_banner := next_banner st; resets := resets st;
                 dispatched := dispatched st; now := now st + dt;
                 timers := timers st; next_timer := next_timer st;
                 state_log := state_log st; sim_calls := sim_calls st |}).
  change (timers st1) with (timers st). rewrite Hp.
  change (now st1) with (now st + dt).
  apply N.leb_le in Hdue. rewrite Hdue, Hcb. cbn [run_callback].
  eexists. split; [reflexivity|].
  split; [apply setState_currentState|].
  rewrite to_idle_page. reflexivity.
Qed.

(** The error state of a failed submission ends 3000 ms later. *)
Lemma display_returns_to_idle_witness :
  exists st, run (construct plain_button) failure_trace = Some st
    /\ exists id t, timers st !! id = Some t /\ due t <= now st + 3000.
Proof.
  destruct (run (construct plain_button) failure_trace) as [st|] eqn:Hr.
  - exists st. split; [reflexivity|].
    destruct (display_returns_to_idle plain_button failure_trace st Hr)
      as (id & t & Hp & Hd & _).
    + right. injection Hr as <-. reflexivity.
    + exists id, t. auto.
  - vm_compute in Hr. discriminate.
Defined.

(** X18.  The loading state is shown for at least the minimum loading
    time: in every reachable state, whenever a timer can run while the
    button is loading, at least 1000 ms have passed since the submission
    started and the button leaves the loading state for the success or the
    error state; the extra wait of [delay] is never armed. *)
Theorem loading_lasts_minimum
    (b : Button) (es : list Event) (st : State) :
  run (construct b) es = Some st ->
  (forall id t, timers st !! id = Some t -> callback t <> MinDelayDone)
  /\ forall id rnd st',
       currentState st = LOADING -> step st (Fire id rnd) = Some st' ->
       currentState st' <> currentState st ->
       exists t start,
         timers st !! id = Some t /\ callback t = SimSettle start
         /\ start + LOADING_MIN_DURATION <= now st
         /\ currentState st' = (if rnd then SUCCESS else ERROR).
Proof.
  intros Hr. pose proof (Inv_reachable b es st Hr) as I.
  pose proof (paced_reachable b es st Hr) as P.
  split.
  { intros id t Hp Hcb. pose proof (P id t Hp) as Pt. unfold paced in Pt.
    rewrite Hcb in Pt. exact Pt. }
  intros id rnd st' Hload. simpl.
  destruct (timers st !! id) as [t|] eqn:Hid; [|discriminate].
  destruct (due t <=? now st) eqn:Hdue; [|discriminate]. intros [= <-].
  apply N.leb_le in Hdue. pose proof (P id t Hid) as Pt. unfold paced in Pt.
  destruct (callback t) as [|start| | |k] eqn:Hcb; cbn [run_callback].
  - destruct (inv_display st I id t Hid Hcb) as [_ [E|E]]; congruence.
  - intros _. exists t, start. split; [reflexivity|]. split; [exact Hcb|].
    split; [unfold LOADING_MIN_DURATION in *; lia|].
    unfold submission_settled. cbv zeta.
    assert (Hlate : (now (clearTimeout id st) - start <? LOADING_MIN_DURATION)
                    = false).
    { apply N.ltb_ge. change (now (clearTimeout id st)) with (now st).
      unfold LOADING_MIN_DURATION in *. lia. }
    rewrite Hlate. destruct rnd.
    + exact (proj1 (finish_success_view (clearTimeout id st))).
    + exact (proj1 (finish_error_view _ (clearTimeout id st))).
  - contradiction.
  - intros H. exfalso. apply H. reflexivity.
  - intros H. exfalso. apply H. reflexivity.
Qed.

(** While the first submission is in flight no [delay] timer is pending. *)
Lemma loading_lasts_minimum_witness :
  exists st, run (construct plain_button) [Submit 0; Elapse 1000] = Some st
    /\ forall id t, timers st !! id = Some t -> callback t <> MinDelayDone.
Proof.
  destruct (run (construct plain_button) [Submit 0; Elapse 1000])
    as [st|] eqn:Hr.
  - exists st. split; [reflexivity|].
    exact (proj1 (loading_lasts_minimum plain_button _ st Hr)).
  - vm_compute in Hr. discriminate.
Defined.

(** *** [destroy] *)

Lemma destroy_view st :
  let st' := destroy st in
  currentState st' = IDLE
  /\ stateTimeout st'
     = match stateTimeout st with Some (S _) => None | other => other end
  /\ button st'
     = appearance IDLE
         {| cls_morphing := false; cls_idle := false; cls_loading := false;
            cls_success := false; cls_error := false; disabled := false;
            aria_busy := None; aria_live := None; innerHTML := Markup "";
            data_original_content := data_original_content (button st) |}
         (originalContent st)
  /\ timers st'
     = match stateTimeout st with
       | Some (S _ as id) => delete id (delete id (timers st))
       | _ => timers st
       end.
Proof.
  destruct st as [? ? ? [[|?]|] ? ? ? ? ? ? ? ? ? ?];
    repeat split; vm_compute; reflexivity.
Qed.

(** X19.  [destroy] on any reachable state leaves the button idle and
    enabled, showing its idle content, without the [btn-morphing] class
    and without a recorded or pending state-display timer; unless a
    submission was in flight, the timers left only reset the form or
    remove a banner, so no pending timer changes the button afterwards. *)
Theorem destroy_leaves_plain_button
    (b : Button) (es : list Event) (st : State) :
  run (construct b) es = Some st ->
  currentState (destroy st) = IDLE
  /\ button (destroy st)
     = appearance IDLE
         {| cls_morphing := false; cls_idle := false; cls_loading := false;
            cls_success := false; cls_error := false; disabled := false;
            aria_busy := None; aria_live := None; innerHTML := Markup "";
            data_original_content :=
              data_original_content (button (construct b)) |}
         (innerHTML b)
  /\ stateTimeout (destroy st) = None
  /\ (forall id t, timers (destroy st) !! id = Some t ->
        callback t <> ToIdle)
  /\ (currentState st <> LOADING ->
      forall id t, timers (destroy st) !! id = Some t ->
        is_housekeeping (callback t) = true).
Proof.
  intros Hr. pose proof (Inv_reachable b es st Hr) as I.
  destruct (destroy_view st) as (Hc & Hto & Hb & Ht).
  destruct (static_fields _ _ (run_static es _ _ Hr)) as (Hd & Hm & Ho).
  destruct (construct_view b) as (_ & _ & _ & _ & _ & _ & _ & Hoc).
  rewrite Hoc in Ho.
  assert (Hsub : forall id t, timers (destroy st) !! id = Some t ->
                   timers st !! id = Some t /\ stateTimeout st <> Some id).
  { intros id t. rewrite Ht.
    destruct (stateTimeout st) as [[|h]|] eqn:E.
    - intros Hp. split; [exact Hp|]. intros [= <-].
      destruct (inv_handle st I 0%nat E). lia.
    - intros [Hne [_ Hp]%lookup_delete_Some]%lookup_delete_Some.
      split; [exact Hp | congruence].
    - intros Hp. split; [exact Hp | discriminate]. }
  assert (Hnd : forall id t, timers (destroy st) !! id = Some t ->
                  callback t <> ToIdle).
  { intros id t Hp Hcb. destruct (Hsub id t Hp) as [Hp' Hne].
    destruct (inv_display st I id t Hp' Hcb) as [E _]. contradiction. }
  split; [exact Hc|]. split.
  { rewrite Hb, Hd, Ho. reflexivity. }
  split.
  { rewrite Hto. destruct (stateTimeout st) as [[|h]|] eqn:E; try reflexivity.
    destruct (inv_handle st I 0%nat E). lia. }
  split; [exact Hnd|].
  intros Hnl id t Hp. destruct (Hsub id t Hp) as [Hp' _].
  pose proof (Inv_not_loading_no_flight st I Hnl id t Hp') as Hf.
  pose proof (Hnd id t Hp) as Hcb.
  destruct (callback t); simpl in *; congruence.
Qed.

(** [destroy] while the error state is on display. *)
Lemma destroy_leaves_plain_button_witness :
  exists st, run (construct plain_button) failure_trace = Some st
    /\ currentState (destroy st) = IDLE
    /\ stateTimeout (destroy st) = None.
Proof.
  destruct (run (construct plain_button) failure_trace) as [st|] eqn:Hr.
  - exists st. split; [reflexivity|].
    destruct (destroy_leaves_plain_button plain_button failure_trace st Hr)
      as (H1 & _ & H3 & _).
    auto.
  - vm_compute in Hr. discriminate.
Defined.

End InteractionsExtra.

(* ===================================================================== *)
(** ** [js/animations.js]: stagger, class lists and observers *)
(* ===================================================================== *)

Module AnimationsExtra.
Import Animations AnimationsFacts AnimationsPage.

(** *** The stagger of a group *)

Lemma group_index_cons c e rest j :
  group_index c (e :: rest) (S j)
  = ((if has_class c e then 1 else 0) + group_index c rest j)%nat.
Proof.
  unfold group_index. rewrite firstn_cons, filter_cons.
  destruct (decide (has_class c e = true)) as [E|E].
  - rewrite E. reflexivity.
  - apply not_true_is_false in E. rewrite E. reflexivity.
Qed.

Lemma query_from_elem c els : forall i0 t,
  t ∈ query_from c i0 els ->
  exists j e, t = (i0 + j)%nat /\ els !! j = Some e /\ has_class c e = true.
Proof.
  induction els as [|e0 rest IH]; intros i0 t; simpl.
  { intros H. inversion H. }
  destruct (has_class c e0) eqn:E0.
  - intros [->|Hin]%elem_of_cons.
    + exists 0%nat, e0. rewrite Nat.add_0_r. auto.
    + destruct (IH _ _ Hin) as (j & e & -> & Hj & He).
      exists (S j), e. split; [lia | auto].
  - intros Hin. destruct (IH _ _ Hin) as (j & e & -> & Hj & He).
    exists (S j), e. split; [lia | auto].
Qed.

Lemma query_from_NoDup c els : forall i0, NoDup (query_from c i0 els).
Proof.
  induction els as [|e0 rest IH]; intros i0; simpl; [constructor|].
  destruct (has_class c e0); [|apply IH].
  constructor; [|apply IH].
  intros Hin. apply query_from_elem in Hin as (j & e & Hj & _). lia.
Qed.

Lemma query_from_lookup c els : forall i0 j e,
  els !! j = Some e -> has_class c e = true ->
  query_from c i0 els !! group_index c els j = Some (i0 + j)%nat.
Proof.
  induction els as [|e0 rest IH]; intros i0 j e Hj He; [discriminate|].
  destruct j as [|j]; simpl in Hj.
  - injection Hj as ->. simpl. rewrite He. unfold group_index. simpl.
    rewrite Nat.add_0_r. reflexivity.
  - rewrite group_index_cons. simpl.
    destruct (has_class c e0); simpl; rewrite (IH (S i0) j e Hj He);
      f_equal; lia.
Qed.

Lemma prepareElement_alter t cls index els :
  prepareElement t cls index els = alter (prepared cls index) t els.
Proof. reflexivity. Qed.

Lemma prepare_from_lookup cls ts : forall index els,
  NoDup ts ->
  (forall k i, ts !! k = Some i ->
     prepare_from index ts cls els !! i
     = prepared cls (index + k) <$> els !! i)
  /\ (forall i, i ∉ ts -> prepare_from index ts cls els !! i = els !! i).
Proof.
  induction ts as [|t rest IH]; intros index els Hnd.
  { split; [discriminate | reflexivity]. }
  apply NoDup_cons in Hnd as [Ht Hnd].
  destruct (IH (S index) (prepareElement t cls index els) Hnd) as [IH1 IH2].
  cbn [prepare_from]. split.
  - intros [|k] i Hk; simpl in Hk.
    + injection Hk as ->. rewrite (IH2 _ Ht), prepareElement_alter.
      rewrite list_lookup_alter_eq, Nat.add_0_r. reflexivity.
    + rewrite (IH1 k i Hk), prepareElement_alter.
      assert (Hne : t <> i).
      { intros ->. apply Ht. apply (list_elem_of_lookup_2 _ _ _ Hk). }
      rewrite list_lookup_alter_ne by exact Hne.
      replace (S index + k)%nat with (index + S k)%nat by lia. reflexivity.
  - intros i Hi. apply not_elem_of_cons in Hi as [Hne Hi].
    rewrite (IH2 _ Hi), prepareElement_alter.
    apply list_lookup_alter_ne. congruence.
Qed.

(** X20.  A group initialiser of [js/animations.js] staggers its group:
    each element that carries the group's class gets the animation class
    and, as its delay, 150 ms times the number of group members before it
    in the document, and is observed by the observer just created; every
    other element is left as it was. *)
Theorem group_stagger
    (selector animationClass : string) (st : State) (i : nat) (e : Element) :
  elements st !! i = Some e ->
  let st' := init_group selector animationClass st in
  elements st' !! i
  = Some (if has_class selector e
          then prepared animationClass
                 (group_index selector (elements st) i) e
          else e)
  /\ (has_class selector e = true ->
      observes (next_observer st) i st' = true
      /\ next_observer st ∈ observers st').
Proof.
  intros Hi st'. unfold st', init_group.
  pose proof (query_from_lookup selector (elements st) 0 i e Hi) as Hq.
  pose proof (query_from_elem selector (elements st) 0 i) as Hin.
  pose proof (query_from_NoDup selector (elements st) 0) as Hnd.
  fold (querySelectorAll selector (elements st)) in Hq, Hin, Hnd.
  assert (Hmem : i ∈ querySelectorAll selector (elements st) ->
                 has_class selector e = true).
  { intros H. destruct (Hin H) as (j & e' & Hj & He' & Hc).
    simpl in Hj. subst j. congruence. }
  destruct (querySelectorAll selector (elements st)) as [|t ts] eqn:Eq.
  - destruct (has_class selector e) eqn:He.
    + specialize (Hq eq_refl). discriminate.
    + split; [exact Hi | discriminate].
  - cbn [watch elements observed observers]. unfold prepareElements.
    destruct (prepare_from_lookup animationClass (t :: ts) 0 (elements st) Hnd)
      as [P1 P2].
    destruct (has_class selector e) eqn:He.
    + specialize (Hq eq_refl). simpl in Hq. split.
      * rewrite (P1 _ _ Hq), Hi. reflexivity.
      * intros _. split.
        -- unfold observes. cbn [observed watch]. rewrite lookup_insert_eq.
           apply bool_decide_eq_true. apply elem_of_list_to_set.
           apply (list_elem_of_lookup_2 _ _ _ Hq).
        -- apply elem_of_app. right. apply list_elem_of_here.
    + split; [|discriminate]. rewrite P2; [exact Hi|].
      intros H. specialize (Hmem H). discriminate.
Qed.

(** The second of two course cards. *)
Lemma group_stagger_witness :
  elements (initCourseCardAnimations (script_loaded two_cards false false))
    !! 1%nat
  = Some {| classes := ["course-card"; "reveal"]; delay_attr := Some 150 |}.
Proof.
  destruct (group_stagger "course-card" "reveal"
              (script_loaded two_cards false false) 1
              {| classes := ["course-card"]; delay_attr := None |})
    as [H _].
  - reflexivity.
  - exact H.
Defined.

(** *** Class lists only grow *)

Lemma grows_refl els : grows els els.
Proof. split; [reflexivity|]. intros i e H. exists e. split; [exact H|]. set_solver. Qed.

Lemma grows_trans els1 els2 els3 :
  grows els1 els2 -> grows els2 els3 -> grows els1 els3.
Proof.
  intros [L1 G1] [L2 G2]. split; [congruence|].
  intros i e H. destruct (G1 i e H) as (e2 & H2 & S2).
  destruct (G2 i e2 H2) as (e3 & H3 & S3).
  exists e3. split; [exact H3|]. set_solver.
Qed.

Lemma grows_alter (f : Element -> Element) t els :
  (forall e, classes e ⊆ classes (f e)) -> grows els (alter f t els).
Proof.
  intros Hf. split; [apply length_alter|].
  intros i e H. destruct (decide (t = i)) as [->|Hne].
  - exists (f e). rewrite list_lookup_alter_eq, H. split; [reflexivity | apply Hf].
  - exists e. rewrite list_lookup_alter_ne by exact Hne.
    split; [exact H | set_solver].
Qed.

Lemma add_class_sub c e : classes e ⊆ classes (add_class c e).
Proof.
  unfold add_class. destruct (has_class c e); [set_solver|].
  simpl. set_solver.
Qed.

Lemma prepareElement_grows t cls index els :
  grows els (prepareElement t cls index els).
Proof. apply grows_alter. intros e. apply add_class_sub. Qed.

Lemma prepare_from_grows cls ts : forall index els,
  grows els (prepare_from index ts cls els).
Proof.
  induction ts as [|t rest IH]; intros index els; [apply grows_refl|].
  cbn [prepare_from].
  exact (grows_trans _ _ _ (prepareElement_grows t cls index els) (IH _ _)).
Qed.

Lemma init_group_grows sel cls st :
  grows (elements st) (elements (init_group sel cls st)).
Proof.
  unfold init_group. destruct (querySelectorAll sel (elements st));
    [apply grows_refl | apply prepare_from_grows].
Qed.

Lemma init_single_grows sel cls index st :
  grows (elements st) (elements (init_single sel cls index st)).
Proof.
  unfold init_single. destruct (querySelector sel (elements st));
    [apply prepareElement_grows | apply grows_refl].
Qed.

Lemma init_grows st : grows (elements st) (elements (init st)).
Proof.
  unfold init. destruct (isInitialized st); [apply grows_refl|].
  destruct (shouldDisableAnimations st); [apply grows_refl|].
  change (elements (set_initialized true ?s)) with (elements s).
  unfold initContactSectionAnimations, initAboutSectionAnimations,
    initSectionHeaderAnimations, initTrustBadgeAnimations,
    initStatAnimations, initTestimonialAnimations, initCourseCardAnimations.
  repeat (eapply grows_trans;
          [|first [apply init_group_grows | apply init_single_grows]]).
  apply grows_refl.
Qed.

Lemma handleIntersection_elements o entries : forall st,
  elements (handleIntersection o entries st) = elements st.
Proof.
  unfold handleIntersection.
  induction entries as [|[t v] rest IH]; intros st; simpl; [reflexivity|].
  rewrite IH. unfold handle_entry. destruct (v && _); reflexivity.
Qed.

Lemma step_grows st e st' :
  step st e = Some st' -> grows (elements st) (elements st').
Proof.
  destruct e as [|r|o entries|id|dt|]; cbn [step].
  - intros [= <-]. apply init_grows.
  - intros [= <-]. unfold handleMotionPreferenceChange.
    destruct (_ && _); [apply grows_refl|].
    destruct (_ && _); [|apply grows_refl].
    apply (init_grows (set_reduced_motion r st)).
  - destruct (_ && _); [|discriminate]. intros [= <-].
    rewrite handleIntersection_elements. apply grows_refl.
  - destruct (timers st !! id) as [tm|]; [|discriminate].
    destruct (due tm <=? now st); [|discriminate]. intros [= <-].
    cbn [reveal elements set_clock]. apply grows_alter.
    intros e. apply add_class_sub.
  - intros [= <-]. apply grows_refl.
  - intros [= <-]. apply grows_refl.
Qed.

Lemma run_grows es : forall st st',
  run st es = Some st' -> grows (elements st) (elements st').
Proof.
  induction es as [|e es IH]; simpl; intros st st'.
  - intros [= <-]. apply grows_refl.
  - destruct (step st e) as [st1|] eqn:Hs; [|discriminate]. intros Hr.
    exact (grows_trans _ _ _ (step_grows st e st1 Hs) (IH st1 st' Hr)).
Qed.

(** X21.  The module never removes an element or a class: along any run,
    from any state, the document keeps its length and every element keeps
    every class it had; in particular an element that has been revealed
    stays [active], also when the motion preference changes or the page
    unloads. *)
Theorem classes_only_grow
    (st st' : State) (es : list Event) (i : nat) (e : Element) (c : string) :
  run st es = Some st' ->
  elements st !! i = Some e -> c ∈ classes e ->
  length (elements st') = length (elements st)
  /\ exists e', elements st' !! i = Some e' /\ c ∈ classes e'.
Proof.
  intros Hr Hi Hc. destruct (run_grows es st st' Hr) as [Hlen Hg].
  split; [exact Hlen|].
  destruct (Hg i e Hi) as (e' & Hi' & Hsub). exists e'. split; [exact Hi'|].
  apply Hsub, Hc.
Qed.

(** The revealed first card stays active when reduced motion is requested
    afterwards. *)
Lemma classes_only_grow_witness :
  exists st' e',
    run (script_loaded two_cards_first_revealed false false)
      [DomReady; PreferenceChange true] = Some st'
    /\ elements st' !! 0%nat = Some e' /\ "active" ∈ classes e'.
Proof.
  destruct (run (script_loaded two_cards_first_revealed false false)
              [DomReady; PreferenceChange true]) as [st'|] eqn:Hr.
  - destruct (classes_only_grow _ st' _ 0
                {| classes := ["course-card"; "reveal"; "active"];
                   delay_attr := Some 0 |} "active" Hr)
      as (_ & e' & Hi & Hc).
    + reflexivity.
    + set_solver.
    + exists st', e'. auto.
  - vm_compute in Hr. discriminate.
Defined.

(** *** The reveal is one-shot *)

Lemma init_group_animated sel cls st :
  animatedElements (init_group sel cls st) = animatedElements st.
Proof. unfold init_group. destruct (querySelectorAll _ _); reflexivity. Qed.

Lemma init_group_timers sel cls st :
  timers (init_group sel cls st) = timers st.
Proof. unfold init_group. destruct (querySelectorAll _ _); reflexivity. Qed.

Lemma init_single_animated sel cls index st :
  animatedElements (init_single sel cls index st) = animatedElements st.
Proof. unfold init_single. destruct (querySelector _ _); reflexivity. Qed.

Lemma init_single_timers sel cls index st :
  timers (init_single sel cls index st) = timers st.
Proof. unfold init_single. destruct (querySelector _ _); reflexivity. Qed.

Lemma init_animated_timers st :
  animatedElements (init st) = animatedElements st
  /\ timers (init st) = timers st.
Proof.
  unfold init. destruct (isInitialized st); [auto|].
  destruct (shouldDisableAnimations st); [auto|].
  change (animatedElements (set_initialized true ?s))
    with (animatedElements s).
  change (timers (set_initialized true ?s)) with (timers s).
  unfold initContactSectionAnimations, initAboutSectionAnimations,
    initSectionHeaderAnimations, initTrustBadgeAnimations,
    initStatAnimations, initTestimonialAnimations, initCourseCardAnimations.
  rewrite !init_single_animated, !init_group_animated.
  rewrite !init_single_timers, !init_group_timers. auto.
Qed.

Lemma handle_entry_revealed o entry st t :
  t ∈ animatedElements st ->
  animatedElements (handle_entry o entry st) = animatedElements st
  /\ forall id tm, timers (handle_entry o entry st) !! id = Some tm ->
       target tm = t -> timers st !! id = Some tm.
Proof.
  intros Ht. destruct entry as [t' v]. unfold handle_entry.
  destruct (v && negb (isAnimated t' st)) eqn:E; [|auto].
  cbn [animatedElements timers]. split; [reflexivity|].
  intros id tm [[<- <-]|[_ H]]%lookup_insert_Some; [|auto].
  cbn [target]. intros ->. exfalso.
  apply andb_true_iff in E as [_ E]. apply negb_true_iff in E.
  unfold isAnimated in E. apply bool_decide_eq_false in E. contradiction.
Qed.

Lemma handleIntersection_revealed o entries t : forall st,
  t ∈ animatedElements st ->
  animatedElements (handleIntersection o entries st) = animatedElements st
  /\ forall id tm, timers (handleIntersection o entries st) !! id = Some tm ->
       target tm = t -> timers st !! id = Some tm.
Proof.
  unfold handleIntersection.
  induction entries as [|entry rest IH]; intros st Ht; cbn [foldl]; [auto|].
  destruct (handle_entry_revealed o entry st t Ht) as [Ha Hk].
  destruct (IH (handle_entry o entry st)) as [Ha' Hk'].
  { rewrite Ha. exact Ht. }
  split; [congruence|]. intros id tm H1 H2. exact (Hk id tm (Hk' id tm H1 H2) H2).
Qed.

Lemma step_revealed st e st' t :
  step st e = Some st' -> t ∈ animatedElements st ->
  t ∈ animatedElements st'
  /\ forall id tm, timers st' !! id = Some tm -> target tm = t ->
       timers st !! id = Some tm.
Proof.
  destruct e as [|r|o entries|id|dt|]; cbn [step].
  - intros [= <-] Ht. destruct (init_animated_timers st) as [-> ->]. auto.
  - intros [= <-] Ht. unfold handleMotionPreferenceChange.
    destruct (_ && _); [auto|]. destruct (_ && _); [|auto].
    destruct (init_animated_timers (set_reduced_motion r st)) as [-> ->]. auto.
  - destruct (_ && _); [|discriminate]. intros [= <-] Ht.
    destruct (handleIntersection_revealed o entries t st Ht) as [-> Hk]. auto.
  - destruct (timers st !! id) as [tm0|]; [|discriminate].
    destruct (due tm0 <=? now st); [|discriminate]. intros [= <-] Ht.
    cbn [reveal animatedElements timers set_clock]. split; [set_solver|].
    intros i tm [_ H]%lookup_delete_Some _. exact H.
  - intros [= <-] Ht. auto.
  - intros [= <-] Ht. auto.
Qed.

(** X22.  The reveal is one-shot: once an element has been marked as
    animated it stays marked, and no later intersection report arms a
    timer for it, whatever happens on the page; a timer that targets it
    afterwards was already pending. *)
Theorem revealed_never_rearmed
    (es : list Event) (st st' : State) (t : nat) :
  run st es = Some st' -> t ∈ animatedElements st ->
  t ∈ animatedElements st'
  /\ forall id tm, timers st' !! id = Some tm -> target tm = t ->
       timers st !! id = Some tm.
Proof.
  revert st. induction es as [|e es IH]; simpl; intros st.
  - intros [= <-] Ht. auto.
  - destruct (step st e) as [st1|] eqn:Hs; [|discriminate]. intros Hr Ht.
    destruct (step_revealed st e st1 t Hs Ht) as [Ht1 Hk1].
    destruct (IH st1 Hr Ht1) as [Ht' Hk'].
    split; [exact Ht'|]. intros id tm H1 H2.
    exact (Hk1 id tm (Hk' id tm H1 H2) H2).
Qed.

(** The second card is revealed after the first. *)
Lemma revealed_never_rearmed_witness :
  exists st',
    run first_revealed [Intersect 0 [(1%nat, true)]; Elapse 150; Fire 2]
    = Some st'
    /\ 0%nat ∈ animatedElements st'.
Proof.
  destruct (run first_revealed [Intersect 0 [(1%nat, true)]; Elapse 150; Fire 2])
    as [st'|] eqn:Hr.
  - exists st'. split; [reflexivity|].
    apply (revealed_never_rearmed _ first_revealed st' 0%nat Hr).
    unfold first_revealed. cbn [animatedElements].
    apply elem_of_singleton. reflexivity.
  - vm_compute in Hr. discriminate.
Defined.

(** *** Observers *)

Lemma watch_disconnected els ts st :
  disconnected st -> disconnected (watch els ts st).
Proof.
  intros D o s. cbn [watch observed observers]. intros H Hn.
  apply not_elem_of_app in Hn as [Hn Hne].
  rewrite lookup_insert_ne in H.
  - exact (D o s H Hn).
  - intros <-. apply Hne. apply list_elem_of_here.
Qed.

Lemma one_more_group sel cls st n :
  disconnected st -> (length (observers st) <= n)%nat ->
  disconnected (init_group sel cls st)
  /\ (length (observers (init_group sel cls st)) <= S n)%nat.
Proof.
  intros D L. unfold init_group.
  destruct (querySelectorAll sel (elements st)) as [|t ts].
  - split; [exact D | lia].
  - split; [apply watch_disconnected, D|].
    cbn [watch observers]. rewrite length_app. simpl. lia.
Qed.

Lemma one_more_single sel cls index st n :
  disconnected st -> (length (observers st) <= n)%nat ->
  disconnected (init_single sel cls index st)
  /\ (length (observers (init_single sel cls index st)) <= S n)%nat.
Proof.
  intros D L. unfold init_single.
  destruct (querySelector sel (elements st)) as [t|].
  - split; [apply watch_disconnected, D|].
    cbn [watch observers]. rewrite length_app. simpl. lia.
  - split; [exact D | lia].
Qed.

Lemma Connected_init st : Connected st -> Connected (init st).
Proof.
  intros C. unfold init. destruct (isInitialized st) eqn:Hi; [exact C|].
  destruct (shouldDisableAnimations st); [exact C|].
  pose proof (con_uninit st C Hi) as Ho.
  assert (L0 : (length (observers st) <= 0)%nat) by (rewrite Ho; simpl; lia).
  destruct (one_more_group "course-card" "reveal" st _ (con_dropped st C) L0)
    as [D1 L1].
  destruct (one_more_group "testimonial-card" "reveal-scale" _ _ D1 L1)
    as [D2 L2].
  destruct (one_more_group "stat-item" "reveal" _ _ D2 L2) as [D3 L3].
  destruct (one_more_group "trust-badge" "reveal" _ _ D3 L3) as [D4 L4].
  destruct (one_more_group "section-header" "reveal" _ _ D4 L4) as [D5 L5].
  destruct (one_more_single "about-text" "reveal-left" 0 _ _ D5 L5)
    as [D6 L6].
  destruct (one_more_single "about-features" "reveal-right" 1 _ _ D6 L6)
    as [D7 L7].
  destruct (one_more_single "contact-info" "reveal-right" 0 _ _ D7 L7)
    as [D8 L8].
  constructor.
  - discriminate.
  - exact L8.
  - exact D8.
Qed.

Lemma cleanup_lookup (l : list nat) (m : gmap nat (gset nat)) o ts :
  foldr (fun o m => alter (fun _ => ∅) o m) m l !! o = Some ts ->
  ts = ∅ \/ ((o ∉ l) /\ (m !! o = Some ts)).
Proof.
  induction l as [|a l IH]; simpl.
  - intros H. right. split; [apply not_elem_of_nil | exact H].
  - destruct (decide (a = o)) as [->|Hne].
    + rewrite lookup_alter_eq.
      destruct (foldr _ m l !! o); simpl; [|discriminate].
      intros [= <-]. left. reflexivity.
    + rewrite lookup_alter_ne by exact Hne. intros H.
      destruct (IH H) as [E|[Hn Hm]]; [left; exact E|].
      right. split; [|exact Hm]. apply not_elem_of_cons. split; congruence.
Qed.

Lemma Connected_cleanup st : Connected st -> Connected (cleanup st).
Proof.
  intros C. constructor; cbn [cleanup observers isInitialized observed].
  - reflexivity.
  - simpl. lia.
  - intros o ts. cbn [cleanup observers observed]. intros H _.
    destruct (cleanup_lookup _ _ _ _ H) as [E|[Hn Hm]]; [exact E|].
    exact (con_dropped st C o ts Hm Hn).
Qed.

Lemma handleIntersection_observers o entries : forall st,
  observers (handleIntersection o entries st) = observers st
  /\ observed (handleIntersection o entries st) = observed st
  /\ isInitialized (handleIntersection o entries st) = isInitialized st.
Proof.
  unfold handleIntersection.
  induction entries as [|[t v] rest IH]; intros st; cbn [foldl]; [auto|].
  destruct (IH (handle_entry o (t, v) st)) as (-> & -> & ->).
  unfold handle_entry. destruct (v && _); auto.
Qed.

Lemma Connected_step st e st' :
  Connected st -> step st e = Some st' -> Connected st'.
Proof.
  intros C. destruct e as [|r|o entries|id|dt|]; cbn [step].
  - intros [= <-]. apply Connected_init, C.
  - intros [= <-].
    assert (C0 : Connected (set_reduced_motion r st)).
    { constructor; [exact (con_uninit st C) | exact (con_count st C)
                    | exact (con_dropped st C)]. }
    unfold handleMotionPreferenceChange.
    destruct (_ && _); [apply Connected_cleanup, C0|].
    destruct (_ && _); [apply Connected_init, C0 | exact C0].
  - destruct (_ && _); [|discriminate]. intros [= <-].
    destruct (handleIntersection_observers o entries st) as (Ho & Hd & Hi).
    constructor.
    + rewrite Hi, Ho. exact (con_uninit st C).
    + rewrite Ho. exact (con_count st C).
    + intros o' ts. rewrite Hd, Ho. exact (con_dropped st C o' ts).
  - destruct (timers st !! id) as [tm|]; [|discriminate].
    destruct (due tm <=? now st); [|discriminate]. intros [= <-].
    constructor; cbn [reveal set_clock observers isInitialized observed].
    + exact (con_uninit st C).
    + exact (con_count st C).
    + intros o' ts. cbn [reveal set_clock observers observed]. intros H Hn.
      destruct (decide (observer tm = o')) as [E|Hne].
      * rewrite E, lookup_alter_eq in H.
        destruct (observed st !! o') as [ts0|] eqn:E0; [|discriminate].
        simpl in H. injection H as <-.
        rewrite (con_dropped st C o' ts0 E0 Hn).
        apply set_eq. intros x. split.
        -- intros [Hx _]%elem_of_difference. exact Hx.
        -- intros Hx. apply elem_of_empty in Hx. contradiction.
      * rewrite lookup_alter_ne in H by exact Hne.
        exact (con_dropped st C o' ts H Hn).
  - intros [= <-].
    constructor; [exact (con_uninit st C) | exact (con_count st C)
                  | exact (con_dropped st C)].
  - intros [= <-]. apply Connected_cleanup, C.
Qed.

Lemma Connected_run es : forall st st',
  Connected st -> run st es = Some st' -> Connected st'.
Proof.
  induction es as [|e es IH]; simpl; intros st st' C.
  - intros [= <-]. exact C.
  - destruct (step st e) as [st1|] eqn:Hs; [|discriminate].
    apply IH. exact (Connected_step st e st1 C Hs).
Qed.

(** X23.  Observers never pile up: however often the document becomes
    ready, the motion preference flips or the page unloads, the module
    holds at most the eight observers one initialisation creates, none
    while it is not initialised, and an observer it has dropped has been
    disconnected and observes nothing. *)
Theorem observers_never_leak
    (els : list Element) (marker reduced : bool) (es : list Event)
    (st : State) :
  run (script_loaded els marker reduced) es = Some st ->
  (length (observers st) <= 8)%nat
  /\ (isInitialized st = false -> observers st = [])
  /\ forall o ts, observed st !! o = Some ts -> o ∉ observers st -> ts = ∅.
Proof.
  intros Hr.
  assert (C0 : Connected (script_loaded els marker reduced)).
  { constructor; simpl.
    - reflexivity.
    - lia.
    - intros o ts. simpl. rewrite lookup_empty. discriminate. }
  pose proof (Connected_run es _ st C0 Hr) as C.
  split; [exact (con_count st C)|].
  split; [exact (con_uninit st C) | exact (con_dropped st C)].
Qed.

(** The preference flips twice on a page with two cards. *)
Lemma observers_never_leak_witness :
  exists st, run (script_loaded two_cards false false) flip_trace = Some st
    /\ (length (observers st) <= 8)%nat.
Proof.
  destruct (run (script_loaded two_cards false false) flip_trace)
    as [st|] eqn:Hr.
  - exists st. split; [reflexivity|].
    exact (proj1 (observers_never_leak two_cards false false flip_trace st Hr)).
  - vm_compute in Hr. discriminate.
Defined.

End AnimationsExtra.
